(** * The MySQL dump front end of the Spanner migration tool

    A shallow embedding of [sources/mysql/mysqldump.go] (statement reader
    loop, parse-error repair, source-schema builder, insert processing),
    of the batch-writer configuration of [import_data/utils.go], and of
    the pieces of the conversion context, of the schema-to-Spanner
    converter and of the batched writer on which that code relies.

    Go strings are byte strings and are modelled as [string]; Go maps
    keyed by strings are [gmap string _]; [int64] values are [Z]; a Go
    run-time panic (index or slice out of range) is the [Panic] outcome
    of the [Res] type. *)

From Stdlib Require Import ZArith List String Ascii Bool Lia DecimalString DecimalNat.
From stdpp Require Import base gmap strings list fin_maps.

Local Open Scope string_scope.
Local Open Scope Z_scope.

(* ===================================================================== *)
(** ** Outcomes: a value, or a Go run-time panic *)
(* ===================================================================== *)

Inductive Res (A : Type) : Type :=
| Ok (a : A)
| Panic (why : string).
Arguments Ok {A} a.
Arguments Panic {A} why.

#[global] Instance res_bind : MBind Res := fun A B (k : A -> Res B) (r : Res A) =>
  match r with
  | Ok a => k a
  | Panic w => Panic w
  end.

#[global] Instance res_ret : MRet Res := fun A (a : A) => Ok a.

(** [for _, x := range xs { body }] over a state [s], with a body that may panic. *)
Fixpoint forRange {A S : Type} (body : S -> A -> Res S) (xs : list A) (s : S) : Res S :=
  match xs with
  | [] => Ok s
  | x :: xs' => s' ← body s x; forRange body xs' s'
  end.

(* ===================================================================== *)
(** ** Go's [strings] and [strconv] functions used by the dump reader *)
(* ===================================================================== *)

Module strings.

Definition nl : ascii := "010"%char.

(** [strings.HasPrefix(s, p)] *)
Fixpoint HasPrefix (s p : string) {struct p} : bool :=
  match p with
  | EmptyString => true
  | String a p' =>
      match s with
      | EmptyString => false
      | String b s' => Ascii.eqb a b && HasPrefix s' p'
      end
  end.

(** [strings.Contains(s, sub)] *)
Fixpoint Contains (s sub : string) : bool :=
  HasPrefix s sub ||
  match s with
  | EmptyString => false
  | String _ s' => Contains s' sub
  end.

Fixpoint drop (n : nat) (s : string) : string :=
  match n with
  | O => s
  | S n' => match s with EmptyString => EmptyString | String _ s' => drop n' s' end
  end.

(** [strings.Count(s, sub)] for a non-empty [sub]: the number of
    non-overlapping occurrences.  [skip] is the number of bytes still
    covered by the occurrence found last. *)
Fixpoint CountFrom (skip : nat) (s sub : string) : Z :=
  match s with
  | EmptyString => 0
  | String _ s' =>
      match skip with
      | S k => CountFrom k s' sub
      | O => if HasPrefix s sub
             then 1 + CountFrom (Nat.pred (String.length sub)) s' sub
             else CountFrom O s' sub
      end
  end.
Definition Count (s sub : string) : Z := CountFrom O s sub.

Definition lowerByte (c : ascii) : ascii :=
  let n := nat_of_ascii c in
  if (Nat.leb 65 n && Nat.leb n 90)%bool then ascii_of_nat (n + 32) else c.

(** [strings.ToLower] on the ASCII letters (the keywords looked for are ASCII). *)
Fixpoint ToLower (s : string) : string :=
  match s with
  | EmptyString => EmptyString
  | String c s' => String (lowerByte c) (ToLower s')
  end.

(** [strings.Split(s, sep)] for a one-byte separator: never empty. *)
Fixpoint Split (s : string) (sep : ascii) : list string :=
  match s with
  | EmptyString => [EmptyString]
  | String c s' =>
      if Ascii.eqb c sep then EmptyString :: Split s' sep
      else match Split s' sep with
           | h :: t => String c h :: t
           | [] => [String c EmptyString]
           end
  end.

(** [strings.Split(s, sep)[0]]: the text before the first separator. *)
Fixpoint Before (s : string) (sep : ascii) : string :=
  match s with
  | EmptyString => EmptyString
  | String c s' => if Ascii.eqb c sep then EmptyString else String c (Before s' sep)
  end.

(** [strings.TrimSuffix(s, suffix)] *)
Fixpoint TrimSuffix (s suffix : string) : string :=
  if String.eqb s suffix then EmptyString
  else match s with
       | EmptyString => EmptyString
       | String c s' => String c (TrimSuffix s' suffix)
       end.

(** [strings.TrimPrefix(s, prefix)] *)
Definition TrimPrefix (s pre : string) : string :=
  if HasPrefix s pre then drop (String.length pre) s else s.

(** [strings.Join(l, sep)] *)
Fixpoint Join (l : list string) (sep : string) : string :=
  match l with
  | [] => EmptyString
  | [x] => x
  | x :: l' => x ++ sep ++ Join l' sep
  end.

(** [s[1:len(s)-1]]: panics when [len(s) < 2]. *)
Fixpoint dropLast (s : string) : string :=
  match s with
  | EmptyString => EmptyString
  | String c EmptyString => EmptyString
  | String c s' => String c (dropLast s')
  end.
Definition inner (s : string) : Res string :=
  match s with
  | String _ (String c s') => Ok (dropLast (String c s'))
  | _ => Panic "slice bounds out of range"
  end.

End strings.

Module strconv.

Definition minInt64 : Z := - 2 ^ 63.
Definition maxInt64 : Z := 2 ^ 63 - 1.

Definition digit (c : ascii) : option Z :=
  let n := nat_of_ascii c in
  if (Nat.leb 48 n && Nat.leb n 57)%bool then Some (Z.of_nat n - 48) else None.

Fixpoint digits (acc : Z) (s : string) : option Z :=
  match s with
  | EmptyString => Some acc
  | String c s' =>
      match digit c with
      | Some d => digits (10 * acc + d) s'
      | None => None
      end
  end.

(** [strconv.ParseInt(s, 10, 64)]: an optional sign, at least one
    decimal digit, and a value that fits [int64]; [None] is the error. *)
Definition ParseInt (s : string) : option Z :=
  match s with
  | EmptyString => None
  | String c s' =>
      let '(neg, ds) :=
        if Ascii.eqb c "+" then (false, s')
        else if Ascii.eqb c "-" then (true, s')
        else (false, s) in
      match ds with
      | EmptyString => None
      | _ =>
          match digits 0 ds with
          | Some n =>
              let v := if neg then - n else n in
              if (minInt64 <=? v) && (v <=? maxInt64) then Some v else None
          | None => None
          end
      end
  end.

(** [strconv.Itoa] on a natural number. *)
Definition Itoa (n : nat) : string := NilEmpty.string_of_uint (Nat.to_uint n).

End strconv.

(* ===================================================================== *)
(** ** The regular expressions of mysqldump.go

    Each function below is the matcher of one fixed pattern, under Go's
    leftmost-first semantics; [.] never matches a newline and [\s] is one
    of tab, newline, form feed, carriage return and space. *)
(* ===================================================================== *)

Module regexp.

Definition isSpace (c : ascii) : bool :=
  let n := nat_of_ascii c in
  Nat.eqb n 9 || Nat.eqb n 10 || Nat.eqb n 12 || Nat.eqb n 13 || Nat.eqb n 32.

Definition isDigit (c : ascii) : bool :=
  let n := nat_of_ascii c in Nat.leb 48 n && Nat.leb n 57.

Definition isWord (c : ascii) : bool :=
  let n := nat_of_ascii c in
  isDigit c || Nat.eqb n 95 || (Nat.leb 65 n && Nat.leb n 90) || (Nat.leb 97 n && Nat.leb n 122).

(** *** [valuesRegexp = \((.*?)\)]

    A match starts at a ["("] and ends at the first [")"] after it, when
    no newline lies in between.  [cur] is the text of the match under
    construction; a newline abandons it, together with every ["("] seen
    since (they are all cut off from a [")"] by the same newline). *)
Fixpoint valuesScan (cur : option string) (s : string) : list string :=
  match s with
  | EmptyString => []
  | String c s' =>
      match cur with
      | None =>
          if Ascii.eqb c "(" then valuesScan (Some "(") s' else valuesScan None s'
      | Some acc =>
          if Ascii.eqb c ")" then (acc ++ ")") :: valuesScan None s'
          else if Ascii.eqb c strings.nl then valuesScan None s'
          else valuesScan (Some (acc ++ String c EmptyString)) s'
      end
  end.

(** [valuesRegexp.FindAllString(s, -1)] *)
Definition valuesFindAllString (s : string) : list string := valuesScan None s.

(** [valuesRegexp.FindString(s)]: the empty string when nothing matches. *)
Definition valuesFindString (s : string) : string :=
  match valuesFindAllString s with
  | m :: _ => m
  | [] => EmptyString
  end.

(** *** [insertRegexp = INSERT\sINTO\s(.*?)\sVALUES\s] *)

(** ["INSERT" \s "INTO" \s] at the head of [s]: the text matched and the rest. *)
Definition insertHead (s : string) : option (string * string) :=
  if strings.HasPrefix s "INSERT" then
    match strings.drop 6 s with
    | String w r =>
        if isSpace w && strings.HasPrefix r "INTO" then
          match strings.drop 4 r with
          | String w' r' =>
              if isSpace w' then Some ("INSERT" ++ String w ("INTO" ++ String w' EmptyString), r')
              else None
          | EmptyString => None
          end
        else None
    | EmptyString => None
    end
  else None.

(** [\s "VALUES" \s] at the head of [s]. *)
Definition valuesTail (s : string) : option (string * string) :=
  match s with
  | String w r =>
      if isSpace w && strings.HasPrefix r "VALUES" then
        match strings.drop 6 r with
        | String w' r' =>
            if isSpace w' then Some (String w ("VALUES" ++ String w' EmptyString), r')
            else None
        | EmptyString => None
        end
      else None
  | EmptyString => None
  end.

(** [(.*?)\sVALUES\s]: the shortest newline-free text followed by the tail. *)
Fixpoint lazyValues (s : string) : option (string * string) :=
  match valuesTail s with
  | Some mr => Some mr
  | None =>
      match s with
      | EmptyString => None
      | String c s' =>
          if Ascii.eqb c strings.nl then None
          else match lazyValues s' with
               | Some (m, r) => Some (String c m, r)
               | None => None
               end
      end
  end.

(** The leftmost match of [insertRegexp] in [s]: its text and what follows it. *)
Fixpoint insertFind (s : string) : option (string * string) :=
  let here :=
    match insertHead s with
    | Some (h, r) =>
        match lazyValues r with
        | Some (m, rest) => Some (h ++ m, rest)
        | None => None
        end
    | None => None
    end in
  match here with
  | Some x => Some x
  | None => match s with
            | EmptyString => None
            | String _ s' => insertFind s'
            end
  end.

(** [insertRegexp.FindString(s)] *)
Definition insertFindString (s : string) : string :=
  match insertFind s with Some (m, _) => m | None => EmptyString end.

(** [insertRegexp.Split(s, 2)[1]]: what follows the first match; the
    index is out of range when there is no match. *)
Definition insertSplitSecond (s : string) : Res string :=
  match insertFind s with
  | Some (_, rest) => Ok rest
  | None => Panic "index out of range"
  end.

(** *** [unsupportedRegexp = function|procedure|trigger] *)
Definition unsupportedMatchString (s : string) : bool :=
  strings.Contains s "function" || strings.Contains s "procedure" || strings.Contains s "trigger".

(** *** The pattern of [readAndParseChunk] for system generated comments,
    [^(\/\*[!0-9\s]*SELECT[^\n]*INTO[\s]+@[^\n]*\*\/;\n)$] *)

Definition commentTail : string := "*/;" ++ String strings.nl EmptyString.

(** [[^\n]*\*\/;\n$] *)
Fixpoint adminRest (s : string) : bool :=
  String.eqb s commentTail ||
  match s with
  | EmptyString => false
  | String c s' => negb (Ascii.eqb c strings.nl) && adminRest s'
  end.

(** [[\s]+@] followed by [adminRest]; [seen] records that one space was read. *)
Fixpoint adminSpaces (seen : bool) (s : string) : bool :=
  match s with
  | EmptyString => false
  | String c s' =>
      if isSpace c then adminSpaces true s'
      else seen && Ascii.eqb c "@" && adminRest s'
  end.

(** [[^\n]*INTO] followed by [adminSpaces] *)
Fixpoint adminInto (s : string) : bool :=
  (strings.HasPrefix s "INTO" && adminSpaces false (strings.drop 4 s)) ||
  match s with
  | EmptyString => false
  | String c s' => negb (Ascii.eqb c strings.nl) && adminInto s'
  end.

(** [[!0-9\s]*SELECT] followed by [adminInto] *)
Fixpoint adminSelect (s : string) : bool :=
  match s with
  | EmptyString => false
  | String c s' =>
      if Ascii.eqb c "!" || isDigit c || isSpace c then adminSelect s'
      else strings.HasPrefix s "SELECT" && adminInto (strings.drop 6 s)
  end.

Definition adminMatch (s : string) : bool :=
  strings.HasPrefix s "/*" && adminSelect (strings.drop 2 s).

(** *** [ReplaceAllString]: [matchAt s] gives, for a match at the head of
    [s], its length and the text that replaces it. *)
Fixpoint ReplaceAll (matchAt : string -> option (nat * string)) (skip : nat) (s : string) : string :=
  match s with
  | EmptyString => EmptyString
  | String c s' =>
      match skip with
      | S k => ReplaceAll matchAt k s'
      | O =>
          match matchAt s with
          | Some (S n, repl) => repl ++ ReplaceAll matchAt n s'
          | _ => String c (ReplaceAll matchAt O s')
          end
      end
  end.

(** Case-insensitive prefix test, [pat] in lower case (ASCII folding). *)
Fixpoint HasPrefixFold (s pat : string) {struct pat} : bool :=
  match pat with
  | EmptyString => true
  | String a p' =>
      match s with
      | EmptyString => false
      | String b s' => Ascii.eqb a (strings.lowerByte b) && HasPrefixFold s' p'
      end
  end.

(** [spatialRegexps[i] = (?i) <type>], replaced by [" text"] *)
Definition spatialAt (spatial : string) (s : string) : option (nat * string) :=
  if HasPrefixFold s (" " ++ spatial) then Some (S (String.length spatial), " text") else None.

(** [spatialIndexRegex = (?i)\sSPATIAL\s], replaced by the empty string *)
Definition spatialIndexAt (s : string) : option (nat * string) :=
  match s with
  | String w r =>
      if isSpace w && HasPrefixFold r "spatial" then
        match strings.drop 7 r with
        | String w' _ => if isSpace w' then Some (9%nat, EmptyString) else None
        | EmptyString => None
        end
      else None
  | EmptyString => None
  end.

Fixpoint countDigits (s : string) : nat :=
  match s with
  | String c s' => if isDigit c then S (countDigits s') else O
  | EmptyString => O
  end.

(** [spatialSridRegex = (?i)\sSRID\s\d*], replaced by the empty string *)
Definition spatialSridAt (s : string) : option (nat * string) :=
  match s with
  | String w r =>
      if isSpace w && HasPrefixFold r "srid" then
        match strings.drop 4 r with
        | String w' r' => if isSpace w' then Some ((6 + countDigits r')%nat, EmptyString) else None
        | EmptyString => None
        end
      else None
  | EmptyString => None
  end.

(** [dbcollationRegex]: an underscore, one or more of [_A-Za-z0-9], then
    a single-quoted text without quotes inside (the first group); each
    match is replaced by that quoted text. *)
Fixpoint quoted (s : string) : option string :=
  match s with
  | EmptyString => None
  | String c s' =>
      if Ascii.eqb c "'" then Some "'"
      else match quoted s' with
           | Some q => Some (String c q)
           | None => None
           end
  end.

Fixpoint wordsThenQuote (seen : bool) (n : nat) (s : string) : option (nat * string) :=
  match s with
  | EmptyString => None
  | String c s' =>
      if isWord c then wordsThenQuote true (S n) s'
      else if seen && Ascii.eqb c "'" then
        match quoted s' with
        | Some q => Some ((n + 1 + String.length q)%nat, String "'" q)
        | None => None
        end
      else None
  end.

Definition dbcollationAt (s : string) : option (nat * string) :=
  match s with
  | String c s' => if Ascii.eqb c "_" then wordsThenQuote false 1 s' else None
  | EmptyString => None
  end.

End regexp.

(* ===================================================================== *)
(** ** The statement trees handed over by the SQL parser

    The parser and its [ast] package are supplied from outside; the types
    below keep the fields that mysqldump.go reads.  A pointer that the code
    tests against [nil] is an [option]. *)
(* ===================================================================== *)

Module ast.

Module TableName.
Record t := mk { Schema : string; Name : string }.
End TableName.

(** [OrigColName()] and [Name.String()] both give the name as written. *)
Module ColumnName.
Record t := mk { Name : string }.
Definition OrigColName (c : t) : string := Name c.
End ColumnName.

Module IndexPartSpecification.
Record t := mk { Column : ColumnName.t; Desc : bool }.
End IndexPartSpecification.

Inductive ReferOptionType :=
| ReferOptionNoOption | ReferOptionRestrict | ReferOptionCascade
| ReferOptionSetNull | ReferOptionNoAction | ReferOptionSetDefault.

Definition ReferOptionType_String (r : ReferOptionType) : string :=
  match r with
  | ReferOptionNoOption => ""
  | ReferOptionRestrict => "RESTRICT"
  | ReferOptionCascade => "CASCADE"
  | ReferOptionSetNull => "SET NULL"
  | ReferOptionNoAction => "NO ACTION"
  | ReferOptionSetDefault => "SET DEFAULT"
  end.

Module ReferenceDef.
Record t := mk {
  Table : TableName.t;
  IndexPartSpecifications : list IndexPartSpecification.t;
  OnDelete : ReferOptionType;
  OnUpdate : ReferOptionType }.
End ReferenceDef.

Inductive ConstraintType :=
| ConstraintNoConstraint | ConstraintPrimaryKey | ConstraintKey | ConstraintIndex
| ConstraintUniq | ConstraintUniqKey | ConstraintUniqIndex | ConstraintForeignKey
| ConstraintFulltext | ConstraintCheck.

(** [Expr] is the check expression as [expressionToString] restores it. *)
Module Constraint.
Record t := mk {
  Tp : ConstraintType;
  Name : string;
  Keys : list IndexPartSpecification.t;
  Refer : option ReferenceDef.t;
  Expr : string }.
End Constraint.

Inductive opcode := Minus | OtherOp.

(** What [GetValue()] of a literal gives: [Text] is its [%v] rendering
    where the code only prints it. *)
Inductive Value :=
| Nil
| Int64 (v : Z)
| MyDecimal (text : string)
| Text (text : string).

Inductive ExprNode :=
| ValueExpr (v : Value)
| UnaryOperationExpr (op : opcode) (V : ExprNode)
| OtherExpr (goType : string).

Inductive ColumnOptionType :=
| ColumnOptionNoOption | ColumnOptionPrimaryKey | ColumnOptionNotNull
| ColumnOptionAutoIncrement | ColumnOptionDefaultValue | ColumnOptionUniqKey
| ColumnOptionNull | ColumnOptionOnUpdate | ColumnOptionFulltext
| ColumnOptionComment | ColumnOptionGenerated | ColumnOptionReference
| ColumnOptionCollate | ColumnOptionCheck.

Module ColumnOption.
Record t := mk {
  Tp : ColumnOptionType;
  Expr : option ExprNode;
  Refer : option ReferenceDef.t }.
End ColumnOption.

(** A field type, through its two methods [String()] and [GetElems()]. *)
Module FieldType.
Record t := mk { String : string; GetElems : list string }.
End FieldType.

Module ColumnDef.
Record t := mk {
  Name : option ColumnName.t;
  Tp : option FieldType.t;
  Options : list ColumnOption.t }.
End ColumnDef.

Module CreateTableStmt.
Record t := mk {
  Table : option TableName.t;
  Cols : list ColumnDef.t;
  Constraints : list Constraint.t }.
End CreateTableStmt.

Inductive AlterTableType :=
| AlterTableAddConstraint | AlterTableModifyColumn | AlterTableOther.

Module AlterTableSpec.
Record t := mk {
  Tp : AlterTableType;
  Constraint : option Constraint.t;
  NewColumns : list ColumnDef.t }.
End AlterTableSpec.

Module AlterTableStmt.
Record t := mk { Table : option TableName.t; Specs : list AlterTableSpec.t }.
End AlterTableStmt.

Module VariableAssignment.
Record t := mk { Name : string; Value : ExprNode }.
End VariableAssignment.

Module SetStmt.
Record t := mk { Variables : list VariableAssignment.t }.
End SetStmt.

Inductive IndexKeyType :=
| IndexKeyTypeNone | IndexKeyTypeUnique | IndexKeyTypeSpatial | IndexKeyTypeFullText.

Module CreateIndexStmt.
Record t := mk {
  IndexName : string;
  Table : option TableName.t;
  IndexPartSpecifications : list IndexPartSpecification.t;
  KeyType : IndexKeyType }.
End CreateIndexStmt.

(** The path [stmt.Table.TableRefs.Left] of an insert, which the code
    expects to be a table source whose [Source] is a table name. *)
Inductive ResultSetNode :=
| SourceTableName (n : TableName.t)
| SourceOther.

Inductive JoinLeft :=
| TableSource (Source : ResultSetNode)
| LeftOther.

Module Join.
Record t := mk { Left : option JoinLeft }.
End Join.

Module TableRefsClause.
Record t := mk { TableRefs : option Join.t }.
End TableRefsClause.

Module InsertStmt.
Record t := mk {
  Table : option TableRefsClause.t;
  Columns : option (list ColumnName.t);
  Lists : option (list (list ExprNode)) }.
End InsertStmt.

Inductive StmtNode :=
| CreateTable (s : CreateTableStmt.t)
| AlterTable (s : AlterTableStmt.t)
| Set_ (s : SetStmt.t)
| Insert (s : InsertStmt.t)
| CreateIndex (s : CreateIndexStmt.t)
| Other (goType : string).

(** [reflect.TypeOf(stmt).String()] *)
Definition TypeOf (n : StmtNode) : string :=
  match n with
  | CreateTable _ => "*ast.CreateTableStmt"
  | AlterTable _ => "*ast.AlterTableStmt"
  | Set_ _ => "*ast.SetStmt"
  | Insert _ => "*ast.InsertStmt"
  | CreateIndex _ => "*ast.CreateIndexStmt"
  | Other ty => ty
  end.

Definition isInsert (n : StmtNode) : bool :=
  match n with Insert _ => true | _ => false end.

End ast.

(* ===================================================================== *)
(** ** The source schema ([schema] package) *)
(* ===================================================================== *)

Module schema.

Module Key.
Record t := mk { ColId : string; Desc : bool; Order : Z }.
End Key.

Module ForeignKey.
Record t := mk {
  Name : string;
  ColumnNames : option (list string);
  ColIds : option (list string);
  ReferTableName : string;
  ReferColumnNames : list string;
  OnDelete : string;
  OnUpdate : string;
  Id : string }.
(** [schema.ForeignKey{}] *)
Definition zero : t := mk "" None None "" [] "" "" "".
End ForeignKey.

Module Index.
Record t := mk { Name : string; Unique : bool; Keys : list Key.t; Id : string }.
End Index.

Module Type_.
Record t := mk { Name : string; Mods : list Z; ArrayBounds : list Z }.
End Type_.

Module Ignored.
Record t := mk { Check : bool; AutoIncrement : bool; Default : bool }.
End Ignored.

Module Column.
Record t := mk {
  Name : string;
  Ty : Type_.t;
  NotNull : bool;
  Ignored : Ignored.t;
  Id : string }.
(** [schema.Column{}] *)
Definition zero : t := mk "" (Type_.mk "" [] []) false (Ignored.mk false false false) "".
Definition setNotNull (c : t) : t := mk (Name c) (Ty c) true (Ignored c) (Id c).
Definition setId (id : string) (c : t) : t := mk (Name c) (Ty c) (NotNull c) (Ignored c) id.
Definition setCheck (c : t) : t :=
  mk (Name c) (Ty c) (NotNull c)
     (Ignored.mk true (Ignored.AutoIncrement (Ignored c)) (Ignored.Default (Ignored c))) (Id c).
Definition setAutoIncrement (c : t) : t :=
  mk (Name c) (Ty c) (NotNull c)
     (Ignored.mk (Ignored.Check (Ignored c)) true (Ignored.Default (Ignored c))) (Id c).
Definition setDefault (c : t) : t :=
  mk (Name c) (Ty c) (NotNull c)
     (Ignored.mk (Ignored.Check (Ignored c)) (Ignored.AutoIncrement (Ignored c)) true) (Id c).
End Column.

Module CheckConstraint.
Record t := mk { Name : string; Expr : string; ExprId : string; Id : string }.
End CheckConstraint.

Module Table.
Record t := mk {
  Id : string;
  Name : string;
  ColIds : list string;
  ColNameIdMap : gmap string string;
  ColDefs : gmap string Column.t;
  PrimaryKeys : list Key.t;
  ForeignKeys : list ForeignKey.t;
  Indexes : list Index.t;
  CheckConstraints : list CheckConstraint.t }.
(** [schema.Table{}], what a lookup of a missing table id gives *)
Definition zero : t := mk "" "" [] ∅ ∅ [] [] [] [].
Definition setPrimaryKeys (v : list Key.t) (x : t) : t :=
  mk (Id x) (Name x) (ColIds x) (ColNameIdMap x) (ColDefs x) v (ForeignKeys x) (Indexes x) (CheckConstraints x).
Definition setForeignKeys (v : list ForeignKey.t) (x : t) : t :=
  mk (Id x) (Name x) (ColIds x) (ColNameIdMap x) (ColDefs x) (PrimaryKeys x) v (Indexes x) (CheckConstraints x).
Definition setIndexes (v : list Index.t) (x : t) : t :=
  mk (Id x) (Name x) (ColIds x) (ColNameIdMap x) (ColDefs x) (PrimaryKeys x) (ForeignKeys x) v (CheckConstraints x).
Definition setColDefs (v : gmap string Column.t) (x : t) : t :=
  mk (Id x) (Name x) (ColIds x) (ColNameIdMap x) v (PrimaryKeys x) (ForeignKeys x) (Indexes x) (CheckConstraints x).
End Table.

End schema.

(* ===================================================================== *)
(** ** The target schema ([spanner/ddl] package) *)
(* ===================================================================== *)

Module ddl.

Module IndexKey.
Record t := mk { ColId : string; Desc : bool; Order : Z }.
End IndexKey.

Module Type_.
Record t := mk { Name : string; Len : Z }.
End Type_.

Module ColumnDef.
Record t := mk { Name : string; T : Type_.t; NotNull : bool }.
End ColumnDef.

Module CreateIndex.
Record t := mk { Name : string; TableId : string; Unique : bool; Keys : list IndexKey.t; Id : string }.
End CreateIndex.

Module Foreignkey.
Record t := mk {
  Name : string;
  ColIds : list string;
  ReferTableId : string;
  ReferColumnIds : list string;
  OnDelete : string;
  OnUpdate : string;
  Id : string }.
End Foreignkey.

Module CreateTable.
Record t := mk {
  Name : string;
  ColIds : list string;
  ColDefs : gmap string ColumnDef.t;
  PrimaryKeys : list IndexKey.t;
  ForeignKeys : list Foreignkey.t;
  Indexes : list CreateIndex.t;
  Id : string }.
Definition zero : t := mk "" [] ∅ [] [] [] "".
End CreateTable.

Definition String : string := "STRING".

End ddl.

(* ===================================================================== *)
(** ** The conversion context and the reader ([internal] package)

    The package is used by mysqldump.go but is not part of the sources at
    hand; the definitions below give it the behaviour the specification
    describes. *)
(* ===================================================================== *)

Module constants.
(** Modelled from the spec: the constant [constants.FK_NO_ACTION], the
    "no action" foreign-key action (section 4.4, step 2). *)
Definition FK_NO_ACTION : string := "NO ACTION".
End constants.

Module internal.

Inductive mode := schemaOnly | dataOnly.

Module statementStat.
Record t := mk { Schema : Z; Data : Z; Skip : Z; Error : Z }.
Definition zero : t := mk 0 0 0 0.
End statementStat.

(** Modelled from the spec: the running statistics of the context
    (section 3: rows seen and skipped, reparse count, unexpected-condition
    log; section 6: per-table row and bad-row counts, statement-kind
    counters). *)
Module stats.
Record t := mk {
  Rows : gmap string Z;
  BadRows : gmap string Z;
  Statement : gmap string statementStat.t;
  Unexpected : gmap string Z;
  Reparsed : Z }.
Definition zero : t := mk ∅ ∅ ∅ ∅ 0.
Definition setRows (v : gmap string Z) (s : t) : t :=
  mk v (BadRows s) (Statement s) (Unexpected s) (Reparsed s).
Definition setBadRows (v : gmap string Z) (s : t) : t :=
  mk (Rows s) v (Statement s) (Unexpected s) (Reparsed s).
Definition setStatement (v : gmap string statementStat.t) (s : t) : t :=
  mk (Rows s) (BadRows s) v (Unexpected s) (Reparsed s).
Definition setUnexpected (v : gmap string Z) (s : t) : t :=
  mk (Rows s) (BadRows s) (Statement s) v (Reparsed s).
Definition setReparsed (v : Z) (s : t) : t :=
  mk (Rows s) (BadRows s) (Statement s) (Unexpected s) v.
End stats.

(** A row handed to the data sink: table, columns, values. *)
Definition Row : Type := string * list string * list string.

(** Modelled from the spec: the conversion context (section 3), with the
    source and target schema maps, the statistics, the mode and what the
    data sink received; [Cntr] is the process-wide counter from which
    the stable ids are drawn. *)
Module Conv.
Record t := mk {
  mode_ : mode;
  SrcSchema : gmap string schema.Table.t;
  SpSchema : gmap string ddl.CreateTable.t;
  Stats : stats.t;
  TimezoneOffset : string;
  Sink : list Row;
  Cntr : nat }.
Definition setMode (v : mode) (c : t) : t :=
  mk v (SrcSchema c) (SpSchema c) (Stats c) (TimezoneOffset c) (Sink c) (Cntr c).
Definition setSrcSchema (v : gmap string schema.Table.t) (c : t) : t :=
  mk (mode_ c) v (SpSchema c) (Stats c) (TimezoneOffset c) (Sink c) (Cntr c).
Definition setSpSchema (v : gmap string ddl.CreateTable.t) (c : t) : t :=
  mk (mode_ c) (SrcSchema c) v (Stats c) (TimezoneOffset c) (Sink c) (Cntr c).
Definition setStats (v : stats.t) (c : t) : t :=
  mk (mode_ c) (SrcSchema c) (SpSchema c) v (TimezoneOffset c) (Sink c) (Cntr c).
Definition setTimezoneOffset (v : string) (c : t) : t :=
  mk (mode_ c) (SrcSchema c) (SpSchema c) (Stats c) v (Sink c) (Cntr c).
Definition setSink (v : list Row) (c : t) : t :=
  mk (mode_ c) (SrcSchema c) (SpSchema c) (Stats c) (TimezoneOffset c) v (Cntr c).
Definition setCntr (v : nat) (c : t) : t :=
  mk (mode_ c) (SrcSchema c) (SpSchema c) (Stats c) (TimezoneOffset c) (Sink c) v.
End Conv.

(** Modelled from the spec: [MakeConv], a fresh context, and the current
    mode of the context, schema-building or data-writing (section 3). *)
Definition MakeConv : Conv.t := Conv.mk schemaOnly ∅ ∅ stats.zero "" [] 0.

Definition SchemaMode (c : Conv.t) : bool :=
  match Conv.mode_ c with schemaOnly => true | dataOnly => false end.
Definition DataMode (c : Conv.t) : bool := negb (SchemaMode c).
Definition SetSchemaMode (c : Conv.t) : Conv.t := Conv.setMode schemaOnly c.

(** [m[k] += d] on a map of counters, a missing entry counting as zero *)
Definition bump (k : string) (d : Z) (m : gmap string Z) : gmap string Z :=
  <[k := default 0 (m !! k) + d]> m.

(** Modelled from the spec: [conv.Unexpected], which logs an unexpected
    condition (section 4.3) in the unexpected-condition log. *)
Definition Unexpected (u : string) (c : Conv.t) : Conv.t :=
  Conv.setStats (stats.setUnexpected (bump u 1 (stats.Unexpected (Conv.Stats c))) (Conv.Stats c)) c.

(** Modelled from the spec: [conv.Unexpecteds], the number of unexpected
    conditions logged. *)
Definition Unexpecteds (c : Conv.t) : Z :=
  map_fold (fun _ n acc => n + acc) 0 (stats.Unexpected (Conv.Stats c)).

Definition statementStatOf (ty : string) (c : Conv.t) : statementStat.t :=
  default statementStat.zero (stats.Statement (Conv.Stats c) !! ty).

Definition setStatementStat (ty : string) (s : statementStat.t) (c : Conv.t) : Conv.t :=
  Conv.setStats (stats.setStatement (<[ty := s]> (stats.Statement (Conv.Stats c))) (Conv.Stats c)) c.

(** Modelled from the spec: the statement-kind counters of the context
    (section 6: skipped and parsed statement-kind counters; section 4.3:
    unrecognized statement kinds are counted as skipped). *)
Definition SkipStatement (ty : string) (c : Conv.t) : Conv.t :=
  let s := statementStatOf ty c in
  setStatementStat ty (statementStat.mk (statementStat.Schema s) (statementStat.Data s)
                                      (statementStat.Skip s + 1) (statementStat.Error s)) c.
Definition SchemaStatement (ty : string) (c : Conv.t) : Conv.t :=
  let s := statementStatOf ty c in
  setStatementStat ty (statementStat.mk (statementStat.Schema s + 1) (statementStat.Data s)
                                      (statementStat.Skip s) (statementStat.Error s)) c.
Definition DataStatement (ty : string) (c : Conv.t) : Conv.t :=
  let s := statementStatOf ty c in
  setStatementStat ty (statementStat.mk (statementStat.Schema s) (statementStat.Data s + 1)
                                      (statementStat.Skip s) (statementStat.Error s)) c.
Definition ErrorInStatement (ty : string) (c : Conv.t) : Conv.t :=
  let s := statementStatOf ty c in
  setStatementStat ty (statementStat.mk (statementStat.Schema s) (statementStat.Data s)
                                      (statementStat.Skip s) (statementStat.Error s + 1)) c.

Definition addRows (table : string) (n : Z) (c : Conv.t) : Conv.t :=
  Conv.setStats (stats.setRows (bump table n (stats.Rows (Conv.Stats c))) (Conv.Stats c)) c.
Definition addBadRows (table : string) (n : Z) (c : Conv.t) : Conv.t :=
  Conv.setStats (stats.setBadRows (bump table n (stats.BadRows (Conv.Stats c))) (Conv.Stats c)) c.
Definition rowsOf (table : string) (c : Conv.t) : Z :=
  default 0 (stats.Rows (Conv.Stats c) !! table).
Definition badRowsOf (table : string) (c : Conv.t) : Z :=
  default 0 (stats.BadRows (Conv.Stats c) !! table).

(** [conv.Stats.Reparsed++], on the reparse count of section 3 *)
Definition reparsed (c : Conv.t) : Conv.t :=
  Conv.setStats (stats.setReparsed (stats.Reparsed (Conv.Stats c) + 1) (Conv.Stats c)) c.

(** Modelled from the spec: [conv.StatsAddBadRow], the bad-row count of
    a table (section 4.5: a bad row is counted). *)
Definition StatsAddBadRow (table : string) (b : bool) (c : Conv.t) : Conv.t :=
  if b then addBadRows table 1 c else c.

(** Modelled from the spec: the id generators [GenerateTableId],
    [GenerateColumnId], ... (section 3: a process-unique stable id at
    creation, never renumbered), a prefix followed by a fresh number. *)
Definition GenerateId (prefix : string) (c : Conv.t) : string * Conv.t :=
  let n := S (Conv.Cntr c) in
  (prefix ++ strconv.Itoa n, Conv.setCntr n c).
Definition GenerateTableId := GenerateId "t".
Definition GenerateColumnId := GenerateId "c".
Definition GenerateForeignkeyId := GenerateId "f".
Definition GenerateIndexesId := GenerateId "i".
Definition GenerateExpressionId := GenerateId "e".
Definition GenerateCheckConstrainstId := GenerateId "cc".

(** Modelled from the spec: [GetSrcTableByName] and
    [GetTableIdFromSrcName], which resolve a table by its name
    (section 4.3); among tables of one name the first in key order. *)
Definition GetSrcTableByName (m : gmap string schema.Table.t) (name : string)
  : option schema.Table.t :=
  snd <$> List.find (fun kv => String.eqb (schema.Table.Name (snd kv)) name) (map_to_list m).
Definition GetTableIdFromSrcName (m : gmap string schema.Table.t) (name : string)
  : option string :=
  fst <$> List.find (fun kv => String.eqb (schema.Table.Name (snd kv)) name) (map_to_list m).

(** Modelled from the spec: [GetColIdFromSrcName], which resolves a
    column name to its id (section 4.5); the empty id when there is none. *)
Definition GetColIdFromSrcName (m : gmap string schema.Column.t) (name : string) : string :=
  match List.find (fun kv => String.eqb (schema.Column.Name (snd kv)) name) (map_to_list m) with
  | Some kv => schema.Column.Id (snd kv)
  | None => ""
  end.

(** Modelled from the spec: [GetSrcColNameIdMap], the name-to-id map of
    a source table. *)
Definition GetSrcColNameIdMap (t : schema.Table.t) : gmap string string :=
  schema.Table.ColNameIdMap t.

(** Modelled from the spec: the statement reader (section 4.1).
    [ReadLine] returns the next line and advances line number and byte
    offset; the end-of-stream flag is raised by the read that finds the
    stream exhausted, which returns what is left after the last newline
    ([last], possibly empty). *)
Module Reader.
Record t := mk {
  pending : list string;
  last : string;
  LineNumber : Z;
  Offset : Z;
  EOF : bool }.
End Reader.

(** Modelled from the spec: a reader at the start of its stream, and
    [ReadLine] (section 4.1). *)
Definition NewReader (pending : list string) (last : string) : Reader.t :=
  Reader.mk pending last 0 0 false.

Definition ReadLine (r : Reader.t) : string * Reader.t :=
  match Reader.pending r with
  | b :: rest =>
      (b, Reader.mk rest (Reader.last r) (Reader.LineNumber r + 1)
                    (Reader.Offset r + Z.of_nat (String.length b)) (Reader.EOF r))
  | [] =>
      (Reader.last r,
       Reader.mk [] "" (Reader.LineNumber r + 1)
                 (Reader.Offset r + Z.of_nat (String.length (Reader.last r))) true)
  end.

End internal.

(** Go's [(value, error)] results. *)
Inductive Errorable (A : Type) : Type :=
| Value (a : A)
| Error (msg : string).
Arguments Value {A} a.
Arguments Error {A} msg.

Module common.

(** Modelled from the spec: [common.IntersectionOfTwoStringSlices],
    the ids of the second list that belong to the first (section 4.5:
    intersect with the target column-id set). *)
Definition IntersectionOfTwoStringSlices (a b : list string) : list string :=
  List.filter (fun v => bool_decide (v ∈ a)) b.

(** Modelled from the spec: [common.PrepareValues], which keeps, for the
    surviving column ids, the value given for that column (section 4.5);
    it fails when columns and values differ in number. *)
Definition PrepareValues (colNameIdMap : gmap string string)
           (commonColIds srcCols values : list string) : Errorable (list string) :=
  if negb (Nat.eqb (List.length srcCols) (List.length values)) then
    Error "PrepareValues: srcCols and vals don't all have the same lengths"
  else
    let mapSrcColIdToVal : gmap string string :=
      fold_left (fun m nv => <[default "" (colNameIdMap !! fst nv) := snd nv]> m)
                (combine srcCols values) ∅ in
    Value (List.map (fun id => default "" (mapSrcColIdToVal !! id)) commonColIds).

End common.

(* ===================================================================== *)
(** ** sources/mysql/mysqldump.go: the source schema builder *)
(* ===================================================================== *)

Module mysql.

Import internal.

(** What mysqldump.go calls outside the sources at hand: the SQL parser
    ([Parse chunk] is [parser.New().Parse(chunk, "", "")], an error
    carrying its message), the resolution of foreign-key ids at the end
    of a pass, the conversion and writing of one data row, the sampling
    of bad rows, and the printing of a negated decimal literal. *)
Record Externals := {
  Parse : string -> Errorable (list ast.StmtNode);
  ResolveForeignKeyIds : gmap string schema.Table.t -> gmap string schema.Table.t;
  ProcessDataRow : Conv.t -> string -> list string -> schema.Table.t -> ddl.CreateTable.t ->
                   list string -> Conv.t;
  CollectBadRow : string -> list string -> list string -> Conv.t -> Conv.t;
  negDecimal : string -> option string }.

Module columnConstraint.
Record t := mk { isPk : bool; isUniqueKey : bool; fk : schema.ForeignKey.t }.
Definition zero : t := mk false false schema.ForeignKey.zero.
End columnConstraint.

(** [NodeType] strips off the "*ast." prefix of the statement type. *)
Definition NodeType (n : ast.StmtNode) : string :=
  strings.TrimPrefix (ast.TypeOf n) "*ast.".

Definition logStmtError (conv : Conv.t) (stmt : ast.StmtNode) (err : string) : Conv.t :=
  ErrorInStatement (NodeType stmt)
    (Unexpected ("Processing " ++ ast.TypeOf stmt ++ " statement: " ++ err) conv).

(** [checkEmpty] generates a warning if [pkeys] is not empty. *)
Definition checkEmpty (conv : Conv.t) (pkeys : list schema.Key.t) (stmtType : string) : Conv.t :=
  if negb (Nat.eqb (List.length pkeys) 0) then
    Unexpected ("Multiple primary keys found. `" ++ stmtType ++
                "` statement is overwriting primary key") conv
  else conv.

Definition getTableName (table : ast.TableName.t) : Errorable string :=
  let l := if negb (String.eqb (ast.TableName.Schema table) "")
           then [ast.TableName.Schema table] else [] in
  if String.eqb (ast.TableName.Name table) "" then
    Error "tablename is empty: can't build table name"
  else Value (strings.Join (l ++ [ast.TableName.Name table]) ".").

(** [toSchemaKeys]: every key that names a known column becomes
    [schema.Key{ColId: colId}]; the other fields keep their zero value. *)
Fixpoint toSchemaKeys (columns : list ast.IndexPartSpecification.t)
         (colNameToIdMap : gmap string string) : list schema.Key.t :=
  match columns with
  | [] => []
  | spec :: rest =>
      let specColName := ast.ColumnName.OrigColName (ast.IndexPartSpecification.Column spec) in
      match colNameToIdMap !! specColName with
      | Some colId => schema.Key.mk colId false 0 :: toSchemaKeys rest colNameToIdMap
      | None => toSchemaKeys rest colNameToIdMap
      end
  end.

(** The loop of [toForeignKeys]: [referColumns[i]] panics past the end. *)
Fixpoint fkNames (columns referColumns : list ast.IndexPartSpecification.t)
  : Res (list string * list string) :=
  match columns with
  | [] => Ok ([], [])
  | column :: cs =>
      match referColumns with
      | [] => Panic "index out of range"
      | r :: rs =>
          '(a, b) ← fkNames cs rs;
          Ok (ast.ColumnName.Name (ast.IndexPartSpecification.Column column) :: a,
              ast.ColumnName.Name (ast.IndexPartSpecification.Column r) :: b)
      end
  end.

(** A slice grown by [append] from [nil] is [nil] when nothing was added. *)
Definition sliceOf (l : list string) : option (list string) :=
  match l with [] => None | _ => Some l end.

Definition toForeignKeys (conv : Conv.t) (fk : ast.Constraint.t)
  : Res (schema.ForeignKey.t * Conv.t) :=
  match ast.Constraint.Refer fk with
  | None => Panic "nil pointer dereference"
  | Some refer =>
      match getTableName (ast.ReferenceDef.Table refer) with
      | Error err => Ok (schema.ForeignKey.zero, Unexpected err conv)
      | Value referTable =>
          '(colNames, referColNames) ←
            fkNames (ast.Constraint.Keys fk) (ast.ReferenceDef.IndexPartSpecifications refer);
          let onDelete := ast.ReferOptionType_String (ast.ReferenceDef.OnDelete refer) in
          let onUpdate := ast.ReferOptionType_String (ast.ReferenceDef.OnUpdate refer) in
          let onDelete := if String.eqb onDelete "" then constants.FK_NO_ACTION else onDelete in
          let onUpdate := if String.eqb onUpdate "" then constants.FK_NO_ACTION else onUpdate in
          let '(id, conv) := GenerateForeignkeyId conv in
          Ok (schema.ForeignKey.mk (ast.Constraint.Name fk) (sliceOf colNames) None
                referTable referColNames onDelete onUpdate id, conv)
      end
  end.

(** [updateCols] writes into the map [colDef]; [isNil] tells that the map
    is the nil map of a zero table, in which a write panics. *)
Fixpoint updateCols (ct : ast.ConstraintType) (colNames : list ast.IndexPartSpecification.t)
         (isNil : bool) (colDef : gmap string schema.Column.t)
         (colNameToIdMap : gmap string string) : Res (gmap string schema.Column.t) :=
  match colNames with
  | [] => Ok colDef
  | column :: rest =>
      let colName := ast.ColumnName.OrigColName (ast.IndexPartSpecification.Column column) in
      let cid := default "" (colNameToIdMap !! colName) in
      let cd := default schema.Column.zero (colDef !! cid) in
      let cd := match ct with
                | ast.ConstraintCheck => schema.Column.setCheck cd
                | ast.ConstraintPrimaryKey => schema.Column.setNotNull cd
                | _ => cd
                end in
      if isNil then Panic "assignment to entry in nil map"
      else updateCols ct rest isNil (<[cid := cd]> colDef) colNameToIdMap
  end.

Definition processConstraint (conv : Conv.t) (tableId : string) (constraint : ast.Constraint.t)
           (stmtType : string) (colNameToIdMap : gmap string string) : Res Conv.t :=
  let isNil := bool_decide (Conv.SrcSchema conv !! tableId = None) in
  let st := default schema.Table.zero (Conv.SrcSchema conv !! tableId) in
  '(st, conv) ←
    match ast.Constraint.Tp constraint with
    | ast.ConstraintPrimaryKey =>
        let conv := checkEmpty conv (schema.Table.PrimaryKeys st) stmtType in
        let st := schema.Table.setPrimaryKeys
                    (toSchemaKeys (ast.Constraint.Keys constraint) colNameToIdMap) st in
        colDefs ← updateCols ast.ConstraintPrimaryKey (ast.Constraint.Keys constraint) isNil
                             (schema.Table.ColDefs st) colNameToIdMap;
        Ok (schema.Table.setColDefs colDefs st, conv)
    | ast.ConstraintForeignKey =>
        '(fkey, conv) ← toForeignKeys conv constraint;
        Ok (schema.Table.setForeignKeys (schema.Table.ForeignKeys st ++ [fkey]) st, conv)
    | ast.ConstraintIndex =>
        let '(idxId, conv) := GenerateIndexesId conv in
        Ok (schema.Table.setIndexes
              (schema.Table.Indexes st ++
                 [schema.Index.mk (ast.Constraint.Name constraint) false
                    (toSchemaKeys (ast.Constraint.Keys constraint) colNameToIdMap) idxId]) st,
            conv)
    | ast.ConstraintUniq =>
        let '(idxId, conv) := GenerateIndexesId conv in
        Ok (schema.Table.setIndexes
              (schema.Table.Indexes st ++
                 [schema.Index.mk (ast.Constraint.Name constraint) true
                    (toSchemaKeys (ast.Constraint.Keys constraint) colNameToIdMap) idxId]) st,
            conv)
    | ct =>
        colDefs ← updateCols ct (ast.Constraint.Keys constraint) isNil
                             (schema.Table.ColDefs st) colNameToIdMap;
        Ok (schema.Table.setColDefs colDefs st, conv)
    end;
  Ok (Conv.setSrcSchema (<[tableId := st]> (Conv.SrcSchema conv)) conv).

(** Modelled from the spec: [checkAndAddParentheses], which parenthesizes
    a check expression if it is not already (section 4.3). *)
Definition checkAndAddParentheses (exp : string) : string :=
  if strings.HasPrefix exp "(" && String.eqb (strings.drop (Nat.pred (String.length exp)) exp) ")"
  then exp else "(" ++ exp ++ ")".

Fixpoint getCheckConstraints (conv : Conv.t) (constraints : list ast.Constraint.t)
  : list schema.CheckConstraint.t * Conv.t :=
  match constraints with
  | [] => ([], conv)
  | constraint :: rest =>
      match ast.Constraint.Tp constraint with
      | ast.ConstraintCheck =>
          let exp := ast.Constraint.Expr constraint in
          let exp := regexp.ReplaceAll regexp.dbcollationAt 0 exp in
          let exp := checkAndAddParentheses exp in
          let '(exprId, conv) := GenerateExpressionId conv in
          let '(id, conv) := GenerateCheckConstrainstId conv in
          let '(l, conv) := getCheckConstraints conv rest in
          (schema.CheckConstraint.mk (ast.Constraint.Name constraint) exp exprId id :: l, conv)
      | _ => getCheckConstraints conv rest
      end
  end.

(** [getTypeModsAndID] returns ID and mods of column datatype. *)
Fixpoint parseMods (strMods : list string) (mods : list Z) : option (list Z) :=
  match strMods with
  | [] => Some mods
  | i :: rest =>
      match strconv.ParseInt i with
      | Some j => parseMods rest (mods ++ [j])
      | None => None
      end
  end.

Definition getTypeModsAndID (conv : Conv.t) (columnType : string)
  : Res (string * list Z * Conv.t) :=
  let trimBinary (id : string) :=
    if strings.Contains id " " then strings.TrimSuffix columnType " BINARY" else id in
  if strings.Contains columnType "(" then
    let id := strings.Before columnType "(" in
    if String.eqb id "set" || String.eqb id "enum" then Ok (id, [], conv)
    else
      let values := regexp.valuesFindString columnType in
      body ← strings.inner values;
      let strMods := strings.Split body "," in
      match parseMods strMods [] with
      | None =>
          Ok (id, [], Unexpected ("Unable to get modifiers for `" ++ id ++ "` datatype.") conv)
      | Some mods => Ok (trimBinary id, mods, conv)
      end
  else Ok (trimBinary columnType, [], conv).

(** [getArrayBounds] calculates the array bound, for the set data type only. *)
Definition getArrayBounds (ft : string) (elem : list string) : list Z :=
  if strings.HasPrefix ft "set" then [Z.of_nat (List.length elem)] else [].

(** One round of the loop of [updateColsByOption], on the column under
    construction, the constraint collected so far and the context. *)
Definition updateColsByOptionStep (colName : string)
           (s : schema.Column.t * columnConstraint.t * Conv.t) (elem : ast.ColumnOption.t)
  : Res (schema.Column.t * columnConstraint.t * Conv.t) :=
  let '(column, cc, conv) := s in
  match ast.ColumnOption.Tp elem with
  | ast.ColumnOptionPrimaryKey =>
      Ok (schema.Column.setNotNull column,
          columnConstraint.mk true (columnConstraint.isUniqueKey cc) (columnConstraint.fk cc), conv)
  | ast.ColumnOptionNotNull => Ok (schema.Column.setNotNull column, cc, conv)
  | ast.ColumnOptionAutoIncrement => Ok (schema.Column.setAutoIncrement column, cc, conv)
  | ast.ColumnOptionDefaultValue =>
      let nullDefault :=
        match ast.ColumnOption.Expr elem with
        | Some (ast.ValueExpr ast.Nil) => true
        | _ => false
        end in
      Ok (if nullDefault then column else schema.Column.setDefault column, cc, conv)
  | ast.ColumnOptionUniqKey =>
      Ok (column, columnConstraint.mk (columnConstraint.isPk cc) true (columnConstraint.fk cc), conv)
  | ast.ColumnOptionCheck => Ok (schema.Column.setCheck column, cc, conv)
  | ast.ColumnOptionReference =>
      match ast.ColumnOption.Refer elem with
      | None => Panic "nil pointer dereference"
      | Some refer =>
          match getTableName (ast.ReferenceDef.Table refer) with
          | Error err => Ok (column, cc, Unexpected err conv)
          | Value referTable =>
              match ast.ReferenceDef.IndexPartSpecifications refer with
              | [] => Panic "index out of range"
              | r :: _ =>
                  let referColumn := ast.ColumnName.Name (ast.IndexPartSpecification.Column r) in
                  let fkey :=
                    schema.ForeignKey.mk "" (Some [colName]) None referTable [referColumn]
                      (ast.ReferOptionType_String (ast.ReferenceDef.OnDelete refer))
                      (ast.ReferOptionType_String (ast.ReferenceDef.OnUpdate refer)) "" in
                  Ok (column,
                      columnConstraint.mk (columnConstraint.isPk cc)
                                          (columnConstraint.isUniqueKey cc) fkey, conv)
              end
          end
      end
  | _ => Ok (column, cc, conv)
  end.

(** [updateColsByOption] updates [column] in place and returns the
    constraints found in the options of the column definition. *)
Definition updateColsByOption (conv : Conv.t) (colName : string) (options : list ast.ColumnOption.t)
           (column : schema.Column.t) : Res (schema.Column.t * columnConstraint.t * Conv.t) :=
  forRange (updateColsByOptionStep colName) options (column, columnConstraint.zero, conv).

(** [processColumn]; the column returned is the one [updateColsByOption]
    has updated through its pointer. *)
Definition processColumn (conv : Conv.t) (col : ast.ColumnDef.t)
  : Res (Errorable (string * schema.Column.t * columnConstraint.t) * Conv.t) :=
  match ast.ColumnDef.Name col with
  | None => Ok (Error "column name is nil", conv)
  | Some colName =>
      let name := ast.ColumnName.OrigColName colName in
      match ast.ColumnDef.Tp col with
      | None =>
          Ok (Error ("can't get column type for " ++ name ++ ": found nil *ast.ColumnDef.Tp"), conv)
      | Some tp =>
          '(tid, mods, conv) ← getTypeModsAndID conv (ast.FieldType.String tp);
          let ty := schema.Type_.mk tid mods
                      (getArrayBounds (ast.FieldType.String tp) (ast.FieldType.GetElems tp)) in
          let column := schema.Column.mk name ty false (schema.Ignored.mk false false false) "" in
          '(column, cc, conv) ←
            updateColsByOption conv (ast.ColumnName.Name colName) (ast.ColumnDef.Options col) column;
          Ok (Value (name, column, cc), conv)
      end
  end.

(** The slices and maps that the column loop of [processCreateTable] fills. *)
Module tableAcc.
Record t := mk {
  colIds : list string;
  colDef : gmap string schema.Column.t;
  colNameIdMap : gmap string string;
  keys : list schema.Key.t;
  fkeys : list schema.ForeignKey.t;
  index : list schema.Index.t }.
Definition empty : t := mk [] ∅ ∅ [] [] [].
End tableAcc.

(** The loop over [stmt.Cols]; an error of [processColumn] ends it. *)
Fixpoint processCols (conv : Conv.t) (cols : list ast.ColumnDef.t) (acc : tableAcc.t)
  : Res (Errorable tableAcc.t * Conv.t) :=
  match cols with
  | [] => Ok (Value acc, conv)
  | element :: rest =>
      '(r, conv) ← processColumn conv element;
      match r with
      | Error err => Ok (Error err, conv)
      | Value (_, col, constraint) =>
          let '(id, conv) := GenerateColumnId conv in
          let col := schema.Column.setId id col in
          let keys := if columnConstraint.isPk constraint
                      then (tableAcc.keys acc ++ [schema.Key.mk id false 0])%list
                      else tableAcc.keys acc in
          let fkeys := match schema.ForeignKey.ColumnNames (columnConstraint.fk constraint) with
                       | Some _ => (tableAcc.fkeys acc ++ [columnConstraint.fk constraint])%list
                       | None => tableAcc.fkeys acc
                       end in
          let '(index, conv) :=
            if columnConstraint.isUniqueKey constraint then
              let '(idxId, conv) := GenerateIndexesId conv in
              ((tableAcc.index acc ++
                  [schema.Index.mk "" true [schema.Key.mk id false 0] idxId])%list, conv)
            else (tableAcc.index acc, conv) in
          processCols conv rest
            (tableAcc.mk (tableAcc.colIds acc ++ [id])
                         (<[id := col]> (tableAcc.colDef acc))
                         (<[schema.Column.Name col := id]> (tableAcc.colNameIdMap acc))
                         keys fkeys index)
      end
  end.

Definition processCreateTable (conv : Conv.t) (stmt : ast.CreateTableStmt.t) : Res Conv.t :=
  let node := ast.CreateTable stmt in
  match ast.CreateTableStmt.Table stmt with
  | None => Ok (logStmtError conv node "table is nil")
  | Some table =>
      let '(tableId, conv) := GenerateTableId conv in
      match getTableName table with
      | Error err => Ok (logStmtError conv node ("can't get table name: " ++ err))
      | Value tableName =>
          let '(checkConstraints, conv) :=
            getCheckConstraints conv (ast.CreateTableStmt.Constraints stmt) in
          '(r, conv) ← processCols conv (ast.CreateTableStmt.Cols stmt) tableAcc.empty;
          match r with
          | Error err => Ok (logStmtError conv node err)
          | Value acc =>
              let conv := SchemaStatement (NodeType node) conv in
              let conv :=
                Conv.setSrcSchema
                  (<[tableId :=
                       schema.Table.mk tableId tableName (tableAcc.colIds acc)
                         (tableAcc.colNameIdMap acc) (tableAcc.colDef acc) (tableAcc.keys acc)
                         (tableAcc.fkeys acc) (tableAcc.index acc) checkConstraints]>
                     (Conv.SrcSchema conv)) conv in
              forRange
                (fun conv constraint =>
                   processConstraint conv tableId constraint "CREATE TABLE"
                     (schema.Table.ColNameIdMap
                        (default schema.Table.zero (Conv.SrcSchema conv !! tableId))))
                (ast.CreateTableStmt.Constraints stmt) conv
          end
      end
  end.

(** [conv.SrcSchema[id] = f(conv.SrcSchema[id])] *)
Definition updTable (id : string) (f : schema.Table.t -> schema.Table.t) (conv : Conv.t) : Conv.t :=
  Conv.setSrcSchema
    (<[id := f (default schema.Table.zero (Conv.SrcSchema conv !! id))]> (Conv.SrcSchema conv)) conv.

(** The loop over [stmt.Specs] of [processAlterTable], for the table
    [tbl] found by name. *)
Fixpoint processSpecs (conv : Conv.t) (node : ast.StmtNode) (tbl : schema.Table.t)
         (specs : list ast.AlterTableSpec.t) : Res Conv.t :=
  match specs with
  | [] => Ok conv
  | item :: rest =>
      match ast.AlterTableSpec.Tp item with
      | ast.AlterTableAddConstraint =>
          match ast.AlterTableSpec.Constraint item with
          | None => Panic "nil pointer dereference"
          | Some constraint =>
              conv ← processConstraint conv (schema.Table.Id tbl) constraint "ALTER TABLE"
                                       (schema.Table.ColNameIdMap tbl);
              processSpecs (SchemaStatement (NodeType node) conv) node tbl rest
          end
      | ast.AlterTableModifyColumn =>
          match ast.AlterTableSpec.NewColumns item with
          | [] => Panic "index out of range"
          | newColumn :: _ =>
              '(r, conv) ← processColumn conv newColumn;
              match r with
              | Error err => Ok (logStmtError conv node err)
              | Value (colname, col, constraint) =>
                  let colId := default "" (schema.Table.ColNameIdMap tbl !! colname) in
                  let col := schema.Column.setId colId col in
                  match Conv.SrcSchema conv !! schema.Table.Id tbl with
                  | None => Panic "assignment to entry in nil map"
                  | Some _ =>
                      let conv :=
                        updTable (schema.Table.Id tbl)
                          (fun t => schema.Table.setColDefs (<[colId := col]> (schema.Table.ColDefs t)) t)
                          conv in
                      let conv :=
                        if columnConstraint.isPk constraint then
                          let ctable := default schema.Table.zero
                                          (Conv.SrcSchema conv !! schema.Table.Id tbl) in
                          let conv := checkEmpty conv (schema.Table.PrimaryKeys ctable) "ALTER TABLE" in
                          updTable (schema.Table.Id tbl)
                            (schema.Table.setPrimaryKeys [schema.Key.mk colId false 0]) conv
                        else conv in
                      let conv :=
                        match schema.ForeignKey.ColIds (columnConstraint.fk constraint) with
                        | Some _ =>
                            updTable (schema.Table.Id tbl)
                              (fun t => schema.Table.setForeignKeys
                                          (schema.Table.ForeignKeys t ++ [columnConstraint.fk constraint]) t)
                              conv
                        | None => conv
                        end in
                      let conv :=
                        if columnConstraint.isUniqueKey constraint then
                          updTable (schema.Table.Id tbl)
                            (fun t => schema.Table.setIndexes
                                        (schema.Table.Indexes t ++
                                           [schema.Index.mk "" true [schema.Key.mk colname false 0] ""]) t)
                            conv
                        else conv in
                      processSpecs (SchemaStatement (NodeType node) conv) node tbl rest
                  end
              end
          end
      | ast.AlterTableOther => processSpecs (SkipStatement (NodeType node) conv) node tbl rest
      end
  end.

Definition processAlterTable (conv : Conv.t) (stmt : ast.AlterTableStmt.t) : Res Conv.t :=
  let node := ast.AlterTable stmt in
  match ast.AlterTableStmt.Table stmt with
  | None => Ok (logStmtError conv node "table is nil")
  | Some table =>
      match getTableName table with
      | Error err => Ok (logStmtError conv node ("can't get table name: " ++ err))
      | Value tableName =>
          match GetSrcTableByName (Conv.SrcSchema conv) tableName with
          | Some tbl => processSpecs conv node tbl (ast.AlterTableStmt.Specs stmt)
          | None => Ok (SkipStatement (NodeType node) conv)
          end
      end
  end.

(** [fmt.Sprintf("%v", v)] for an [int64] *)
Definition Z_String (z : Z) : string :=
  if z <? 0 then "-" ++ strconv.Itoa (Z.abs_nat z) else strconv.Itoa (Z.to_nat z).

(** [fmt.Sprintf("%v", val.GetValue())] *)
Definition Value_String (v : ast.Value) : string :=
  match v with
  | ast.Nil => "<nil>"
  | ast.Int64 z => Z_String z
  | ast.MyDecimal text => text
  | ast.Text text => text
  end.

(** The loop over [stmt.Variables] of [processSetStmt]. *)
Fixpoint processSetVars (conv : Conv.t) (node : ast.StmtNode)
         (variables : list ast.VariableAssignment.t) : Conv.t :=
  match variables with
  | [] => conv
  | variable :: rest =>
      if String.eqb (ast.VariableAssignment.Name variable) "TIME_ZONE" then
        match ast.VariableAssignment.Value variable with
        | ast.ValueExpr ast.Nil =>
            logStmtError conv node "found nil value in 'SET TIME_ZONE' statement"
        | ast.ValueExpr v =>
            processSetVars (Conv.setTimezoneOffset (Value_String v) conv) node rest
        | _ => conv
        end
      else processSetVars conv node rest
  end.

Definition processSetStmt (conv : Conv.t) (stmt : ast.SetStmt.t) : Conv.t :=
  processSetVars conv (ast.Set_ stmt) (ast.SetStmt.Variables stmt).

Definition processCreateIndex (conv : Conv.t) (stmt : ast.CreateIndexStmt.t) : Conv.t :=
  let node := ast.CreateIndex stmt in
  match ast.CreateIndexStmt.Table stmt with
  | None => logStmtError conv node "cannot process index statement with nil table"
  | Some table =>
      match getTableName table with
      | Error err => logStmtError conv node ("can't get table name: " ++ err)
      | Value tableName =>
          match GetSrcTableByName (Conv.SrcSchema conv) tableName with
          | Some tbl =>
              let ctable := default schema.Table.zero (Conv.SrcSchema conv !! schema.Table.Id tbl) in
              let '(id, conv) := GenerateIndexesId conv in
              let idx :=
                schema.Index.mk (ast.CreateIndexStmt.IndexName stmt)
                  (match ast.CreateIndexStmt.KeyType stmt with
                   | ast.IndexKeyTypeUnique => true
                   | _ => false
                   end)
                  (toSchemaKeys (ast.CreateIndexStmt.IndexPartSpecifications stmt)
                                (schema.Table.ColNameIdMap tbl)) id in
              Conv.setSrcSchema
                (<[schema.Table.Id tbl :=
                     schema.Table.setIndexes (schema.Table.Indexes ctable ++ [idx]) ctable]>
                   (Conv.SrcSchema conv)) conv
          | None =>
              SkipStatement (NodeType node)
                (Unexpected ("Table " ++ tableName ++ " not found while processing index statement")
                            conv)
          end
      end
  end.

(* =================================================================== *)
(** ** mysqldump.go: insert statements, statements, chunks and the dump *)
(* =================================================================== *)

Definition getCols (stmt : ast.InsertStmt.t) : Errorable (list string) :=
  match ast.InsertStmt.Columns stmt with
  | None => Error "No columns found in insert statement "
  | Some columns => Value (List.map ast.ColumnName.OrigColName columns)
  end.

Definition getTableNameInsert (stmt : ast.TableRefsClause.t) : Errorable string :=
  match ast.TableRefsClause.TableRefs stmt with
  | None => Error "can't build table name as tablerefs is empty"
  | Some refs =>
      match ast.Join.Left refs with
      | None => Error "can't build table name as Tablerefs.Left is empty"
      | Some (ast.TableSource (ast.SourceTableName tablenode)) => getTableName tablenode
      | Some (ast.TableSource ast.SourceOther) =>
          Error "Can't build table name as table source is of different type"
      | Some ast.LeftOther =>
          Error "stmt.TableRefs.Left is different type, can't build table name"
      end
  end.

(** [-1 * val] on [int64] *)
Definition wrap64 (z : Z) : Z := (z + 2 ^ 63) mod 2 ^ 64 - 2 ^ 63.

Definition dquote : string := String (ascii_of_nat 34) EmptyString.

Section WithExternals.

Variable E : Externals.

Definition getNegativeUnaryVals (v : ast.Value) : Errorable string :=
  match v with
  | ast.Int64 val => Value (Z_String (wrap64 (-1 * val)))
  | ast.MyDecimal text =>
      match negDecimal E text with
      | Some s => Value s
      | None => Error ("unexpected UnaryOperationExpr with value " ++ text)
      end
  | _ => Error "unexpected UnaryOperationExpr value with type"
  end.

Fixpoint getValsLoop (row : list ast.ExprNode) (values : list string) : Errorable (list string) :=
  match row with
  | [] => Value values
  | item :: rest =>
      match item with
      | ast.ValueExpr v => getValsLoop rest (values ++ [Value_String v])
      | ast.UnaryOperationExpr ast.Minus (ast.ValueExpr valExpr) =>
          match getNegativeUnaryVals valExpr with
          | Value value => getValsLoop rest (values ++ [value])
          | Error _ =>
              Error ("unexpected UnaryOperationExpr node with value " ++ Value_String valExpr)
          end
      | ast.UnaryOperationExpr ast.Minus _ =>
          Error "unexpected UnaryOperationExpr node with value type"
      | ast.UnaryOperationExpr _ _ => Error "unexpected UnaryOperationExpr node with opcode"
      | ast.OtherExpr ty => Error ("unexpected value node " ++ ty)
      end
  end.

Definition getVals (row : list ast.ExprNode) : Errorable (list string) :=
  if Nat.eqb (List.length row) 0 then Error "Found row with zero length"
  else getValsLoop row [].

(** The body of the loop over [stmt.Lists] of [processInsertStmt]. *)
Definition insertRow (tableId : string) (colNameIdMap : gmap string string)
           (commonColIds srcCols : list string) (srcSchema : schema.Table.t)
           (spSchema : ddl.CreateTable.t) (conv : Conv.t) (row : list ast.ExprNode) : Conv.t :=
  let got := getVals row in
  let values := match got with Value v => v | Error _ => [] end in
  let err := match got with Value _ => "%!s(<nil>)" | Error e => e end in
  match common.PrepareValues colNameIdMap commonColIds srcCols values with
  | Error _ =>
      let conv := Unexpected ("Error while converting data: " ++ err ++
                              String strings.nl EmptyString) conv in
      let conv := StatsAddBadRow (schema.Table.Name srcSchema) (DataMode conv) conv in
      CollectBadRow E (schema.Table.Name srcSchema) srcCols values conv
  | Value newValues =>
      ProcessDataRow E conv tableId commonColIds srcSchema spSchema newValues
  end.

(** The columns of an insert: their names and their source ids; [None]
    when the statement names no column and the table has none. *)
Definition insertColumns (stmt : ast.InsertStmt.t) (table : schema.Table.t)
  : option (list string * list string) :=
  match getCols stmt with
  | Error _ =>
      let srcColIds := schema.Table.ColIds table in
      let srcCols :=
        List.map (fun srcColId =>
                    schema.Column.Name
                      (default schema.Column.zero (schema.Table.ColDefs table !! srcColId)))
                 srcColIds in
      if Nat.eqb (List.length srcColIds) 0 then None else Some (srcCols, srcColIds)
  | Value srcCols =>
      Some (srcCols, List.map (GetColIdFromSrcName (schema.Table.ColDefs table)) srcCols)
  end.

Definition processInsertStmt (conv : Conv.t) (stmt : ast.InsertStmt.t) : Conv.t :=
  let node := ast.Insert stmt in
  match ast.InsertStmt.Table stmt with
  | None => logStmtError conv node "source table is nil"
  | Some table =>
      match getTableNameInsert table with
      | Error err => logStmtError conv node ("can't get source table name: " ++ err)
      | Value srcTable =>
          let tableId := default "" (GetTableIdFromSrcName (Conv.SrcSchema conv) srcTable) in
          if SchemaMode conv then
            DataStatement (NodeType node)
              (addRows srcTable
                 (Z.of_nat (List.length (default [] (ast.InsertStmt.Lists stmt)))) conv)
          else
            match Conv.SrcSchema conv !! tableId with
            | None =>
                addBadRows srcTable (rowsOf srcTable conv)
                  (Unexpected ("Can't get schemas for table " ++
                               schema.Table.Name schema.Table.zero) conv)
            | Some srcSchema =>
                match insertColumns stmt srcSchema with
                | None =>
                    addBadRows srcTable (rowsOf srcTable conv)
                      (Unexpected ("Can't get columns for table " ++ srcTable) conv)
                | Some (srcCols, srcColIds) =>
                    match ast.InsertStmt.Lists stmt with
                    | None => logStmtError conv node "can't get column values"
                    | Some lists =>
                        let spSchema :=
                          default ddl.CreateTable.zero (Conv.SpSchema conv !! tableId) in
                        let commonColIds :=
                          common.IntersectionOfTwoStringSlices
                            (ddl.CreateTable.ColIds spSchema) srcColIds in
                        let colNameIdMap := GetSrcColNameIdMap srcSchema in
                        fold_left
                          (insertRow tableId colNameIdMap commonColIds srcCols srcSchema spSchema)
                          lists conv
                    end
                end
            end
      end
  end.

(** [processStatement] updates the context with the schema information
    of a statement and returns true if it is an insert statement. *)
Definition processStatement (conv : Conv.t) (stmt : ast.StmtNode) : Res (bool * Conv.t) :=
  match stmt with
  | ast.CreateTable s =>
      conv ← (if SchemaMode conv then processCreateTable conv s else Ok conv);
      Ok (false, conv)
  | ast.AlterTable s =>
      conv ← (if SchemaMode conv then processAlterTable conv s else Ok conv);
      Ok (false, conv)
  | ast.Set_ s => Ok (false, if SchemaMode conv then processSetStmt conv s else conv)
  | ast.Insert s => Ok (true, processInsertStmt conv s)
  | ast.CreateIndex s => Ok (false, if SchemaMode conv then processCreateIndex conv s else conv)
  | ast.Other _ => Ok (false, SkipStatement (NodeType stmt) conv)
  end.

(** The body of the loop over the value tuples of [handleInsertStatement]. *)
Definition insertValueStep (insertStmtPrefix : string) (s : list ast.StmtNode * Conv.t)
           (value : string) : Res (list ast.StmtNode * Conv.t) :=
  let '(stmts, conv) := s in
  let chunk := insertStmtPrefix ++ value ++ ";" in
  match Parse E chunk with
  | Error _ =>
      let conv :=
        if SchemaMode conv then
          Unexpected ("Either unsupported value is encountered or syntax is incorrect for following statement : " ++
                      String strings.nl chunk) conv
        else conv in
      Ok (stmts, SkipStatement "InsertStmt" conv)
  | Value newTree =>
      match newTree with
      | [] => Panic "index out of range"
      | first :: _ => Ok ((stmts ++ [first])%list, conv)
      end
  end.

(** [handleInsertStatement] parses one insert statement per value tuple
    of an insert that failed to parse, skipping the invalid entries. *)
Definition handleInsertStatement (conv : Conv.t) (chunk insertStmtPrefix : string)
  : Res (list ast.StmtNode * bool * Conv.t) :=
  let values := regexp.valuesFindAllString chunk in
  if Nat.eqb (List.length values) 0 then Ok ([], false, conv)
  else
    '(stmts, conv) ← forRange (insertValueStep insertStmtPrefix) values ([], conv);
    Ok (stmts, true, conv).

(** [MysqlSpatialDataTypes] *)
Definition MysqlSpatialDataTypes : list string :=
  ["geometrycollection"; "multipoint"; "multilinestring"; "multipolygon";
   "point"; "linestring"; "polygon"; "geometry"].

Definition handleSpatialDatatype (conv : Conv.t) (chunk : string) : list ast.StmtNode * bool :=
  if negb (SchemaMode conv) then ([], true)
  else
    let chunk :=
      fold_left (fun chunk spatial => regexp.ReplaceAll (regexp.spatialAt spatial) 0 chunk)
                MysqlSpatialDataTypes chunk in
    let chunk := regexp.ReplaceAll regexp.spatialIndexAt 0 chunk in
    let chunk := regexp.ReplaceAll regexp.spatialSridAt 0 chunk in
    match Parse E chunk with
    | Error _ => ([], false)
    | Value newTree => (newTree, true)
    end.

(** [skipUnsupported] skips the stored programs. *)
Definition skipUnsupported (conv : Conv.t) (chunk : string) : bool * Conv.t :=
  let createOrdrop := if strings.Contains chunk "drop" then "Drop" else "Create" in
  if strings.Contains chunk "trigger" then (true, SkipStatement (createOrdrop ++ "TrigStmt") conv)
  else if strings.Contains chunk "procedure" then
         (true, SkipStatement (createOrdrop ++ "ProcedureStmt") conv)
  else if strings.Contains chunk "function" then
         (true, SkipStatement (createOrdrop ++ "FunctionStmt") conv)
  else (false, conv).

(** The loop over the spatial types of [handleParseError]; [n] is [len(l)]. *)
Fixpoint spatialLoop (conv : Conv.t) (chunk errMsg : string) (n : nat) (types : list string)
  : list ast.StmtNode * bool * Conv.t :=
  match types with
  | [] => ([], false, conv)
  | spatial :: rest =>
      if strings.Contains errMsg ("near " ++ dquote ++ spatial) then
        let conv :=
          if SchemaMode conv then
            Unexpected ("Unsupported datatype '" ++ spatial ++
                        "' encountered while parsing following statement at line number " ++
                        strconv.Itoa n ++ " : " ++ String strings.nl chunk) conv
          else conv in
        (handleSpatialDatatype conv chunk, conv)
      else spatialLoop conv chunk errMsg n rest
  end.

(** [handleParseError] attempts at creating a parsable chunk; its second
    result tells whether it did. *)
Definition handleParseError (conv : Conv.t) (chunk err : string) (l : list string)
  : Res (list ast.StmtNode * bool * Conv.t) :=
  let errMsg := strings.ToLower err in
  if regexp.unsupportedMatchString errMsg || strings.Contains errMsg "delimiter" then
    if strings.Count (strings.ToLower chunk) "delimiter" =? 1 then Ok ([], false, conv)
    else let '(ok, conv) := skipUnsupported conv (strings.ToLower chunk) in Ok ([], ok, conv)
  else
    let insertStmtPrefix := regexp.insertFindString chunk in
    if negb (String.eqb insertStmtPrefix "") then
      valuesChunk ← regexp.insertSplitSecond chunk;
      handleInsertStatement conv valuesChunk insertStmtPrefix
    else Ok (spatialLoop conv chunk errMsg (List.length l) MysqlSpatialDataTypes).

(** What one round of the loop of [readAndParseChunk] does: it returns,
    or it goes on with more lines. *)
Inductive chunkStep :=
| Return (result : Errorable (string * list ast.StmtNode)) (conv : Conv.t) (r : Reader.t)
| Again (conv : Conv.t) (r : Reader.t) (l : list string).

Definition parseError (n : nat) : string :=
  "Error parsing last " ++ strconv.Itoa n ++ " line(s) of input".

(** After a failed attempt, or none: fail at the end of the stream. *)
Definition orEOF (conv : Conv.t) (r : Reader.t) (l : list string) : chunkStep :=
  if Reader.EOF r then Return (Error (parseError (List.length l))) conv r
  else Again conv r l.

Definition readStep (conv : Conv.t) (r : Reader.t) (l : list string) : Res chunkStep :=
  let '(b, r) := ReadLine r in
  let l := (l ++ [b])%list in
  if strings.Contains b ";" || Reader.EOF r then
    let chunk := String.concat "" l in
    if regexp.adminMatch chunk then Ok (Return (Value (chunk, [])) conv r)
    else
      match Parse E chunk with
      | Value tree => Ok (Return (Value (chunk, tree)) conv r)
      | Error err =>
          '(newTree, ok, conv) ← handleParseError conv chunk err l;
          if ok : bool then Ok (Return (Value (chunk, newTree)) conv r)
          else Ok (orEOF (reparsed conv) r l)
      end
  else Ok (orEOF conv r l).

(** The loop of [readAndParseChunk], for at most [S fuel] rounds;
    [None] when they do not suffice. *)
Fixpoint readLoop (fuel : nat) (conv : Conv.t) (r : Reader.t) (l : list string)
  : option (Res (Errorable (string * list ast.StmtNode) * Conv.t * Reader.t)) :=
  match readStep conv r l with
  | Panic w => Some (Panic w)
  | Ok (Return result conv r) => Some (Ok (result, conv, r))
  | Ok (Again conv r l) =>
      match fuel with
      | O => None
      | S fuel' => readLoop fuel' conv r l
      end
  end.

(** [readAndParseChunk] parses a chunk of the dump: every round reads
    one line, so the lines left to read bound the number of rounds. *)
Definition readAndParseChunk (conv : Conv.t) (r : Reader.t)
  : option (Res (Errorable (string * list ast.StmtNode) * Conv.t * Reader.t)) :=
  readLoop (List.length (Reader.pending r)) conv r [].

(** The loop over the statements of a chunk in [processMySQLDump]. *)
Definition processStatements (conv : Conv.t) (stmts : list ast.StmtNode) : Res Conv.t :=
  forRange (fun conv stmt => '(_, conv) ← processStatement conv stmt; Ok conv) stmts conv.

(** [processMySQLDump]: [None] is the error-free return, [Some err] the
    error returned. *)
Fixpoint dumpLoop (fuel : nat) (conv : Conv.t) (r : Reader.t)
  : option (Res (option string * Conv.t * Reader.t)) :=
  match readAndParseChunk conv r with
  | None => None
  | Some (Panic w) => Some (Panic w)
  | Some (Ok (Error err, conv, r)) => Some (Ok (Some err, conv, r))
  | Some (Ok (Value (_, stmts), conv, r)) =>
      match processStatements conv stmts with
      | Panic w => Some (Panic w)
      | Ok conv =>
          if Reader.EOF r then
            Some (Ok (None,
                      Conv.setSrcSchema (ResolveForeignKeyIds E (Conv.SrcSchema conv)) conv, r))
          else
            match fuel with
            | O => None
            | S fuel' => dumpLoop fuel' conv r
            end
      end
  end.

Definition processMySQLDump (conv : Conv.t) (r : Reader.t)
  : option (Res (option string * Conv.t * Reader.t)) :=
  dumpLoop (List.length (Reader.pending r)) conv r.

End WithExternals.

End mysql.

(* ===================================================================== *)
(** ** The schema-to-target converter ([sources/common], toddl)

    The converter is exercised by toddl_test.go and infoschema_test.go but
    its code is not part of the sources at hand. *)
(* ===================================================================== *)

Module toddl.

Import internal.

Section Converter.

(** The dialect-specific type mapping, and the foreign-key actions
    that the target supports. *)
Variable ToSpannerType : schema.Type_.t -> ddl.Type_.t.
Variable supportedAction : string -> bool.

(** Modelled from the spec: [cvtPrimaryKeys], the remapping of the
    primary key (section 4.4, step 2; Test_cvtPrimaryKeys). *)
Definition cvtKey (k : schema.Key.t) : ddl.IndexKey.t :=
  ddl.IndexKey.mk (schema.Key.ColId k) (schema.Key.Desc k) (schema.Key.Order k).
Definition cvtPrimaryKeys (srcKeys : list schema.Key.t) : list ddl.IndexKey.t :=
  List.map cvtKey srcKeys.

(** Modelled from the spec: [cvtIndexes], the remapping of the indexes,
    column order and direction preserved (section 4.4, step 2;
    Test_cvtIndexes). *)
Definition cvtIndexes (tableId : string) (srcIndexes : list schema.Index.t)
  : list ddl.CreateIndex.t :=
  List.map (fun i => ddl.CreateIndex.mk (schema.Index.Name i) tableId (schema.Index.Unique i)
                       (List.map cvtKey (schema.Index.Keys i)) (schema.Index.Id i))
           srcIndexes.

(** Modelled from the spec: [cvtForeignKeys], the remapping of the
    foreign keys; an unsupported delete or update action degrades to
    "no action" (section 4.4, step 2; Test_cvtForeignKeys). *)
Definition cvtAction (a : string) : string :=
  if supportedAction a then a else constants.FK_NO_ACTION.
Definition cvtForeignKeys (srcKeys : list schema.ForeignKey.t) : list ddl.Foreignkey.t :=
  List.map (fun k => ddl.Foreignkey.mk (schema.ForeignKey.Name k)
                       (default [] (schema.ForeignKey.ColIds k))
                       (schema.ForeignKey.ReferTableName k)
                       (schema.ForeignKey.ReferColumnNames k)
                       (cvtAction (schema.ForeignKey.OnDelete k))
                       (cvtAction (schema.ForeignKey.OnUpdate k))
                       (schema.ForeignKey.Id k))
           srcKeys.

(** Modelled from the spec: the mapping of the columns of a table to
    target columns (section 4.4, step 1). *)
Definition cvtColumn (c : schema.Column.t) : ddl.ColumnDef.t :=
  ddl.ColumnDef.mk (schema.Column.Name c) (ToSpannerType (schema.Column.Ty c))
                   (schema.Column.NotNull c).

(** Modelled from the spec: the surrogate key column (section 4.4, step 3),
    with the name, type and length that infoschema_test.go expects. *)
Definition synthId : string := "synth_id".
Definition synthColumn : ddl.ColumnDef.t :=
  ddl.ColumnDef.mk synthId (ddl.Type_.mk ddl.String 50) false.

(** Modelled from the spec: the synthesis of a surrogate key, "if no
    primary key exists, synthesize a hidden surrogate column as the
    sole primary key" (section 4.4, step 3). *)
Definition AddPrimaryKey (ct : ddl.CreateTable.t) : ddl.CreateTable.t :=
  if Nat.eqb (List.length (ddl.CreateTable.PrimaryKeys ct)) 0 then
    ddl.CreateTable.mk (ddl.CreateTable.Name ct)
      (ddl.CreateTable.ColIds ct ++ [synthId])
      (<[synthId := synthColumn]> (ddl.CreateTable.ColDefs ct))
      [ddl.IndexKey.mk synthId false 1]
      (ddl.CreateTable.ForeignKeys ct) (ddl.CreateTable.Indexes ct) (ddl.CreateTable.Id ct)
  else ct.

(** Modelled from the spec: the conversion of one source table, a
    single pass through steps 1 to 3 of section 4.4. *)
Definition SchemaToSpannerDDLHelper (srcTable : schema.Table.t) : ddl.CreateTable.t :=
  AddPrimaryKey
    (ddl.CreateTable.mk (schema.Table.Name srcTable)
       (schema.Table.ColIds srcTable)
       (cvtColumn <$> schema.Table.ColDefs srcTable)
       (cvtPrimaryKeys (schema.Table.PrimaryKeys srcTable))
       (cvtForeignKeys (schema.Table.ForeignKeys srcTable))
       (cvtIndexes (schema.Table.Id srcTable) (schema.Table.Indexes srcTable))
       (schema.Table.Id srcTable)).

(** Modelled from the spec: the converter, which creates the target
    entities once, from the frozen source schema (section 3). *)
Definition SchemaToSpannerDDL (conv : Conv.t) : Conv.t :=
  Conv.setSpSchema (SchemaToSpannerDDLHelper <$> Conv.SrcSchema conv) conv.

End Converter.

End toddl.

(* ===================================================================== *)
(** ** The batched writer ([spanner/writer]) and import_data/utils.go

    utils.go configures the writer; the writer itself is not part of the
    sources at hand. *)
(* ===================================================================== *)

Module writer.

Import internal.

(** The limits that utils.go sets in [writer.BatchWriterConfig]. *)
Module BatchWriterConfig.
Record t := mk { BytesLimit : Z; WriteLimit : Z; RetryLimit : nat }.
End BatchWriterConfig.

(** Modelled from the spec: the writer (section 3, Batch), with the
    in-flight batch and its two counters, the batches the target store has
    applied, and the number of write calls made. *)
Module BatchWriter.
Record t := mk {
  config : BatchWriterConfig.t;
  batch : list Row;
  bytes : Z;
  count : Z;
  applied : list (list Row);
  calls : nat }.
End BatchWriter.


Section Writer.

(** The serialized size of a row, and the outcome of the write calls:
    [Write n m] tells whether call number [n], with the mutations [m],
    succeeds. *)
Variable byteSize : Row -> Z.
Variable Write : nat -> list Row -> bool.




End Writer.

End writer.

Module import_data.

Import internal.

(** The limits of [getBatchWriterWithConfig]. *)
Definition config : writer.BatchWriterConfig.t :=
  writer.BatchWriterConfig.mk (100 * 1000 * 1000) 2000 1000.


End import_data.

(* ===================================================================== *)
(** ** A small instance of the external parts, for concrete runs *)
(* ===================================================================== *)

Module demo.

Import internal.

Definition tableT : ast.TableRefsClause.t :=
  ast.TableRefsClause.mk
    (Some (ast.Join.mk (Some (ast.TableSource (ast.SourceTableName (ast.TableName.mk "" "t")))))).

(** The literals of a value tuple, split at the commas. *)
Definition tupleRow (value : string) : list ast.ExprNode :=
  match strings.inner value with
  | Ok body => List.map (fun v => ast.ValueExpr (ast.Text v)) (strings.Split body ",")
  | Panic _ => []
  end.

(** A parser that knows one statement form, [INSERT INTO t VALUES] followed
    by value tuples, and that rejects every chunk mentioning [bad_token].
    The empty chunk has no statement. *)
Definition Parse (chunk : string) : Errorable (list ast.StmtNode) :=
  if String.eqb chunk "" then Value []
  else if strings.Contains chunk "bad_token" then Error "syntax error near bad_token"
  else if strings.HasPrefix chunk "INSERT INTO t VALUES " then
    Value [ast.Insert
             (ast.InsertStmt.mk (Some tableT) None
                (Some (List.map tupleRow (regexp.valuesFindAllString (strings.drop 21 chunk)))))]
  else Error "syntax error".

(** The data row handed to the sink as it is, under the table id. *)
Definition ProcessDataRow (conv : Conv.t) (tableId : string) (colIds : list string)
           (_ : schema.Table.t) (_ : ddl.CreateTable.t) (vals : list string) : Conv.t :=
  Conv.setSink (Conv.Sink conv ++ [(tableId, colIds, vals)]) conv.

Definition E : mysql.Externals :=
  mysql.Build_Externals Parse (fun m => m) ProcessDataRow (fun _ _ _ conv => conv) (fun _ => None).

Definition line (s : string) : string := s ++ String strings.nl EmptyString.

(** The dump of the scenario of section 8: one insert of two tuples, the
    second of which does not parse. *)
Definition badTokenDump : Reader.t :=
  NewReader [line "INSERT INTO t VALUES (1,'a'),(bad_token,'b');"] "".

(** A parser like [Parse], except that what it rejects is a chunk in
    which a value is missing between two commas. *)
Definition ParseStrict (chunk : string) : Errorable (list ast.StmtNode) :=
  if String.eqb chunk "" then Value []
  else if strings.Contains chunk ",," then Error "syntax error near ,,"
  else if strings.HasPrefix chunk "INSERT INTO t VALUES " then
    Value [ast.Insert
             (ast.InsertStmt.mk (Some tableT) None
                (Some (List.map tupleRow (regexp.valuesFindAllString (strings.drop 21 chunk)))))]
  else Error "syntax error".

Definition EStrict : mysql.Externals :=
  mysql.Build_Externals ParseStrict (fun m => m) ProcessDataRow (fun _ _ _ conv => conv)
                        (fun _ => None).

(** One insert of two tuples, the second of which is not well formed:
    its second value is missing. *)
Definition missingValueDump : Reader.t :=
  NewReader [line "INSERT INTO t VALUES (1,2,3),(4,,6);"] "".

(** A source table [t] (id [t1]) with the columns [a], [b] and [c] and
    the primary key [a]; in the target table the column [b] was dropped. *)
Definition column (name ty id : string) (notNull : bool) : schema.Column.t :=
  schema.Column.mk name (schema.Type_.mk ty [] []) notNull (schema.Ignored.mk false false false) id.

Definition tableT1 : schema.Table.t :=
  schema.Table.mk "t1" "t" ["c2"; "c3"; "c4"]
    (list_to_map [("a", "c2"); ("b", "c3"); ("c", "c4")])
    (list_to_map [("c2", column "a" "int" "c2" true); ("c3", column "b" "varchar" "c3" false);
                  ("c4", column "c" "bigint" "c4" false)])
    [schema.Key.mk "c2" false 0] [] [] [].

Definition spT1 : ddl.CreateTable.t :=
  ddl.CreateTable.mk "t" ["c2"; "c4"]
    (list_to_map [("c2", ddl.ColumnDef.mk "a" (ddl.Type_.mk "INT64" 0) true);
                  ("c4", ddl.ColumnDef.mk "c" (ddl.Type_.mk "INT64" 0) false)])
    [ddl.IndexKey.mk "c2" false 1] [] [] "t1".

Definition convSchema : Conv.t :=
  Conv.mk schemaOnly (list_to_map [("t1", tableT1)]) ∅ stats.zero "" [] 4.

Definition convData : Conv.t :=
  Conv.mk dataOnly (list_to_map [("t1", tableT1)]) (list_to_map [("t1", spT1)]) stats.zero "" [] 4.

Definition key (name : string) (desc : bool) : ast.IndexPartSpecification.t :=
  ast.IndexPartSpecification.mk (ast.ColumnName.mk name) desc.

(** [PRIMARY KEY (b)] at table level *)
Definition primaryKeyB : ast.Constraint.t :=
  ast.Constraint.mk ast.ConstraintPrimaryKey "" [key "b" false] None "".

(** [CREATE INDEX idx ON t (b DESC, a)] *)
Definition createIndexDesc : ast.CreateIndexStmt.t :=
  ast.CreateIndexStmt.mk "idx" (Some (ast.TableName.mk "" "t")) [key "b" true; key "a" false]
                         ast.IndexKeyTypeNone.

(** [CONSTRAINT fk1 FOREIGN KEY (a) REFERENCES u (x)], without actions,
    and the same constraint with an empty name for the referenced table. *)
Definition foreignKeyTo (referTable : string) : ast.Constraint.t :=
  ast.Constraint.mk ast.ConstraintForeignKey "fk1" [key "a" false]
    (Some (ast.ReferenceDef.mk (ast.TableName.mk "" referTable) [key "x" false]
                               ast.ReferOptionNoOption ast.ReferOptionNoOption)) "".

(** The column option [REFERENCES u (x)], without actions. *)
Definition referencesU : ast.ColumnOption.t :=
  ast.ColumnOption.mk ast.ColumnOptionReference None
    (Some (ast.ReferenceDef.mk (ast.TableName.mk "" "u") [key "x" false]
                               ast.ReferOptionNoOption ast.ReferOptionNoOption)).

(** A source table without primary key, as in TestProcessData_MultiCol. *)
Definition tableTest : schema.Table.t :=
  schema.Table.mk "test" "test" ["a"; "b"; "c"]
    (list_to_map [("a", "a"); ("b", "b"); ("c", "c")])
    (list_to_map [("a", column "a" "text" "a" true); ("b", column "b" "double" "b" false);
                  ("c", column "c" "bigint" "c" false)])
    [] [] [] [].

Definition convTest : Conv.t :=
  Conv.mk schemaOnly (list_to_map [("test", tableTest)]) ∅ stats.zero "" [] 0.

Definition ToSpannerType (ty : schema.Type_.t) : ddl.Type_.t :=
  if String.eqb (schema.Type_.Name ty) "text" then ddl.Type_.mk "STRING" 2621440
  else if String.eqb (schema.Type_.Name ty) "double" then ddl.Type_.mk "FLOAT64" 0
  else ddl.Type_.mk "INT64" 0.

Definition supportedAction (a : string) : bool :=
  String.eqb a "NO ACTION" || String.eqb a "CASCADE".


(** [CREATE TABLE u (a INT PRIMARY KEY, b VARCHAR(10) NOT NULL, PRIMARY KEY (b))] *)
Definition createTableTwoKeys : ast.CreateTableStmt.t :=
  ast.CreateTableStmt.mk (Some (ast.TableName.mk "" "u"))
    [ast.ColumnDef.mk (Some (ast.ColumnName.mk "a")) (Some (ast.FieldType.mk "int(11)" []))
       [ast.ColumnOption.mk ast.ColumnOptionPrimaryKey None None];
     ast.ColumnDef.mk (Some (ast.ColumnName.mk "b")) (Some (ast.FieldType.mk "varchar(10)" []))
       [ast.ColumnOption.mk ast.ColumnOptionNotNull None None]]
    [primaryKeyB].

(** [INSERT INTO t VALUES (1,2,3)], as [Parse] reads it: no column list. *)
Definition insert123 : ast.InsertStmt.t :=
  ast.InsertStmt.mk (Some tableT) None
                    (Some [[ast.ValueExpr (ast.Text "1"); ast.ValueExpr (ast.Text "2");
                            ast.ValueExpr (ast.Text "3")]]).

End demo.

(* ===================================================================== *)
(** ** Vocabulary of the statements below *)
(* ===================================================================== *)

Module spec.

Section WithExternals.

Variable E : mysql.Externals.

(** The single-row insert made of a value tuple. *)
Definition tupleChunk (insertStmtPrefix value : string) : string :=
  insertStmtPrefix ++ value ++ ";".

(** The tuple does not parse. *)
Definition tupleFails (insertStmtPrefix value : string) : bool :=
  match mysql.Parse E (tupleChunk insertStmtPrefix value) with
  | Error _ => true
  | Value _ => false
  end.

(** The statement of a tuple that parses. *)
Definition tupleStmt (insertStmtPrefix value : string) : option ast.StmtNode :=
  match mysql.Parse E (tupleChunk insertStmtPrefix value) with
  | Value (first :: _) => Some first
  | _ => None
  end.

End WithExternals.

(** The source column ids of an insert: those of the columns it lists,
    or else the declared column order of the table. *)
Definition insertColIds (stmt : ast.InsertStmt.t) (table : schema.Table.t) : list string :=
  match ast.InsertStmt.Columns stmt with
  | Some columns =>
      List.map (fun c => internal.GetColIdFromSrcName (schema.Table.ColDefs table)
                                                      (ast.ColumnName.OrigColName c)) columns
  | None => schema.Table.ColIds table
  end.

(** The names of these columns. *)
Definition insertColNames (stmt : ast.InsertStmt.t) (table : schema.Table.t) : list string :=
  match ast.InsertStmt.Columns stmt with
  | Some columns => List.map ast.ColumnName.OrigColName columns
  | None =>
      List.map (fun id => schema.Column.Name
                            (default schema.Column.zero (schema.Table.ColDefs table !! id)))
               (schema.Table.ColIds table)
  end.

(** The ids among [srcColIds] that the target table has. *)
Definition surviving (spSchema : ddl.CreateTable.t) (srcColIds : list string) : list string :=
  List.filter (fun id => bool_decide (id ∈ ddl.CreateTable.ColIds spSchema)) srcColIds.

(** An action of a table-level foreign key: the one written, or
    NO ACTION when none is. *)
Definition defaulted (r : ast.ReferOptionType) : string :=
  match r with
  | ast.ReferOptionNoOption => constants.FK_NO_ACTION
  | _ => ast.ReferOptionType_String r
  end.

(** What the repair of an insert leaves alone in the context, and what
    it adds to the count of skipped insert statements. *)
Definition repaired (k : nat) (conv conv' : internal.Conv.t) : Prop :=
  internal.statementStat.Skip (internal.statementStatOf "InsertStmt" conv')
  = internal.statementStat.Skip (internal.statementStatOf "InsertStmt" conv) + Z.of_nat k
  /\ internal.stats.Rows (internal.Conv.Stats conv') = internal.stats.Rows (internal.Conv.Stats conv)
  /\ internal.stats.BadRows (internal.Conv.Stats conv')
     = internal.stats.BadRows (internal.Conv.Stats conv)
  /\ internal.Conv.SrcSchema conv' = internal.Conv.SrcSchema conv
  /\ internal.Conv.mode_ conv' = internal.Conv.mode_ conv.

(** The statement is an insert of a single row into the table
    [srcTable]. *)
Definition rowInto (srcTable : string) (stmt : ast.StmtNode) : Prop :=
  exists (s : ast.InsertStmt.t) (table : ast.TableRefsClause.t) (row : list ast.ExprNode),
    stmt = ast.Insert s
    /\ ast.InsertStmt.Table s = Some table
    /\ mysql.getTableNameInsert table = Value srcTable
    /\ ast.InsertStmt.Lists s = Some [row].

End spec.

(* ===================================================================== *)
(** ** Vocabulary of the further properties *)
(* ===================================================================== *)

Module more.

(** [n] calls of [ReadLine] in a row: the lines read and the reader left. *)
Fixpoint readLines (n : nat) (r : internal.Reader.t) : list string * internal.Reader.t :=
  match n with
  | O => ([], r)
  | S n' =>
      let '(b, r1) := internal.ReadLine r in
      let '(bs, r2) := readLines n' r1 in
      (b :: bs, r2)
  end.


(** How [getVals] renders an expression of a row: a literal by its value, a
    negated literal through [getNegativeUnaryVals]; nothing else is rendered. *)
Definition rendered (E : mysql.Externals) (e : ast.ExprNode) (v : string) : Prop :=
  match e with
  | ast.ValueExpr val => v = mysql.Value_String val
  | ast.UnaryOperationExpr ast.Minus (ast.ValueExpr val) =>
      mysql.getNegativeUnaryVals E val = Value v
  | _ => False
  end.

(** The name of the column of an index part. *)
Definition partName (spec : ast.IndexPartSpecification.t) : string :=
  ast.ColumnName.Name (ast.IndexPartSpecification.Column spec).


(** The column ids that [updateCols] writes: for each part the id of its
    column, the empty id when the table does not know the column. *)
Definition keyIds (names : list ast.IndexPartSpecification.t) (m : gmap string string)
  : list string :=
  List.map (fun spec => default "" (m !! partName spec)) names.

(** What [updateCols] does to a column definition, by constraint type. *)
Definition updated (ct : ast.ConstraintType) (cd : schema.Column.t) : schema.Column.t :=
  match ct with
  | ast.ConstraintCheck => schema.Column.setCheck cd
  | ast.ConstraintPrimaryKey => schema.Column.setNotNull cd
  | _ => cd
  end.

(** The kinds of column options. *)
Definition optPrimaryKey (o : ast.ColumnOption.t) : bool :=
  match ast.ColumnOption.Tp o with ast.ColumnOptionPrimaryKey => true | _ => false end.
Definition optNotNull (o : ast.ColumnOption.t) : bool :=
  match ast.ColumnOption.Tp o with ast.ColumnOptionNotNull => true | _ => false end.
Definition optUniqKey (o : ast.ColumnOption.t) : bool :=
  match ast.ColumnOption.Tp o with ast.ColumnOptionUniqKey => true | _ => false end.
Definition optAutoIncrement (o : ast.ColumnOption.t) : bool :=
  match ast.ColumnOption.Tp o with ast.ColumnOptionAutoIncrement => true | _ => false end.
Definition optCheck (o : ast.ColumnOption.t) : bool :=
  match ast.ColumnOption.Tp o with ast.ColumnOptionCheck => true | _ => false end.


Definition optDefault (o : ast.ColumnOption.t) : bool :=
  match ast.ColumnOption.Tp o with
  | ast.ColumnOptionDefaultValue =>
      match ast.ColumnOption.Expr o with
      | Some (ast.ValueExpr ast.Nil) => false
      | _ => true
      end
  | _ => false
  end.
Definition optReference (o : ast.ColumnOption.t) : bool :=
  match ast.ColumnOption.Tp o with ast.ColumnOptionReference => true | _ => false end.

(** Two contexts that differ at most in their log of unexpected
    conditions. *)
Definition logOnly (c c' : internal.Conv.t) : Prop :=
  c' = internal.Conv.setStats
         (internal.stats.setUnexpected (internal.stats.Unexpected (internal.Conv.Stats c'))
                                       (internal.Conv.Stats c)) c.

(** Two contexts that differ at most in their log of unexpected
    conditions and in the id counter, which has not gone back. *)
Definition quiet (c c' : internal.Conv.t) : Prop :=
  c' = internal.Conv.setCntr (internal.Conv.Cntr c')
         (internal.Conv.setStats
            (internal.stats.setUnexpected (internal.stats.Unexpected (internal.Conv.Stats c'))
                                          (internal.Conv.Stats c)) c)
  /\ (internal.Conv.Cntr c <= internal.Conv.Cntr c')%nat.

(** A column definition without a name or without a type. *)
Definition malformed (col : ast.ColumnDef.t) : bool :=
  match ast.ColumnDef.Name col, ast.ColumnDef.Tp col with
  | Some _, Some _ => false
  | _, _ => true
  end.


(** What the column loop of [processCreateTable] keeps true of the slices
    and maps it fills, [bound] being the id counter: the column ids are
    distinct ids of columns drawn so far, the definitions are those of
    the column ids, each under its own id, the names resolve to
    definitions of that name, and the keys are columns of the table. *)
Definition colsInv (bound : nat) (acc : mysql.tableAcc.t) : Prop :=
  Forall (fun id => exists n, id = "c" ++ strconv.Itoa n /\ (n <= bound)%nat)
         (mysql.tableAcc.colIds acc)
  /\ NoDup (mysql.tableAcc.colIds acc)
  /\ (forall id cd, mysql.tableAcc.colDef acc !! id = Some cd ->
                    id ∈ mysql.tableAcc.colIds acc /\ schema.Column.Id cd = id)
  /\ (forall id, id ∈ mysql.tableAcc.colIds acc -> is_Some (mysql.tableAcc.colDef acc !! id))
  /\ (forall name id, mysql.tableAcc.colNameIdMap acc !! name = Some id ->
                      exists cd, mysql.tableAcc.colDef acc !! id = Some cd
                                 /\ schema.Column.Name cd = name)
  /\ Forall (fun k => schema.Key.ColId k ∈ mysql.tableAcc.colIds acc) (mysql.tableAcc.keys acc).

(** A table whose parts agree: distinct column ids, each with a
    definition under that id; names that resolve to column ids whose
    definition has that name; primary key columns among the column ids. *)
Definition wellFormed (tbl : schema.Table.t) : Prop :=
  NoDup (schema.Table.ColIds tbl)
  /\ (forall id, id ∈ schema.Table.ColIds tbl ->
                 exists cd, schema.Table.ColDefs tbl !! id = Some cd /\ schema.Column.Id cd = id)
  /\ (forall name id, schema.Table.ColNameIdMap tbl !! name = Some id ->
                      id ∈ schema.Table.ColIds tbl
                      /\ exists cd, schema.Table.ColDefs tbl !! id = Some cd
                                    /\ schema.Column.Name cd = name)
  /\ Forall (fun k => schema.Key.ColId k ∈ schema.Table.ColIds tbl) (schema.Table.PrimaryKeys tbl).

(** The column [id] of the table is the one that [col] defines: it has
    the name of [col], and the table resolves that name. *)
Definition definedBy (tbl : schema.Table.t) (id : string) (col : ast.ColumnDef.t) : Prop :=
  exists cd colName,
    schema.Table.ColDefs tbl !! id = Some cd
    /\ ast.ColumnDef.Name col = Some colName
    /\ schema.Column.Name cd = ast.ColumnName.OrigColName colName
    /\ is_Some (schema.Table.ColNameIdMap tbl !! ast.ColumnName.OrigColName colName).

(** Two contexts that differ at most in their source schema, in their log
    of unexpected conditions and in the id counter, which has not gone
    back. *)
Definition quietSchema (c c' : internal.Conv.t) : Prop :=
  quiet c (internal.Conv.setSrcSchema (internal.Conv.SrcSchema c) c').

(** A table-level CHECK constraint. *)
Definition isCheck (c : ast.Constraint.t) : bool :=
  match ast.Constraint.Tp c with ast.ConstraintCheck => true | _ => false end.

(** The ways in which a CREATE TABLE statement is refused. *)
Definition refused (stmt : ast.CreateTableStmt.t) : Prop :=
  match ast.CreateTableStmt.Table stmt with
  | None => True
  | Some table =>
      match mysql.getTableName table with
      | Error _ => True
      | Value _ => existsb malformed (ast.CreateTableStmt.Cols stmt) = true
      end
  end.

(** [CREATE TABLE v (a INT, b)], with a second column that has no type. *)
Definition createTableNoType : ast.CreateTableStmt.t :=
  ast.CreateTableStmt.mk (Some (ast.TableName.mk "" "v"))
    [ast.ColumnDef.mk (Some (ast.ColumnName.mk "a")) (Some (ast.FieldType.mk "int(11)" [])) [];
     ast.ColumnDef.mk (Some (ast.ColumnName.mk "b")) None []]
    [].


(** Every table of the schema is filed under its own id. *)
Definition wellKeyed (m : gmap string schema.Table.t) : Prop :=
  forall k t, m !! k = Some t -> schema.Table.Id t = k.

(** Two contexts that differ at most in their source schema, in their
    statement counters, in their log of unexpected conditions and in the
    id counter, which has not gone back. *)
Definition schemaPass (c c' : internal.Conv.t) : Prop :=
  c' = internal.Conv.mk (internal.Conv.mode_ c) (internal.Conv.SrcSchema c')
         (internal.Conv.SpSchema c)
         (internal.stats.mk (internal.stats.Rows (internal.Conv.Stats c))
                            (internal.stats.BadRows (internal.Conv.Stats c))
                            (internal.stats.Statement (internal.Conv.Stats c'))
                            (internal.stats.Unexpected (internal.Conv.Stats c'))
                            (internal.stats.Reparsed (internal.Conv.Stats c)))
         (internal.Conv.TimezoneOffset c) (internal.Conv.Sink c) (internal.Conv.Cntr c')
  /\ (internal.Conv.Cntr c <= internal.Conv.Cntr c')%nat.

(** What no statement changes in a table once it is created: its id, its
    name, its column ids, its name-to-id map and its check constraints. *)
Definition sameColumns (t t' : schema.Table.t) : Prop :=
  schema.Table.Id t' = schema.Table.Id t
  /\ schema.Table.Name t' = schema.Table.Name t
  /\ schema.Table.ColIds t' = schema.Table.ColIds t
  /\ schema.Table.ColNameIdMap t' = schema.Table.ColNameIdMap t
  /\ schema.Table.CheckConstraints t' = schema.Table.CheckConstraints t.

(** An item of ALTER TABLE that adds a constraint. *)
Definition addsConstraint (item : ast.AlterTableSpec.t) : bool :=
  match ast.AlterTableSpec.Tp item with ast.AlterTableAddConstraint => true | _ => false end.

(** The step from [c] to [c'] rewrites the table filed under [id], which
    exists, keeps its columns and, unless [fkToo], its foreign keys, and
    leaves the other tables alone. *)
Definition alters (id : string) (fkToo : bool) (c c' : internal.Conv.t) : Prop :=
  exists st st',
    internal.Conv.SrcSchema c !! id = Some st
    /\ internal.Conv.SrcSchema c' = <[id := st']> (internal.Conv.SrcSchema c)
    /\ sameColumns st st'
    /\ (fkToo = false -> schema.Table.ForeignKeys st' = schema.Table.ForeignKeys st)
    /\ schemaPass c c'.

(** The same tables under the same keys, each with its columns and,
    unless [fkToo], its foreign keys. *)
Definition sameTables (fkToo : bool) (m m' : gmap string schema.Table.t) : Prop :=
  forall k,
    option_Forall2
      (fun t t' => sameColumns t t'
                   /\ (fkToo = false -> schema.Table.ForeignKeys t' = schema.Table.ForeignKeys t))
      (m !! k) (m' !! k).

(** The tables of the context are filed under their own ids, and these
    are table ids drawn from the counter so far. *)
Definition filed (c : internal.Conv.t) : Prop :=
  forall k t,
    internal.Conv.SrcSchema c !! k = Some t ->
    schema.Table.Id t = k
    /\ exists n, k = ("t" ++ strconv.Itoa n)%string /\ (n <= internal.Conv.Cntr c)%nat.

(** From [c] to [c'] the source schema has only grown: every table is
    still there under its key, with its columns; and mode, target schema
    and data sink are those of [c]. *)
Definition grows (c c' : internal.Conv.t) : Prop :=
  internal.Conv.mode_ c' = internal.Conv.mode_ c
  /\ internal.Conv.SpSchema c' = internal.Conv.SpSchema c
  /\ internal.Conv.Sink c' = internal.Conv.Sink c
  /\ (internal.Conv.Cntr c <= internal.Conv.Cntr c')%nat
  /\ forall k t,
       internal.Conv.SrcSchema c !! k = Some t ->
       exists t', internal.Conv.SrcSchema c' !! k = Some t' /\ sameColumns t t'.

(** [ALTER TABLE t MODIFY COLUMN a INT REFERENCES u (x)] *)
Definition alterModifyReferences : ast.AlterTableStmt.t :=
  ast.AlterTableStmt.mk (Some (ast.TableName.mk "" "t"))
    [ast.AlterTableSpec.mk ast.AlterTableModifyColumn None
       [ast.ColumnDef.mk (Some (ast.ColumnName.mk "a")) (Some (ast.FieldType.mk "int(11)" []))
          [ast.ColumnOption.mk ast.ColumnOptionReference None
             (Some (ast.ReferenceDef.mk (ast.TableName.mk "" "u")
                      [ast.IndexPartSpecification.mk (ast.ColumnName.mk "x") false]
                      ast.ReferOptionNoOption ast.ReferOptionNoOption))]]].


(** Two contexts that differ at most in their statement counters, in
    their log of unexpected conditions and in their reparse count. *)
Definition countsOnly (c c' : internal.Conv.t) : Prop :=
  c' = internal.Conv.setStats
         (internal.stats.mk (internal.stats.Rows (internal.Conv.Stats c))
                            (internal.stats.BadRows (internal.Conv.Stats c))
                            (internal.stats.Statement (internal.Conv.Stats c'))
                            (internal.stats.Unexpected (internal.Conv.Stats c'))
                            (internal.stats.Reparsed (internal.Conv.Stats c')))
         c.


(** A variable of a SET statement named [TIME_ZONE], and an expression
    that is a literal. *)
Definition isTimeZone (v : ast.VariableAssignment.t) : bool :=
  String.eqb (ast.VariableAssignment.Name v) "TIME_ZONE".
Definition isLiteral (e : ast.ExprNode) : bool :=
  match e with ast.ValueExpr _ => true | _ => false end.

End more.

(* ===================================================================== *)
(** * Properties *)
(* ===================================================================== *)

(** ** Strings *)

Section StringFacts.

Lemma append_nil (t : string) : (EmptyString ++ t)%string = t.
Proof. reflexivity. Qed.

Lemma append_cons (a : ascii) (s t : string) : (String a s ++ t)%string = String a (s ++ t).
Proof. reflexivity. Qed.

Lemma append_assoc' (a b c : string) : ((a ++ b) ++ c = a ++ (b ++ c))%string.
Proof.
  induction a as [|x a IH]; [reflexivity|].
  rewrite !append_cons. now rewrite IH.
Qed.

Lemma HasPrefix_single (c a : ascii) (s : string) :
  strings.HasPrefix (String a s) (String c EmptyString) = Ascii.eqb c a.
Proof.
  change (strings.HasPrefix (String a s) (String c EmptyString)) with (Ascii.eqb c a && true).
  apply andb_true_r.
Qed.

Lemma Contains_single_cons (c a : ascii) (s : string) :
  strings.Contains (String a s) (String c EmptyString)
  = Ascii.eqb c a || strings.Contains s (String c EmptyString).
Proof.
  change (strings.Contains (String a s) (String c EmptyString))
    with (strings.HasPrefix (String a s) (String c EmptyString)
          || strings.Contains s (String c EmptyString)).
  now rewrite HasPrefix_single.
Qed.

Lemma Contains_single_app (c : ascii) (s t : string) :
  strings.Contains (s ++ String c t) (String c EmptyString) = true.
Proof.
  induction s as [|a s IH].
  - rewrite append_nil, Contains_single_cons, Ascii.eqb_refl. reflexivity.
  - rewrite append_cons, Contains_single_cons, IH. apply orb_true_r.
Qed.

Lemma Before_app (c : ascii) (s t : string) :
  strings.Contains s (String c EmptyString) = false ->
  strings.Before (s ++ String c t) c = s.
Proof.
  induction s as [|a s IH]; intros H.
  - rewrite append_nil. simpl. now rewrite Ascii.eqb_refl.
  - rewrite Contains_single_cons in H. apply orb_false_elim in H as [Ha Hs].
    rewrite append_cons. simpl. rewrite Ascii.eqb_sym, Ha. f_equal. now apply IH.
Qed.

Lemma dropLast_app (s : string) (c : ascii) :
  strings.dropLast (s ++ String c EmptyString) = s.
Proof.
  induction s as [|a s IH]; [reflexivity|].
  rewrite append_cons.
  destruct s as [|b s]; [reflexivity|].
  rewrite append_cons in *.
  change (strings.dropLast (String a (String b (s ++ String c EmptyString))))
    with (String a (strings.dropLast (String b (s ++ String c EmptyString)))).
  now rewrite IH.
Qed.

Lemma inner_parens (body : string) :
  strings.inner (String "(" (body ++ ")")) = Ok body.
Proof.
  destruct body as [|a body]; [reflexivity|].
  rewrite append_cons. unfold strings.inner. f_equal.
  rewrite <- append_cons. apply dropLast_app.
Qed.

(** Outside a match, a text without ["("] is skipped by [valuesRegexp]. *)
Lemma valuesScan_skip (s t : string) :
  strings.Contains s "(" = false ->
  regexp.valuesScan None (s ++ t) = regexp.valuesScan None t.
Proof.
  induction s as [|a s IH]; intros H; [reflexivity|].
  rewrite Contains_single_cons in H. apply orb_false_elim in H as [Ha Hs].
  rewrite append_cons. simpl. rewrite Ascii.eqb_sym, Ha. now apply IH.
Qed.

(** Inside a match, a text without [")"] and without newline is taken
    up to the next [")"]. *)
Lemma valuesScan_body (body : string) : forall (acc rest : string),
  strings.Contains body ")" = false ->
  strings.Contains body (String strings.nl EmptyString) = false ->
  regexp.valuesScan (Some acc) (body ++ String ")" rest)
  = (acc ++ body ++ ")")%string :: regexp.valuesScan None rest.
Proof.
  induction body as [|a body IH]; intros acc rest Hp Hn.
  - reflexivity.
  - rewrite Contains_single_cons in Hp, Hn.
    apply orb_false_elim in Hp as [Hp1 Hp2]. apply orb_false_elim in Hn as [Hn1 Hn2].
    rewrite append_cons. simpl.
    rewrite (Ascii.eqb_sym a ")"), Hp1, (Ascii.eqb_sym a strings.nl), Hn1.
    rewrite IH by assumption. f_equal.
    rewrite append_assoc'. now rewrite !append_cons, append_nil.
Qed.

Lemma valuesFindString_first (id body rest : string) :
  strings.Contains id "(" = false ->
  strings.Contains body ")" = false ->
  strings.Contains body (String strings.nl EmptyString) = false ->
  regexp.valuesFindString (id ++ String "(" (body ++ String ")" rest))
  = String "(" (body ++ ")").
Proof.
  intros Hi Hp Hn. unfold regexp.valuesFindString, regexp.valuesFindAllString.
  rewrite valuesScan_skip by assumption.
  simpl. rewrite valuesScan_body by assumption. reflexivity.
Qed.

End StringFacts.

(** ** The matchers on the texts of mysqldump.go *)

Example valuesRegexp_tuples :
  regexp.valuesFindAllString "(1,'a'),(bad_token,'b');" = ["(1,'a')"; "(bad_token,'b')"].
Proof. reflexivity. Qed.

Example valuesRegexp_newline :
  regexp.valuesFindAllString ("(1," ++ String strings.nl "2),(3)") = ["(3)"].
Proof. reflexivity. Qed.

Example insertRegexp_prefix :
  regexp.insertFind "INSERT INTO t (a, b) VALUES (1,2),(3,4);"
  = Some ("INSERT INTO t (a, b) VALUES ", "(1,2),(3,4);").
Proof. reflexivity. Qed.

Example adminMatch_comment :
  regexp.adminMatch
    (demo.line "/*!50717 SELECT COUNT(*) INTO @rocksdb_has_p_s_session_variables FROM INFORMATION_SCHEMA.TABLES */;")
  = true.
Proof. reflexivity. Qed.

Example spatial_rewrite :
  regexp.ReplaceAll regexp.spatialSridAt 0
    (regexp.ReplaceAll (regexp.spatialAt "point") 0
       "CREATE TABLE t (a POINT, b point SRID 4326 NOT NULL)")
  = "CREATE TABLE t (a text, b text NOT NULL)".
Proof. reflexivity. Qed.

Example dbcollation_rewrite :
  regexp.ReplaceAll regexp.dbcollationAt 0 "(`a` = _utf8mb4'x y')" = "(`a` = 'x y')".
Proof. reflexivity. Qed.

Example Count_delimiter : strings.Count "delimiter ;; x delimiter" "delimiter" = 2.
Proof. reflexivity. Qed.

Example TrimSuffix_binary : strings.TrimSuffix "mediumblob BINARY" " BINARY" = "mediumblob".
Proof. reflexivity. Qed.

Example ParseInt_range :
  strconv.ParseInt "-42" = Some (-42) /\ strconv.ParseInt "9223372036854775808" = None
  /\ strconv.ParseInt "" = None /\ strconv.ParseInt "4a" = None.
Proof. repeat split. Qed.

(** ** C8: type id and modifiers of a declared column type *)

Section TypeMods.

Lemma parseMods_app (strMods : list string) : forall (acc mods : list Z),
  Forall2 (fun s z => strconv.ParseInt s = Some z) strMods mods ->
  mysql.parseMods strMods acc = Some (acc ++ mods)%list.
Proof.
  induction strMods as [|s strMods IH]; intros acc mods H; inversion H; subst; simpl.
  - now rewrite app_nil_r.
  - match goal with Hp : strconv.ParseInt s = Some _ |- _ => rewrite Hp end.
    rewrite (IH _ _ ltac:(eassumption)). now rewrite <- app_assoc.
Qed.

(** C8, first part: a type text [id(body)rest] whose id has no space and
    is neither [set] nor [enum], and whose parenthesized part is a
    comma-separated list of integers, yields the id and these integers;
    the context is untouched. *)
Lemma getTypeModsAndID_parenthesized (conv : internal.Conv.t) (id body rest : string)
      (mods : list Z) :
  strings.Contains id "(" = false ->
  strings.Contains id " " = false ->
  id <> "set" -> id <> "enum" ->
  strings.Contains body ")" = false ->
  strings.Contains body (String strings.nl EmptyString) = false ->
  Forall2 (fun s z => strconv.ParseInt s = Some z) (strings.Split body ",") mods ->
  mysql.getTypeModsAndID conv (id ++ String "(" (body ++ String ")" rest)) = Ok (id, mods, conv).
Proof.
  intros Hid Hsp Hset Henum Hp Hn Hmods.
  unfold mysql.getTypeModsAndID.
  rewrite Contains_single_app, Before_app by assumption.
  apply String.eqb_neq in Hset, Henum. rewrite Hset, Henum. simpl orb. cbv iota.
  rewrite valuesFindString_first by assumption.
  rewrite inner_parens. simpl mbind. unfold res_bind.
  rewrite (parseMods_app _ [] mods Hmods). simpl app.
  now rewrite Hsp.
Qed.

(** C8, second part: for [set] and [enum] the parenthesized part is not
    read as modifiers. *)
Lemma getTypeModsAndID_members (conv : internal.Conv.t) (id rest : string) :
  id = "set" \/ id = "enum" ->
  mysql.getTypeModsAndID conv (id ++ String "(" rest) = Ok (id, [], conv).
Proof.
  intros H. unfold mysql.getTypeModsAndID.
  rewrite Contains_single_app, Before_app by (destruct H; subst; reflexivity).
  destruct H; subst; reflexivity.
Qed.

End TypeMods.

(** C8. For a declared column type whose text has a parenthesized part,
    [getTypeModsAndID] returns the text before the parenthesis as the type
    id and the parenthesized integers as modifiers; for [set] and [enum]
    the modifier list is empty, and for [set] the number of members is the
    array bound (for [enum] there is none).  The type text is what the
    parser prints: an id without space, then the parenthesized part. *)
Theorem getTypeModsAndID_spec (conv : internal.Conv.t) (id body rest : string)
        (mods : list Z) (elems : list string) :
  strings.Contains id "(" = false ->
  strings.Contains id " " = false ->
  strings.Contains body ")" = false ->
  strings.Contains body (String strings.nl EmptyString) = false ->
  Forall2 (fun s z => strconv.ParseInt s = Some z) (strings.Split body ",") mods ->
  let columnType := (id ++ String "(" (body ++ String ")" rest))%string in
  (id <> "set" -> id <> "enum" -> mysql.getTypeModsAndID conv columnType = Ok (id, mods, conv))
  /\ (forall members : string,
        mysql.getTypeModsAndID conv ("set" ++ String "(" members) = Ok ("set", [], conv)
        /\ mysql.getTypeModsAndID conv ("enum" ++ String "(" members) = Ok ("enum", [], conv)
        /\ mysql.getArrayBounds ("set" ++ String "(" members) elems = [Z.of_nat (List.length elems)]
        /\ mysql.getArrayBounds ("enum" ++ String "(" members) elems = []).
Proof.
  intros Hid Hsp Hp Hn Hmods columnType. split.
  - intros Hset Henum. now apply getTypeModsAndID_parenthesized.
  - intros members.
    split; [apply getTypeModsAndID_members; now left|].
    split; [apply getTypeModsAndID_members; now right|].
    split; reflexivity.
Qed.

Lemma getTypeModsAndID_spec_witness :
  mysql.getTypeModsAndID internal.MakeConv "decimal(10,2) UNSIGNED"
  = Ok ("decimal", [10; 2], internal.MakeConv).
Proof.
  refine (proj1 (getTypeModsAndID_spec internal.MakeConv "decimal" "10,2" " UNSIGNED" [10; 2] []
                   _ _ _ _ _) _ _).
  - reflexivity.
  - reflexivity.
  - reflexivity.
  - reflexivity.
  - repeat constructor.
  - discriminate.
  - discriminate.
Defined.

(** ** The context operations *)

Section ConvFacts.

Import internal.

Lemma Unexpected_count (u : string) (c : Conv.t) :
  stats.Unexpected (Conv.Stats (Unexpected u c)) !! u
  = Some (default 0 (stats.Unexpected (Conv.Stats c) !! u) + 1).
Proof. unfold Unexpected, bump. simpl. apply lookup_insert_eq. Qed.

Lemma Unexpected_frame (u : string) (c : Conv.t) :
  Conv.SrcSchema (Unexpected u c) = Conv.SrcSchema c
  /\ Conv.SpSchema (Unexpected u c) = Conv.SpSchema c
  /\ Conv.mode_ (Unexpected u c) = Conv.mode_ c
  /\ stats.Statement (Conv.Stats (Unexpected u c)) = stats.Statement (Conv.Stats c)
  /\ stats.Rows (Conv.Stats (Unexpected u c)) = stats.Rows (Conv.Stats c)
  /\ stats.BadRows (Conv.Stats (Unexpected u c)) = stats.BadRows (Conv.Stats c).
Proof. repeat split. Qed.

Lemma SkipStatement_frame (ty : string) (c : Conv.t) :
  Conv.SrcSchema (SkipStatement ty c) = Conv.SrcSchema c
  /\ Conv.SpSchema (SkipStatement ty c) = Conv.SpSchema c
  /\ Conv.mode_ (SkipStatement ty c) = Conv.mode_ c
  /\ stats.Unexpected (Conv.Stats (SkipStatement ty c)) = stats.Unexpected (Conv.Stats c)
  /\ stats.Rows (Conv.Stats (SkipStatement ty c)) = stats.Rows (Conv.Stats c)
  /\ stats.BadRows (Conv.Stats (SkipStatement ty c)) = stats.BadRows (Conv.Stats c).
Proof. repeat split. Qed.

Lemma SkipStatement_count (ty : string) (c : Conv.t) :
  statementStat.Skip (statementStatOf ty (SkipStatement ty c))
  = statementStat.Skip (statementStatOf ty c) + 1.
Proof.
  unfold SkipStatement, setStatementStat, statementStatOf at 1. simpl.
  now rewrite lookup_insert_eq.
Qed.

Lemma Unexpected_statementStatOf (u ty : string) (c : Conv.t) :
  statementStatOf ty (Unexpected u c) = statementStatOf ty c.
Proof. reflexivity. Qed.

End ConvFacts.

(** ** Keys and constraints *)

Section Keys.

Import internal.

(** [updateCols] does not panic on the map of an existing table. *)
Lemma updateCols_ok (ct : ast.ConstraintType) (colNames : list ast.IndexPartSpecification.t)
      (m : gmap string string) :
  forall colDef : gmap string schema.Column.t,
  exists colDef', mysql.updateCols ct colNames false colDef m = Ok colDef'.
Proof.
  induction colNames as [|column rest IH]; intros colDef; simpl.
  - now exists colDef.
  - apply IH.
Qed.

(** Every key made by [toSchemaKeys] is ascending, whatever the
    direction of the index part it comes from. *)
Lemma toSchemaKeys_ascending (columns : list ast.IndexPartSpecification.t)
      (m : gmap string string) :
  Forall (fun k => schema.Key.Desc k = false) (mysql.toSchemaKeys columns m).
Proof.
  induction columns as [|spec rest IH]; simpl; [constructor|].
  destruct (m !! _); [constructor; [reflexivity | exact IH] | exact IH].
Qed.

(** [toSchemaKeys] keeps the order of the columns it knows. *)
Lemma toSchemaKeys_order (columns : list ast.IndexPartSpecification.t)
      (m : gmap string string) :
  List.map schema.Key.ColId (mysql.toSchemaKeys columns m)
  = omap (fun spec => m !! ast.ColumnName.OrigColName (ast.IndexPartSpecification.Column spec))
         columns.
Proof.
  induction columns as [|spec rest IH]; simpl; [reflexivity|].
  destruct (m !! _); simpl; now rewrite IH.
Qed.

End Keys.

(** C5. Processing a table-level PRIMARY KEY constraint for a table that
    already has primary-key columns replaces them by the keys of the
    constraint, logs the warning as an unexpected condition, and raises no
    error: the call returns, no statement error is counted, and no other
    table changes. *)
Theorem processConstraint_primary_key_overwrites
        (conv : internal.Conv.t) (tableId : string) (constraint : ast.Constraint.t)
        (stmtType : string) (colNameToIdMap : gmap string string) (st : schema.Table.t) :
  internal.Conv.SrcSchema conv !! tableId = Some st ->
  ast.Constraint.Tp constraint = ast.ConstraintPrimaryKey ->
  schema.Table.PrimaryKeys st <> [] ->
  let warning := ("Multiple primary keys found. `" ++ stmtType ++
                  "` statement is overwriting primary key")%string in
  exists conv' st',
    mysql.processConstraint conv tableId constraint stmtType colNameToIdMap = Ok conv'
    /\ internal.Conv.SrcSchema conv' !! tableId = Some st'
    /\ schema.Table.PrimaryKeys st'
       = mysql.toSchemaKeys (ast.Constraint.Keys constraint) colNameToIdMap
    /\ internal.stats.Unexpected (internal.Conv.Stats conv') !! warning
       = Some (default 0 (internal.stats.Unexpected (internal.Conv.Stats conv) !! warning) + 1)
    /\ internal.stats.Statement (internal.Conv.Stats conv')
       = internal.stats.Statement (internal.Conv.Stats conv)
    /\ (forall id, id <> tableId ->
          internal.Conv.SrcSchema conv' !! id = internal.Conv.SrcSchema conv !! id).
Proof.
  intros Hst Htp Hpk warning.
  unfold mysql.processConstraint. rewrite Hst, Htp. simpl default.
  rewrite bool_decide_eq_false_2 by discriminate.
  destruct (updateCols_ok ast.ConstraintPrimaryKey (ast.Constraint.Keys constraint) colNameToIdMap
              (schema.Table.ColDefs
                 (schema.Table.setPrimaryKeys
                    (mysql.toSchemaKeys (ast.Constraint.Keys constraint) colNameToIdMap) st)))
    as [colDefs Hcols].
  rewrite Hcols. simpl.
  eexists _, _. split; [reflexivity|].
  split; [apply lookup_insert_eq|].
  split; [reflexivity|].
  unfold mysql.checkEmpty.
  destruct (schema.Table.PrimaryKeys st) as [|k ks]; [congruence|]. simpl.
  split; [exact (Unexpected_count warning conv)|].
  split; [reflexivity|].
  intros id Hid. now apply lookup_insert_ne.
Qed.

Lemma processConstraint_primary_key_overwrites_witness :
  exists conv' st',
    mysql.processConstraint demo.convSchema "t1" demo.primaryKeyB "CREATE TABLE"
                            (schema.Table.ColNameIdMap demo.tableT1) = Ok conv'
    /\ internal.Conv.SrcSchema conv' !! "t1" = Some st'
    /\ schema.Table.PrimaryKeys st' = [schema.Key.mk "c3" false 0]
    /\ internal.Unexpecteds conv' = 1.
Proof.
  destruct (processConstraint_primary_key_overwrites demo.convSchema "t1" demo.primaryKeyB
              "CREATE TABLE" (schema.Table.ColNameIdMap demo.tableT1) demo.tableT1)
    as (conv' & st' & Hrun & Hst & Hpk & _).
  - vm_compute. reflexivity.
  - reflexivity.
  - discriminate.
  - exists conv', st'. split; [exact Hrun|]. split; [exact Hst|]. split.
    + rewrite Hpk. vm_compute. reflexivity.
    + assert (Hc : Ok conv' = mysql.processConstraint demo.convSchema "t1" demo.primaryKeyB
                                "CREATE TABLE" (schema.Table.ColNameIdMap demo.tableT1))
        by (symmetry; exact Hrun).
      vm_compute in Hc. injection Hc as ->. vm_compute. reflexivity.
Defined.

(** The primary key of a column and the one of the table in one CREATE
    TABLE: the second wins, with one warning and without statement error. *)
Example processCreateTable_two_primary_keys :
  exists conv st,
    mysql.processCreateTable internal.MakeConv demo.createTableTwoKeys = Ok conv
    /\ internal.Conv.SrcSchema conv !! "t1" = Some st
    /\ schema.Table.ColIds st = ["c2"; "c3"]
    /\ schema.Table.PrimaryKeys st = [schema.Key.mk "c3" false 0]
    /\ internal.Unexpecteds conv = 1
    /\ internal.statementStatOf "CreateTableStmt" conv = internal.statementStat.mk 1 0 0 0.
Proof.
  eexists _, _. split; [vm_compute; reflexivity|]. split; [vm_compute; reflexivity|].
  repeat split.
Qed.

(** C6, at a failing input: [CREATE INDEX idx ON t (b DESC, a)] gives the
    source table an index whose keys are in the order written, [b] then
    [a], but both ascending: the direction of [b] is lost. *)
Theorem processCreateIndex_drops_direction :
  schema.Table.Indexes
    <$> (internal.Conv.SrcSchema (mysql.processCreateIndex demo.convSchema demo.createIndexDesc)
           !! "t1")
  = Some [schema.Index.mk "idx" false
            [schema.Key.mk "c3" false 0; schema.Key.mk "c2" false 0] "i5"].
Proof. vm_compute. reflexivity. Qed.

(** The same index through the converter: the target index is ascending too. *)
Lemma cvtIndexes_after_processCreateIndex :
  (fun t => toddl.cvtIndexes (schema.Table.Id t) (schema.Table.Indexes t))
    <$> (internal.Conv.SrcSchema (mysql.processCreateIndex demo.convSchema demo.createIndexDesc)
           !! "t1")
  = Some [ddl.CreateIndex.mk "idx" "t1" false
            [ddl.IndexKey.mk "c3" false 0; ddl.IndexKey.mk "c2" false 0] "i5"].
Proof. vm_compute. reflexivity. Qed.

(** A type text with a space before its parenthesis, which the parser never
    prints, would keep the whole text as its id. *)
Example getTypeModsAndID_space_before_parenthesis :
  mysql.getTypeModsAndID internal.MakeConv "double precision(8,2)"
  = Ok ("double precision(8,2)", [8; 2], internal.MakeConv).
Proof. reflexivity. Qed.

Example getTypeModsAndID_binary_suffix :
  mysql.getTypeModsAndID internal.MakeConv "mediumblob BINARY" = Ok ("mediumblob", [], internal.MakeConv).
Proof. reflexivity. Qed.

(** ** C9: the actions of foreign keys *)

Section ForeignKeys.

Import internal.

Lemma fkNames_ok (cs : list ast.IndexPartSpecification.t) :
  forall rs : list ast.IndexPartSpecification.t,
  (List.length cs <= List.length rs)%nat ->
  exists a b, mysql.fkNames cs rs = Ok (a, b).
Proof.
  induction cs as [|c cs IH]; intros rs Hlen; simpl.
  - now exists [], [].
  - destruct rs as [|r rs]; simpl in Hlen; [lia|].
    destruct (IH rs ltac:(lia)) as (a & b & ->). simpl. eauto.
Qed.

Lemma ReferOptionType_String_empty (r : ast.ReferOptionType) :
  ast.ReferOptionType_String r = "" <-> r = ast.ReferOptionNoOption.
Proof. destruct r; simpl; split; congruence. Qed.

Lemma defaulted_nonempty (r : ast.ReferOptionType) : spec.defaulted r <> "".
Proof. destruct r; discriminate. Qed.

Lemma toForeignKeys_built (conv : Conv.t) (fk : ast.Constraint.t) (refer : ast.ReferenceDef.t)
      (referTable : string) :
  ast.Constraint.Refer fk = Some refer ->
  mysql.getTableName (ast.ReferenceDef.Table refer) = Value referTable ->
  (List.length (ast.Constraint.Keys fk)
   <= List.length (ast.ReferenceDef.IndexPartSpecifications refer))%nat ->
  exists fkey conv',
    mysql.toForeignKeys conv fk = Ok (fkey, conv')
    /\ schema.ForeignKey.OnDelete fkey = spec.defaulted (ast.ReferenceDef.OnDelete refer)
    /\ schema.ForeignKey.OnUpdate fkey = spec.defaulted (ast.ReferenceDef.OnUpdate refer)
    /\ schema.ForeignKey.ReferTableName fkey = referTable.
Proof.
  intros Hrefer Hname Hlen. unfold mysql.toForeignKeys. rewrite Hrefer, Hname.
  destruct (fkNames_ok _ _ Hlen) as (a & b & ->). simpl.
  eexists _, _. split; [reflexivity|]. simpl.
  split; [|split]; [ destruct (ast.ReferenceDef.OnDelete refer); reflexivity
                   | destruct (ast.ReferenceDef.OnUpdate refer); reflexivity
                   | reflexivity ].
Qed.

End ForeignKeys.

(** C9, at a failing input: a table-level FOREIGN KEY constraint whose
    referenced table has an empty name adds to the table a foreign key
    whose two actions are empty. *)
Lemma toForeignKeys_empty_name_counterexample :
  exists conv' st' fkey,
    mysql.processConstraint demo.convSchema "t1" (demo.foreignKeyTo "") "CREATE TABLE"
                            (schema.Table.ColNameIdMap demo.tableT1) = Ok conv'
    /\ internal.Conv.SrcSchema conv' !! "t1" = Some st'
    /\ schema.Table.ForeignKeys st' = [fkey]
    /\ schema.ForeignKey.OnDelete fkey = ""
    /\ schema.ForeignKey.OnUpdate fkey = "".
Proof.
  eexists _, _, _. split; [vm_compute; reflexivity|].
  split; [vm_compute; reflexivity|]. repeat split.
Qed.

(** C9, amended. A table-level FOREIGN KEY constraint whose referenced
    table has a name, and which has a referenced column for each of its
    columns, is built into a foreign key with non-empty OnDelete and
    OnUpdate actions: the action written in the dump, or NO ACTION when the
    clause is omitted.  When the referenced table has no name,
    [toForeignKeys] logs the error and returns the zero foreign key.  An
    inline REFERENCES option of a column keeps the actions as parsed, so
    they are empty when the clauses are omitted. *)
Theorem toForeignKeys_actions
        (conv : internal.Conv.t) (fk : ast.Constraint.t) (refer : ast.ReferenceDef.t) :
  ast.Constraint.Refer fk = Some refer ->
  (List.length (ast.Constraint.Keys fk)
   <= List.length (ast.ReferenceDef.IndexPartSpecifications refer))%nat ->
  (forall referTable,
     mysql.getTableName (ast.ReferenceDef.Table refer) = Value referTable ->
     exists fkey conv',
       mysql.toForeignKeys conv fk = Ok (fkey, conv')
       /\ schema.ForeignKey.OnDelete fkey <> "" /\ schema.ForeignKey.OnUpdate fkey <> ""
       /\ (ast.ReferenceDef.OnDelete refer = ast.ReferOptionNoOption ->
           schema.ForeignKey.OnDelete fkey = constants.FK_NO_ACTION)
       /\ (ast.ReferenceDef.OnUpdate refer = ast.ReferOptionNoOption ->
           schema.ForeignKey.OnUpdate fkey = constants.FK_NO_ACTION)
       /\ (ast.ReferenceDef.OnDelete refer <> ast.ReferOptionNoOption ->
           schema.ForeignKey.OnDelete fkey
           = ast.ReferOptionType_String (ast.ReferenceDef.OnDelete refer))
       /\ (ast.ReferenceDef.OnUpdate refer <> ast.ReferOptionNoOption ->
           schema.ForeignKey.OnUpdate fkey
           = ast.ReferOptionType_String (ast.ReferenceDef.OnUpdate refer)))
  /\ (forall err,
        mysql.getTableName (ast.ReferenceDef.Table refer) = Error err ->
        mysql.toForeignKeys conv fk = Ok (schema.ForeignKey.zero, internal.Unexpected err conv))
  /\ (forall (colName : string) (column : schema.Column.t) (cc : mysql.columnConstraint.t)
             (referTable : string) (r : ast.IndexPartSpecification.t)
             (rs : list ast.IndexPartSpecification.t),
        mysql.getTableName (ast.ReferenceDef.Table refer) = Value referTable ->
        ast.ReferenceDef.IndexPartSpecifications refer = r :: rs ->
        exists cc',
          mysql.updateColsByOptionStep colName (column, cc, conv)
            (ast.ColumnOption.mk ast.ColumnOptionReference None (Some refer))
          = Ok (column, cc', conv)
          /\ schema.ForeignKey.OnDelete (mysql.columnConstraint.fk cc')
             = ast.ReferOptionType_String (ast.ReferenceDef.OnDelete refer)
          /\ schema.ForeignKey.OnUpdate (mysql.columnConstraint.fk cc')
             = ast.ReferOptionType_String (ast.ReferenceDef.OnUpdate refer)
          /\ (ast.ReferenceDef.OnDelete refer = ast.ReferOptionNoOption ->
              schema.ForeignKey.OnDelete (mysql.columnConstraint.fk cc') = "")
          /\ (ast.ReferenceDef.OnUpdate refer = ast.ReferOptionNoOption ->
              schema.ForeignKey.OnUpdate (mysql.columnConstraint.fk cc') = "")).
Proof.
  intros Hrefer Hlen. split; [|split].
  - intros referTable Hname.
    destruct (toForeignKeys_built conv fk refer referTable Hrefer Hname Hlen)
      as (fkey & conv' & Hrun & Hd & Hu & _).
    exists fkey, conv'. split; [exact Hrun|]. rewrite Hd, Hu.
    split; [apply defaulted_nonempty|]. split; [apply defaulted_nonempty|].
    repeat split.
    + now intros ->.
    + now intros ->.
    + intros H. destruct (ast.ReferenceDef.OnDelete refer); [congruence | reflexivity ..].
    + intros H. destruct (ast.ReferenceDef.OnUpdate refer); [congruence | reflexivity ..].
  - intros err Hname. unfold mysql.toForeignKeys. now rewrite Hrefer, Hname.
  - intros colName column cc referTable r rs Hname Hparts.
    unfold mysql.updateColsByOptionStep. simpl. rewrite Hname, Hparts.
    eexists. split; [reflexivity|]. simpl.
    split; [reflexivity|]. split; [reflexivity|].
    split; now intros ->.
Qed.

Lemma toForeignKeys_actions_witness :
  exists fkey conv',
    mysql.toForeignKeys demo.convSchema (demo.foreignKeyTo "u") = Ok (fkey, conv')
    /\ schema.ForeignKey.OnDelete fkey = "NO ACTION"
    /\ schema.ForeignKey.OnUpdate fkey = "NO ACTION".
Proof.
  destruct (toForeignKeys_actions demo.convSchema (demo.foreignKeyTo "u")
              (ast.ReferenceDef.mk (ast.TableName.mk "" "u") [demo.key "x" false]
                                   ast.ReferOptionNoOption ast.ReferOptionNoOption))
    as (Hbuilt & _ & _).
  - reflexivity.
  - simpl. lia.
  - destruct (Hbuilt "u" eq_refl) as (fkey & conv' & Hrun & _ & _ & Hd & Hu & _).
    exists fkey, conv'. split; [exact Hrun|].
    split; [exact (Hd eq_refl) | exact (Hu eq_refl)].
Defined.

(** An inline [REFERENCES u (x)] without actions keeps the two actions empty. *)
Example updateColsByOption_inline_reference :
  exists column cc conv,
    mysql.updateColsByOption internal.MakeConv "a" [demo.referencesU] schema.Column.zero
    = Ok (column, cc, conv)
    /\ schema.ForeignKey.OnDelete (mysql.columnConstraint.fk cc) = ""
    /\ schema.ForeignKey.OnUpdate (mysql.columnConstraint.fk cc) = ""
    /\ schema.ForeignKey.ReferTableName (mysql.columnConstraint.fk cc) = "u".
Proof. eexists _, _, _. split; [vm_compute; reflexivity|]. repeat split. Qed.

(** ** C10: statements in data mode *)

(** C10. In data mode a statement that is not an insert leaves the source
    schema map as it is: a create-table, alter-table, set or create-index
    statement leaves the whole context unchanged (their handlers run in
    schema mode only) and any other statement is only counted as skipped.
    In either mode [processStatement] returns true exactly for an insert
    statement. *)
Theorem processStatement_data_mode_frame
        (E : mysql.Externals) (conv : internal.Conv.t) (stmt : ast.StmtNode) :
  internal.SchemaMode conv = false ->
  (ast.isInsert stmt = false ->
   exists conv',
     mysql.processStatement E conv stmt = Ok (false, conv')
     /\ internal.Conv.SrcSchema conv' = internal.Conv.SrcSchema conv
     /\ conv' = match stmt with
                | ast.Other _ => internal.SkipStatement (mysql.NodeType stmt) conv
                | _ => conv
                end)
  /\ (ast.isInsert stmt = true ->
      exists conv', mysql.processStatement E conv stmt = Ok (true, conv'))
  /\ (forall (conv0 : internal.Conv.t) (b : bool) (conv' : internal.Conv.t),
        mysql.processStatement E conv0 stmt = Ok (b, conv') -> b = ast.isInsert stmt).
Proof.
  intros Hmode. split; [|split].
  - intros Hins. destruct stmt; simpl in Hins; try discriminate;
      unfold mysql.processStatement; rewrite ?Hmode; simpl; eexists; repeat split.
  - intros Hins. destruct stmt; simpl in Hins; try discriminate. simpl. eauto.
  - intros conv0 b conv' Hrun. destruct stmt; simpl in Hrun |- *.
    + destruct (internal.SchemaMode conv0); [destruct (mysql.processCreateTable conv0 s)|];
        simpl in Hrun; congruence.
    + destruct (internal.SchemaMode conv0); [destruct (mysql.processAlterTable conv0 s)|];
        simpl in Hrun; congruence.
    + congruence.
    + congruence.
    + congruence.
    + congruence.
Qed.

Lemma processStatement_data_mode_frame_witness :
  exists conv',
    mysql.processStatement demo.E demo.convData
      (ast.CreateTable (ast.CreateTableStmt.mk (Some (ast.TableName.mk "" "u")) [] []))
    = Ok (false, conv')
    /\ internal.Conv.SrcSchema conv' = internal.Conv.SrcSchema demo.convData.
Proof.
  destruct (processStatement_data_mode_frame demo.E demo.convData
              (ast.CreateTable (ast.CreateTableStmt.mk (Some (ast.TableName.mk "" "u")) [] [])))
    as (Hframe & _).
  - reflexivity.
  - destruct (Hframe eq_refl) as (conv' & Hrun & Hsrc & _). now exists conv'.
Defined.

(** ** C2: the repair of an insert that does not parse *)

Section InsertRepair.

Import internal.

Variable E : mysql.Externals.

Import spec.

Lemma repaired_refl (conv : Conv.t) : repaired 0 conv conv.
Proof. unfold repaired. simpl. repeat split. lia. Qed.

Lemma repaired_skip (k : nat) (conv conv' : Conv.t) (u : string) :
  repaired k conv conv' ->
  repaired (S k) conv
    (SkipStatement "InsertStmt" (if SchemaMode conv' then Unexpected u conv' else conv')).
Proof.
  intros (Hs & Hr & Hb & Hsrc & Hm). unfold repaired.
  rewrite SkipStatement_count.
  destruct (SchemaMode conv').
  - rewrite Unexpected_statementStatOf, Hs.
    split; [lia|]. repeat split; simpl; assumption.
  - rewrite Hs. split; [lia|]. repeat split; simpl; assumption.
Qed.

Lemma tupleStmt_eq (prefix v : string) :
  spec.tupleStmt E prefix v
  = match mysql.Parse E (prefix ++ v ++ ";") with
    | Value (first :: _) => Some first
    | _ => None
    end.
Proof. reflexivity. Qed.

Lemma tupleFails_eq (prefix v : string) :
  spec.tupleFails E prefix v
  = match mysql.Parse E (prefix ++ v ++ ";") with
    | Error _ => true
    | Value _ => false
    end.
Proof. reflexivity. Qed.

Lemma forRange_cons {A S : Type} (body : S -> A -> Res S) (x : A) (xs : list A) (s : S) :
  forRange body (x :: xs) s = s' ← body s x; forRange body xs s'.
Proof. reflexivity. Qed.

Lemma insertValueStep_eq (prefix : string) (stmts : list ast.StmtNode) (conv : Conv.t)
      (v : string) :
  mysql.insertValueStep E prefix (stmts, conv) v
  = match mysql.Parse E (prefix ++ v ++ ";") with
    | Error _ =>
        Ok (stmts,
            SkipStatement "InsertStmt"
              (if SchemaMode conv then
                 Unexpected ("Either unsupported value is encountered or syntax is incorrect for following statement : " ++
                             String strings.nl (prefix ++ v ++ ";")) conv
               else conv))
    | Value [] => Panic "index out of range"
    | Value (first :: _) => Ok ((stmts ++ [first])%list, conv)
    end.
Proof. reflexivity. Qed.

Lemma insertValues_loop (prefix : string) (values : list string) :
  forall (stmts : list ast.StmtNode) (conv0 conv : Conv.t) (k : nat),
  Forall (fun v => mysql.Parse E (spec.tupleChunk prefix v) <> Value []) values ->
  repaired k conv0 conv ->
  exists conv',
    forRange (mysql.insertValueStep E prefix) values (stmts, conv)
    = Ok ((stmts ++ omap (spec.tupleStmt E prefix) values)%list, conv')
    /\ repaired (k + List.length (List.filter (spec.tupleFails E prefix) values)) conv0 conv'.
Proof.
  induction values as [|v values IH]; intros stmts conv0 conv k Hne Hrep.
  - exists conv. simpl. rewrite app_nil_r, Nat.add_0_r. now split.
  - inversion Hne as [|? ? Hv Hrest]; subst. unfold spec.tupleChunk in Hv.
    rewrite forRange_cons, insertValueStep_eq.
    simpl omap. simpl List.filter.
    rewrite (tupleStmt_eq prefix v), (tupleFails_eq prefix v).
    destruct (mysql.Parse E (prefix ++ v ++ ";")) as [[|first tree]|err] eqn:Hp.
    + congruence.
    + destruct (IH (stmts ++ [first])%list conv0 conv k Hrest Hrep) as (conv' & Hrun & Hrep').
      exists conv'. unfold mbind, res_bind. rewrite Hrun. split; [|exact Hrep'].
      now rewrite <- app_assoc.
    + pose proof (repaired_skip k conv0 conv
                    ("Either unsupported value is encountered or syntax is incorrect for following statement : " ++
                     String strings.nl (prefix ++ v ++ ";")) Hrep) as Hskip.
      destruct (IH stmts conv0 _ (S k) Hrest Hskip) as (conv' & Hrun & Hrep').
      exists conv'. unfold mbind, res_bind. rewrite Hrun. split; [reflexivity|].
      simpl List.length. now rewrite Nat.add_succ_r.
Qed.

Lemma insertFind_nonempty (s m rest : string) :
  regexp.insertFind s = Some (m, rest) -> m <> "".
Proof.
  induction s as [|a s IH]; simpl.
  - unfold regexp.insertHead. simpl. discriminate.
  - destruct (regexp.insertHead (String a s)) as [[h r]|] eqn:Hh.
    + destruct (regexp.lazyValues r) as [[m' rest']|].
      * intros [= <- <-]. unfold regexp.insertHead in Hh.
        repeat match type of Hh with
               | match ?x with _ => _ end = _ => destruct x; try discriminate Hh
               end.
        injection Hh as <- <-. discriminate.
      * exact IH.
    + exact IH.
Qed.

End InsertRepair.

Section InsertRepairSpec.

Import internal.

Variable E : mysql.Externals.

Lemma omap_cons {A B : Type} (f : A -> option B) (x : A) (xs : list A) :
  omap f (x :: xs) = match f x with Some y => y :: omap f xs | None => omap f xs end.
Proof. reflexivity. Qed.

Lemma tuples_partition (prefix : string) (values : list string) :
  Forall (fun v => mysql.Parse E (spec.tupleChunk prefix v) <> Value []) values ->
  (List.length (omap (spec.tupleStmt E prefix) values)
   + List.length (List.filter (spec.tupleFails E prefix) values)
   = List.length values)%nat.
Proof.
  induction values as [|v values IH]; intros Hne; [reflexivity|].
  inversion Hne as [|? ? Hv Hrest]; subst. unfold spec.tupleChunk in Hv.
  rewrite omap_cons. simpl List.filter.
  rewrite (tupleStmt_eq E prefix v), (tupleFails_eq E prefix v).
  specialize (IH Hrest).
  destruct (mysql.Parse E (prefix ++ v ++ ";")) as [[|first tree]|err];
    [congruence | simpl List.length; lia | simpl List.length; lia].
Qed.

Lemma handleInsertStatement_spec (conv : Conv.t) (chunk prefix : string) :
  regexp.valuesFindAllString chunk <> [] ->
  Forall (fun v => mysql.Parse E (spec.tupleChunk prefix v) <> Value [])
         (regexp.valuesFindAllString chunk) ->
  exists conv',
    mysql.handleInsertStatement E conv chunk prefix
    = Ok (omap (spec.tupleStmt E prefix) (regexp.valuesFindAllString chunk), true, conv')
    /\ spec.repaired
         (List.length (List.filter (spec.tupleFails E prefix) (regexp.valuesFindAllString chunk)))
         conv conv'.
Proof.
  intros Hvalues Hne. unfold mysql.handleInsertStatement.
  destruct (regexp.valuesFindAllString chunk) as [|v values] eqn:Hv; [congruence|].
  change (Nat.eqb (List.length (v :: values)) 0) with false. cbv iota.
  destruct (insertValues_loop E prefix (v :: values) [] conv conv 0 Hne (repaired_refl conv))
    as (conv' & Hrun & Hrep).
  exists conv'. unfold mbind, res_bind. rewrite Hrun. split; [reflexivity | exact Hrep].
Qed.

End InsertRepairSpec.

Section InsertRepairRows.

Import internal.

Variable E : mysql.Externals.

(** In schema mode a single-row insert into a table adds one to the row
    count of the table and leaves the bad rows, the count of skipped
    insert statements and the mode as they are. *)
Lemma processStatement_rowInto (conv : Conv.t) (srcTable : string) (stmt : ast.StmtNode) :
  SchemaMode conv = true ->
  spec.rowInto srcTable stmt ->
  exists conv',
    mysql.processStatement E conv stmt = Ok (true, conv')
    /\ rowsOf srcTable conv' = rowsOf srcTable conv + 1
    /\ stats.BadRows (Conv.Stats conv') = stats.BadRows (Conv.Stats conv)
    /\ statementStat.Skip (statementStatOf "InsertStmt" conv')
       = statementStat.Skip (statementStatOf "InsertStmt" conv)
    /\ Conv.mode_ conv' = Conv.mode_ conv.
Proof.
  intros Hmode (s & table & row & -> & Htable & Hname & Hlists).
  eexists. split; [reflexivity|].
  unfold mysql.processInsertStmt. rewrite Htable, Hname, Hmode, Hlists.
  split; [|split; [|split]].
  - unfold rowsOf, DataStatement, setStatementStat, addRows, bump. simpl.
    now rewrite lookup_insert_eq.
  - reflexivity.
  - unfold DataStatement, setStatementStat, statementStatOf at 1. simpl.
    now rewrite lookup_insert_eq.
  - reflexivity.
Qed.

Lemma processStatements_rowInto (srcTable : string) (stmts : list ast.StmtNode) :
  forall conv : Conv.t,
  SchemaMode conv = true ->
  Forall (spec.rowInto srcTable) stmts ->
  exists conv',
    mysql.processStatements E conv stmts = Ok conv'
    /\ rowsOf srcTable conv' = rowsOf srcTable conv + Z.of_nat (List.length stmts)
    /\ stats.BadRows (Conv.Stats conv') = stats.BadRows (Conv.Stats conv)
    /\ statementStat.Skip (statementStatOf "InsertStmt" conv')
       = statementStat.Skip (statementStatOf "InsertStmt" conv).
Proof.
  unfold mysql.processStatements.
  induction stmts as [|stmt stmts IH]; intros conv Hmode Hall.
  - exists conv. simpl. repeat split. lia.
  - inversion Hall as [|? ? Hstmt Hrest]; subst.
    destruct (processStatement_rowInto conv srcTable stmt Hmode Hstmt)
      as (conv1 & Hrun & Hrows & Hbad & Hskip & Hm).
    assert (Hmode1 : SchemaMode conv1 = true).
    { unfold SchemaMode in *. now rewrite Hm. }
    destruct (IH conv1 Hmode1 Hrest) as (conv' & Hloop & Hrows' & Hbad' & Hskip').
    exists conv'. rewrite forRange_cons, Hrun. cbn [mbind res_bind].
    split; [exact Hloop|]. split; [|split].
    + rewrite Hrows', Hrows. simpl List.length. lia.
    + now rewrite Hbad', Hbad.
    + now rewrite Hskip', Hskip.
Qed.

End InsertRepairRows.

(** C2, at a failing input: the dump [INSERT INTO t VALUES
    (1,2,3),(4,,6);], whose second tuple lacks a value, with a parser that
    rejects the insert as a whole and the second tuple on its own.  Read
    in schema mode, the insert is repaired into one statement; the row
    count of [t] is 1, not 2, and no bad row is recorded, not 1: the
    tuple that fails is counted as a skipped statement.  Read in data
    mode, with the table [t] known, the first tuple reaches the sink, and
    again no bad row is recorded. *)
Lemma insert_repair_counts_counterexample :
  (exists conv r,
     mysql.processMySQLDump demo.EStrict internal.MakeConv demo.missingValueDump
     = Some (Ok (None, conv, r))
     /\ internal.rowsOf "t" conv = 1
     /\ internal.badRowsOf "t" conv = 0
     /\ internal.statementStat.Skip (internal.statementStatOf "InsertStmt" conv) = 1
     /\ ~ (internal.rowsOf "t" conv = 2 /\ internal.badRowsOf "t" conv = 1))
  /\ (exists conv r,
        mysql.processMySQLDump demo.EStrict demo.convData demo.missingValueDump
        = Some (Ok (None, conv, r))
        /\ internal.Conv.Sink conv = [("t1", ["c2"; "c4"], ["1"; "3"])]
        /\ internal.badRowsOf "t" conv = 0
        /\ internal.statementStat.Skip (internal.statementStatOf "InsertStmt" conv) = 1).
Proof.
  split.
  - eexists _, _. split; [vm_compute; reflexivity|].
    split; [vm_compute; reflexivity|].
    split; [vm_compute; reflexivity|].
    split; [vm_compute; reflexivity|].
    vm_compute. intros [H _]. discriminate H.
  - eexists _, _. split; [vm_compute; reflexivity|].
    split; [vm_compute; reflexivity|].
    split; vm_compute; reflexivity.
Qed.

(** C2, amended. When a chunk fails to parse with an error that does not
    name a stored program or a delimiter, and the chunk holds an insert
    prefix followed by value tuples, [handleParseError] re-parses one
    single-row insert per tuple.  The statements of the tuples that parse
    are returned, in order; a tuple that fails is dropped and counted as a
    skipped InsertStmt statement.  So for n tuples of which k fail, n - k
    statements are returned, the skip count grows by k, and neither the
    row counts nor the bad-row counts are touched by the repair.  When
    these statements are then processed in schema mode, and each is the
    insert of a single row into one table, the row count of this table
    grows by n - k, no bad row is recorded, and the skip count stays k
    above what it was.  (The parser is expected to give at least one
    statement for a chunk it accepts.) *)
Theorem handleParseError_insert_repair
        (E : mysql.Externals) (conv : internal.Conv.t) (chunk err : string) (l : list string)
        (prefix valuesChunk : string) :
  regexp.unsupportedMatchString (strings.ToLower err)
  || strings.Contains (strings.ToLower err) "delimiter" = false ->
  regexp.insertFind chunk = Some (prefix, valuesChunk) ->
  regexp.valuesFindAllString valuesChunk <> [] ->
  Forall (fun v => mysql.Parse E (spec.tupleChunk prefix v) <> Value [])
         (regexp.valuesFindAllString valuesChunk) ->
  let values := regexp.valuesFindAllString valuesChunk in
  let stmts := omap (spec.tupleStmt E prefix) values in
  let k := List.length (List.filter (spec.tupleFails E prefix) values) in
  exists conv',
    mysql.handleParseError E conv chunk err l = Ok (stmts, true, conv')
    /\ (List.length stmts + k = List.length values)%nat
    /\ spec.repaired k conv conv'
    /\ (internal.SchemaMode conv = true ->
        forall srcTable : string,
          Forall (spec.rowInto srcTable) stmts ->
          exists conv'',
            mysql.processStatements E conv' stmts = Ok conv''
            /\ internal.rowsOf srcTable conv'' + Z.of_nat k
               = internal.rowsOf srcTable conv + Z.of_nat (List.length values)
            /\ internal.stats.BadRows (internal.Conv.Stats conv'')
               = internal.stats.BadRows (internal.Conv.Stats conv)
            /\ internal.statementStat.Skip (internal.statementStatOf "InsertStmt" conv'')
               = internal.statementStat.Skip (internal.statementStatOf "InsertStmt" conv)
                 + Z.of_nat k).
Proof.
  intros Herr Hfind Hvalues Hne values stmts k.
  destruct (handleInsertStatement_spec E conv valuesChunk prefix Hvalues Hne)
    as (conv' & Hrun & Hrep).
  pose proof (tuples_partition E prefix _ Hne) as Hpart.
  exists conv'. split; [|split; [exact Hpart|split; [exact Hrep|]]].
  - unfold mysql.handleParseError. rewrite Herr.
    unfold regexp.insertFindString, regexp.insertSplitSecond. rewrite Hfind.
    pose proof (insertFind_nonempty _ _ _ Hfind) as Hprefix.
    apply String.eqb_neq in Hprefix. rewrite Hprefix. simpl negb. cbv iota.
    unfold mbind at 1, res_bind at 1. exact Hrun.
  - intros Hmode srcTable Hall.
    destruct Hrep as (Hs & Hr & Hb & _ & Hm).
    assert (Hmode' : internal.SchemaMode conv' = true).
    { unfold internal.SchemaMode in *. now rewrite Hm. }
    destruct (processStatements_rowInto E srcTable stmts conv' Hmode' Hall)
      as (conv'' & Hloop & Hrows & Hbad & Hskip).
    exists conv''. split; [exact Hloop|]. split; [|split].
    + rewrite Hrows. unfold internal.rowsOf. rewrite Hr.
      fold values stmts k in Hpart. lia.
    + now rewrite Hbad, Hb.
    + now rewrite Hskip, Hs.
Qed.

Lemma handleParseError_insert_repair_witness :
  exists conv' conv'' first,
    mysql.handleParseError demo.EStrict internal.MakeConv
      "INSERT INTO t VALUES (1,2,3),(4,,6);" "syntax error near ,," []
    = Ok ([first], true, conv')
    /\ spec.repaired 1 internal.MakeConv conv'
    /\ mysql.processStatements demo.EStrict conv' [first] = Ok conv''
    /\ internal.rowsOf "t" conv'' + 1 = 0 + 2.
Proof.
  destruct (handleParseError_insert_repair demo.EStrict internal.MakeConv
              "INSERT INTO t VALUES (1,2,3),(4,,6);" "syntax error near ,," []
              "INSERT INTO t VALUES " "(1,2,3),(4,,6);")
    as (conv' & Hrun & _ & Hrep & Hrows).
  - reflexivity.
  - reflexivity.
  - discriminate.
  - vm_compute. repeat constructor; discriminate.
  - destruct (Hrows eq_refl "t") as (conv'' & Hloop & Hcount & _).
    + constructor; [|constructor].
      eexists _, _, _. repeat split.
    + eexists conv', conv'', _. split; [exact Hrun|]. split; [exact Hrep|].
      split; [exact Hloop | exact Hcount].
Defined.

(** ** C4: chunks that do not parse *)

Section Chunks.

Import internal.

Variable E : mysql.Externals.

(** A read that does not raise the end-of-stream flag takes the first
    of the pending lines. *)
Lemma ReadLine_not_EOF (r r1 : Reader.t) (b : string) :
  ReadLine r = (b, r1) -> Reader.EOF r1 = false ->
  Reader.pending r = b :: Reader.pending r1.
Proof.
  unfold ReadLine. destruct (Reader.pending r) as [|x rest].
  - intros [= <- <-]. discriminate.
  - intros [= <- <-] _. reflexivity.
Qed.

Lemma ReadLine_LineNumber (r r1 : Reader.t) (b : string) :
  ReadLine r = (b, r1) -> Reader.LineNumber r1 = Reader.LineNumber r + 1.
Proof.
  unfold ReadLine. destruct (Reader.pending r); intros [= <- <-]; reflexivity.
Qed.

Lemma orEOF_Again (conv c' : Conv.t) (r r' : Reader.t) (l l' : list string) :
  mysql.orEOF conv r l = mysql.Again c' r' l' -> r' = r /\ l' = l /\ Reader.EOF r = false.
Proof.
  unfold mysql.orEOF. destruct (Reader.EOF r); [discriminate|].
  intros [= <- <- <-]. auto.
Qed.

Lemma orEOF_Return (conv c' : Conv.t) (r r' : Reader.t) (l : list string)
      (res : Errorable (string * list ast.StmtNode)) :
  mysql.orEOF conv r l = mysql.Return res c' r' ->
  r' = r /\ Reader.EOF r = true /\ res = Error (mysql.parseError (List.length l)).
Proof.
  unfold mysql.orEOF. destruct (Reader.EOF r); [|discriminate].
  intros [= <- <- <-]. auto.
Qed.

(** A round that goes on has read one line and has not met the end. *)
Lemma readStep_Again (conv c' : Conv.t) (r r' : Reader.t) (l l' : list string) :
  mysql.readStep E conv r l = Ok (mysql.Again c' r' l') ->
  exists b, ReadLine r = (b, r') /\ l' = (l ++ [b])%list /\ Reader.EOF r' = false.
Proof.
  unfold mysql.readStep. destruct (ReadLine r) as [b r1] eqn:HR.
  destruct (strings.Contains b ";" || Reader.EOF r1).
  - destruct (regexp.adminMatch _); [discriminate|].
    destruct (mysql.Parse E _) as [tree|err]; [discriminate|].
    destruct (mysql.handleParseError E conv _ err _) as [[[newTree ok] conv1]|w];
      simpl; [|discriminate].
    destruct ok; [discriminate|].
    intros [= H]. apply orEOF_Again in H as (-> & -> & HE). eauto.
  - intros [= H]. apply orEOF_Again in H as (-> & -> & HE). eauto.
Qed.

(** A round that returns an error has met the end of the stream, and
    the error counts the lines read so far. *)
Lemma readStep_Error (conv c' : Conv.t) (r r' : Reader.t) (l : list string) (msg : string) :
  mysql.readStep E conv r l = Ok (mysql.Return (Error msg) c' r') ->
  exists b, ReadLine r = (b, r') /\ Reader.EOF r' = true
            /\ msg = mysql.parseError (S (List.length l)).
Proof.
  unfold mysql.readStep. destruct (ReadLine r) as [b r1] eqn:HR.
  assert (Hlen : List.length (l ++ [b])%list = S (List.length l))
    by (rewrite length_app; simpl; lia).
  destruct (strings.Contains b ";" || Reader.EOF r1).
  - destruct (regexp.adminMatch _); [discriminate|].
    destruct (mysql.Parse E _) as [tree|err]; [discriminate|].
    destruct (mysql.handleParseError E conv _ err _) as [[[newTree ok] conv1]|w];
      simpl; [|discriminate].
    destruct ok; [discriminate|].
    intros [= H]. apply orEOF_Return in H as (-> & HE & [= ->]). rewrite Hlen. eauto.
  - intros [= H]. apply orEOF_Return in H as (-> & HE & [= ->]). rewrite Hlen. eauto.
Qed.

(** Whatever a round returns, it returns the reader after one read. *)
Lemma readStep_Return_reader (conv c' : Conv.t) (r r' : Reader.t) (l : list string)
      (res : Errorable (string * list ast.StmtNode)) :
  mysql.readStep E conv r l = Ok (mysql.Return res c' r') -> r' = snd (ReadLine r).
Proof.
  unfold mysql.readStep. destruct (ReadLine r) as [b r1] eqn:HR. simpl.
  destruct (strings.Contains b ";" || Reader.EOF r1).
  - destruct (regexp.adminMatch _); [now intros [= _ _ <-]|].
    destruct (mysql.Parse E _) as [tree|err]; [now intros [= _ _ <-]|].
    destruct (mysql.handleParseError E conv _ err _) as [[[newTree ok] conv1]|w];
      simpl; [|discriminate].
    destruct ok; [now intros [= _ _ <-]|].
    intros [= H]. now apply orEOF_Return in H as (-> & _).
  - intros [= H]. now apply orEOF_Return in H as (-> & _).
Qed.

(** The loop of [readAndParseChunk] ends within as many further rounds
    as there are lines pending. *)
Lemma readLoop_total (fuel : nat) :
  forall (conv : Conv.t) (r : Reader.t) (l : list string),
  (List.length (Reader.pending r) <= fuel)%nat ->
  mysql.readLoop E fuel conv r l <> None.
Proof.
  induction fuel as [|fuel IH]; intros conv r l Hfuel; simpl;
    destruct (mysql.readStep E conv r l) as [[res c' r'|c' r' l']|w] eqn:Hstep;
    try discriminate.
  - apply readStep_Again in Hstep as (b & HR & _ & HE).
    rewrite (ReadLine_not_EOF _ _ _ HR HE) in Hfuel. simpl in Hfuel. lia.
  - apply readStep_Again in Hstep as (b & HR & _ & HE). apply IH.
    rewrite (ReadLine_not_EOF _ _ _ HR HE) in Hfuel. simpl in Hfuel. lia.
Qed.

Lemma readAndParseChunk_total (conv : Conv.t) (r : Reader.t) :
  mysql.readAndParseChunk E conv r <> None.
Proof. apply readLoop_total. lia. Qed.

(** An error of the loop: the end of the stream was met, and the error
    counts the lines of the chunk, those held on entry and those read. *)
Lemma readLoop_Error (fuel : nat) :
  forall (conv c' : Conv.t) (r r' : Reader.t) (l : list string) (msg : string),
  mysql.readLoop E fuel conv r l = Some (Ok (Error msg, c', r')) ->
  Reader.EOF r' = true
  /\ exists k : nat,
       (1 <= k)%nat /\ msg = mysql.parseError (List.length l + k)
       /\ Reader.LineNumber r' = Reader.LineNumber r + Z.of_nat k.
Proof.
  induction fuel as [|fuel IH]; intros conv c' r r' l msg; simpl;
    destruct (mysql.readStep E conv r l) as [[res c1 r1|c1 r1 l1]|w] eqn:Hstep;
    try discriminate.
  - intros [= -> -> ->]. apply readStep_Error in Hstep as (b & HR & HE & ->).
    split; [exact HE|]. exists 1%nat. rewrite Nat.add_1_r.
    repeat split; [lia|]. rewrite (ReadLine_LineNumber _ _ _ HR). lia.
  - intros [= -> -> ->]. apply readStep_Error in Hstep as (b & HR & HE & ->).
    split; [exact HE|]. exists 1%nat. rewrite Nat.add_1_r.
    repeat split; [lia|]. rewrite (ReadLine_LineNumber _ _ _ HR). lia.
  - intros Hrun. apply IH in Hrun as (HE & k & Hk & -> & Hline).
    apply readStep_Again in Hstep as (b & HR & -> & _).
    split; [exact HE|]. exists (S k). rewrite length_app in *. simpl in *.
    repeat split; [lia | f_equal; lia |].
    rewrite Hline, (ReadLine_LineNumber _ _ _ HR). lia.
Qed.

(** An error of [readAndParseChunk] is the error of [processMySQLDump]. *)
Lemma dumpLoop_Error (fuel : nat) (conv c' : Conv.t) (r r' : Reader.t) (msg : string) :
  mysql.readAndParseChunk E conv r = Some (Ok (Error msg, c', r')) ->
  mysql.dumpLoop E fuel conv r = Some (Ok (Some msg, c', r')).
Proof. intros H. destruct fuel; simpl; now rewrite H. Qed.

End Chunks.

Section ChunkSpec.

Import internal.

Variable E : mysql.Externals.

Lemma readLoop_Return (conv c' : Conv.t) (r r' : Reader.t) (l : list string)
      (res : Errorable (string * list ast.StmtNode)) (fuel : nat) :
  mysql.readStep E conv r l = Ok (mysql.Return res c' r') ->
  mysql.readLoop E fuel conv r l = Some (Ok (res, c', r')).
Proof. intros H. destruct fuel; simpl; now rewrite H. Qed.

(** The round in which the parse fails and no repair applies. *)
Lemma readStep_unrepaired (conv conv1 : Conv.t) (r r1 : Reader.t) (l : list string)
      (b err : string) (tree : list ast.StmtNode) :
  ReadLine r = (b, r1) ->
  strings.Contains b ";" || Reader.EOF r1 = true ->
  regexp.adminMatch (String.concat "" (l ++ [b])) = false ->
  mysql.Parse E (String.concat "" (l ++ [b])) = Error err ->
  mysql.handleParseError E conv (String.concat "" (l ++ [b])) err (l ++ [b])
  = Ok (tree, false, conv1) ->
  mysql.readStep E conv r l = Ok (mysql.orEOF (reparsed conv1) r1 (l ++ [b])).
Proof.
  intros HR Hattempt Hadmin Hparse Hhandle.
  unfold mysql.readStep. rewrite HR, Hattempt, Hadmin, Hparse, Hhandle. reflexivity.
Qed.

(** The round in which the parse succeeds. *)
Lemma readStep_parsed (conv : Conv.t) (r r1 : Reader.t) (l : list string)
      (b : string) (tree : list ast.StmtNode) :
  ReadLine r = (b, r1) ->
  strings.Contains b ";" || Reader.EOF r1 = true ->
  regexp.adminMatch (String.concat "" (l ++ [b])) = false ->
  mysql.Parse E (String.concat "" (l ++ [b])) = Value tree ->
  mysql.readStep E conv r l
  = Ok (mysql.Return (Value (String.concat "" (l ++ [b]), tree)) conv r1).
Proof.
  intros HR Hattempt Hadmin Hparse.
  unfold mysql.readStep. rewrite HR, Hattempt, Hadmin, Hparse. reflexivity.
Qed.

End ChunkSpec.

(** C4. When the parse of a chunk fails and no repair applies (the chunk
    is no system comment and [handleParseError] reports no success), the
    reparse count grows and, unless the stream has ended, the loop goes on
    with one more line read: the parse is retried on the longer chunk as
    soon as the line read holds a semicolon or ends the stream, and a
    retry that succeeds returns the statements of the longer chunk.  When
    the stream has ended, [readAndParseChunk] returns the error "Error
    parsing last n line(s) of input", n being the number of lines of the
    chunk, and [processMySQLDump] returns this error. *)
Theorem unparsed_chunk_read_on_or_fatal
        (E : mysql.Externals) (conv conv1 : internal.Conv.t) (r r1 : internal.Reader.t)
        (l : list string) (b err : string) (tree : list ast.StmtNode) :
  internal.ReadLine r = (b, r1) ->
  strings.Contains b ";" || internal.Reader.EOF r1 = true ->
  regexp.adminMatch (String.concat "" (l ++ [b])) = false ->
  mysql.Parse E (String.concat "" (l ++ [b])) = Error err ->
  mysql.handleParseError E conv (String.concat "" (l ++ [b])) err (l ++ [b])
  = Ok (tree, false, conv1) ->
  (internal.Reader.EOF r1 = false ->
   mysql.readStep E conv r l = Ok (mysql.Again (internal.reparsed conv1) r1 (l ++ [b]))
   /\ (forall fuel,
         mysql.readLoop E (S fuel) conv r l
         = mysql.readLoop E fuel (internal.reparsed conv1) r1 (l ++ [b]))
   /\ (forall (b' : string) (r2 : internal.Reader.t) (tree' : list ast.StmtNode) (fuel : nat),
         internal.ReadLine r1 = (b', r2) ->
         strings.Contains b' ";" || internal.Reader.EOF r2 = true ->
         regexp.adminMatch (String.concat "" ((l ++ [b]) ++ [b'])) = false ->
         mysql.Parse E (String.concat "" ((l ++ [b]) ++ [b'])) = Value tree' ->
         mysql.readLoop E (S fuel) conv r l
         = Some (Ok (Value (String.concat "" ((l ++ [b]) ++ [b']), tree'),
                     internal.reparsed conv1, r2))))
  /\ (internal.Reader.EOF r1 = true ->
      forall fuel,
        mysql.readLoop E fuel conv r l
        = Some (Ok (Error (mysql.parseError (List.length (l ++ [b]))),
                    internal.reparsed conv1, r1)))
  /\ (forall (conv0 c' : internal.Conv.t) (r0 r' : internal.Reader.t) (msg : string),
        mysql.readAndParseChunk E conv0 r0 = Some (Ok (Error msg, c', r')) ->
        mysql.processMySQLDump E conv0 r0 = Some (Ok (Some msg, c', r'))
        /\ internal.Reader.EOF r' = true
        /\ msg = mysql.parseError
                   (Z.to_nat (internal.Reader.LineNumber r' - internal.Reader.LineNumber r0))).
Proof.
  intros HR Hattempt Hadmin Hparse Hhandle.
  pose proof (readStep_unrepaired E conv conv1 r r1 l b err tree HR Hattempt Hadmin Hparse Hhandle)
    as Hstep.
  unfold mysql.orEOF in Hstep.
  split; [|split].
  - intros HE. rewrite HE in Hstep.
    assert (Hloop : forall fuel,
               mysql.readLoop E (S fuel) conv r l
               = mysql.readLoop E fuel (internal.reparsed conv1) r1 (l ++ [b]))
      by (intros fuel; simpl; now rewrite Hstep).
    split; [exact Hstep|]. split; [exact Hloop|].
    intros b' r2 tree' fuel HR' Hattempt' Hadmin' Hparse'.
    rewrite Hloop. apply readLoop_Return. now apply readStep_parsed.
  - intros HE fuel. rewrite HE in Hstep. now apply readLoop_Return.
  - intros conv0 c' r0 r' msg Hrun.
    split; [now apply dumpLoop_Error|].
    apply readLoop_Error in Hrun as (HE & k & Hk & -> & Hline).
    split; [exact HE|]. f_equal. simpl. rewrite Hline. lia.
Qed.

Lemma unparsed_chunk_read_on_or_fatal_witness :
  mysql.processMySQLDump demo.E internal.MakeConv (internal.NewReader [] "garbage;")
  = Some (Ok (Some "Error parsing last 1 line(s) of input",
              internal.reparsed internal.MakeConv,
              snd (internal.ReadLine (internal.NewReader [] "garbage;")))).
Proof.
  destruct (unparsed_chunk_read_on_or_fatal demo.E internal.MakeConv internal.MakeConv
              (internal.NewReader [] "garbage;")
              (snd (internal.ReadLine (internal.NewReader [] "garbage;")))
              [] "garbage;" "syntax error" [])
    as (_ & Hfatal & Hdump).
  - reflexivity.
  - reflexivity.
  - reflexivity.
  - reflexivity.
  - reflexivity.
  - apply (Hdump internal.MakeConv (internal.reparsed internal.MakeConv)
                 (internal.NewReader [] "garbage;")
                 (snd (internal.ReadLine (internal.NewReader [] "garbage;")))
                 "Error parsing last 1 line(s) of input").
    exact (Hfatal eq_refl 0%nat).
Defined.

(** A dump of two lines that never parses: the error counts both lines,
    and two parses were attempted. *)
Example unparsed_two_lines :
  exists conv r,
    mysql.processMySQLDump demo.E internal.MakeConv
      (internal.NewReader [demo.line "SELECT 1;"] "garbage")
    = Some (Ok (Some "Error parsing last 2 line(s) of input", conv, r))
    /\ internal.stats.Reparsed (internal.Conv.Stats conv) = 2
    /\ internal.Reader.EOF r = true.
Proof. eexists _, _. split; [vm_compute; reflexivity|]. split; reflexivity. Qed.

(** ** C7: the columns of an insert in data mode *)

Section InsertColumns.

Import internal.

Lemma elem_of_filter_bool {A : Type} (f : A -> bool) (l : list A) (x : A) :
  x ∈ List.filter f l <-> x ∈ l /\ f x = true.
Proof. rewrite !list_elem_of_In. apply filter_In. Qed.

Lemma sublist_filter_bool {A : Type} (f : A -> bool) (l : list A) :
  sublist (List.filter f l) l.
Proof.
  induction l as [|x l IH]; simpl; [constructor|].
  destruct (f x); [now apply sublist_skip | now apply sublist_cons].
Qed.

Lemma elem_of_surviving (spSchema : ddl.CreateTable.t) (srcColIds : list string) (id : string) :
  id ∈ spec.surviving spSchema srcColIds
  <-> id ∈ srcColIds /\ id ∈ ddl.CreateTable.ColIds spSchema.
Proof.
  unfold spec.surviving. rewrite elem_of_filter_bool.
  now rewrite bool_decide_eq_true.
Qed.

(** The columns that [processInsertStmt] resolves are those of the
    vocabulary above. *)
Lemma insertColumns_spec (stmt : ast.InsertStmt.t) (table : schema.Table.t) :
  (ast.InsertStmt.Columns stmt = None -> schema.Table.ColIds table <> []) ->
  mysql.insertColumns stmt table
  = Some (spec.insertColNames stmt table, spec.insertColIds stmt table).
Proof.
  intros Hcols. unfold mysql.insertColumns, mysql.getCols, spec.insertColNames, spec.insertColIds.
  destruct (ast.InsertStmt.Columns stmt) as [columns|].
  - now rewrite map_map.
  - destruct (schema.Table.ColIds table) as [|id ids]; [now elim Hcols|reflexivity].
Qed.

(** Inserting the pairs of a list whose keys are distinct: each key
    ends up with its value. *)
Lemma fold_insert_other (kvs : list (string * string)) :
  forall (acc : gmap string string) (k : string),
  k ∉ kvs.*1 ->
  fold_left (fun m kv => <[fst kv := snd kv]> m) kvs acc !! k = acc !! k.
Proof.
  induction kvs as [|[k' v'] kvs IH]; intros acc k Hk; [reflexivity|].
  simpl in *. apply not_elem_of_cons in Hk as [Hne Hk].
  rewrite IH by assumption. now apply lookup_insert_ne.
Qed.

Lemma fold_insert_lookup (kvs : list (string * string)) :
  forall (acc : gmap string string) (k v : string),
  NoDup kvs.*1 -> (k, v) ∈ kvs ->
  fold_left (fun m kv => <[fst kv := snd kv]> m) kvs acc !! k = Some v.
Proof.
  induction kvs as [|[k' v'] kvs IH]; intros acc k v Hnd Hin.
  - now apply elem_of_nil in Hin.
  - simpl in *. apply NoDup_cons in Hnd as [Hk' Hnd].
    apply elem_of_cons in Hin as [[= -> ->]|Hin].
    + rewrite fold_insert_other by assumption. apply lookup_insert_eq.
    + now apply IH.
Qed.

Lemma fold_left_keyed (key : string -> string) (nvs : list (string * string)) :
  forall acc : gmap string string,
  fold_left (fun m nv => <[key (fst nv) := snd nv]> m) nvs acc
  = fold_left (fun m kv => <[fst kv := snd kv]> m)
              (List.map (fun nv => (key (fst nv), snd nv)) nvs) acc.
Proof. induction nvs as [|nv nvs IH]; intros acc; simpl; [reflexivity | apply IH]. Qed.

(** [PrepareValues] gives, for each surviving column id, the value
    written at the position of that column in the row. *)
Lemma PrepareValues_values (colNameIdMap : gmap string string)
      (commonColIds srcCols srcColIds values : list string) :
  List.length srcCols = List.length values ->
  List.map (fun n => default "" (colNameIdMap !! n)) srcCols = srcColIds ->
  NoDup srcColIds ->
  Forall (fun id => id ∈ srcColIds) commonColIds ->
  exists newValues,
    common.PrepareValues colNameIdMap commonColIds srcCols values = Value newValues
    /\ Forall2 (fun id v => exists i : nat, srcColIds !! i = Some id /\ values !! i = Some v)
               commonColIds newValues.
Proof.
  intros Hlen Hids Hnd Hcommon. unfold common.PrepareValues.
  rewrite Hlen, Nat.eqb_refl. simpl negb. cbv iota.
  eexists. split; [reflexivity|].
  rewrite (fold_left_keyed (fun n => default "" (colNameIdMap !! n))).
  set (kvs := List.map (fun nv : string * string =>
                          (default "" (colNameIdMap !! fst nv), snd nv))
                       (combine srcCols values)).
  assert (Hkeys : kvs.*1 = srcColIds).
  { subst kvs srcColIds. clear Hnd Hcommon. revert values Hlen.
    induction srcCols as [|n ns IH]; intros [|v vs] Hlen; simpl in *; try discriminate;
      [reflexivity|].
    f_equal. apply IH. lia. }
  assert (Hvals : kvs.*2 = values).
  { subst kvs. clear Hkeys Hnd Hcommon Hids. revert values Hlen.
    induction srcCols as [|n ns IH]; intros [|v vs] Hlen; simpl in *; try discriminate;
      [reflexivity|].
    f_equal. apply IH. lia. }
  apply Forall2_fmap_r, Forall_Forall2_diag.
  rewrite Forall_forall in Hcommon |- *. intros id Hid.
  specialize (Hcommon id Hid). rewrite <- Hkeys in Hcommon.
  apply list_elem_of_fmap in Hcommon as ([k v] & -> & Hkv). simpl.
  rewrite (fold_insert_lookup kvs ∅ k v) by (rewrite ?Hkeys; assumption). simpl.
  apply list_elem_of_lookup in Hkv as [i Hi]. exists i. split.
  - rewrite <- Hkeys, list_lookup_fmap, Hi. reflexivity.
  - rewrite <- Hvals, list_lookup_fmap, Hi. reflexivity.
Qed.

End InsertColumns.

(** C7. In data mode, for an insert into a known table: the column ids are
    those of the columns the statement lists or, when it lists none, the
    declared column order of the source table; they are intersected with
    the column ids of the target table, in their order, so that a column
    dropped during conversion is excluded without any error; every row is
    then either counted as bad or handed to [ProcessDataRow] with the
    surviving column ids and with the values written for these columns. *)
Theorem processInsertStmt_data_mode
        (E : mysql.Externals) (conv : internal.Conv.t) (stmt : ast.InsertStmt.t)
        (table : ast.TableRefsClause.t) (srcTable : string) (srcSchema : schema.Table.t)
        (lists : list (list ast.ExprNode)) :
  internal.SchemaMode conv = false ->
  ast.InsertStmt.Table stmt = Some table ->
  mysql.getTableNameInsert table = Value srcTable ->
  let tableId := default "" (internal.GetTableIdFromSrcName (internal.Conv.SrcSchema conv) srcTable) in
  internal.Conv.SrcSchema conv !! tableId = Some srcSchema ->
  (ast.InsertStmt.Columns stmt = None -> schema.Table.ColIds srcSchema <> []) ->
  ast.InsertStmt.Lists stmt = Some lists ->
  let spSchema := default ddl.CreateTable.zero (internal.Conv.SpSchema conv !! tableId) in
  let srcColIds := spec.insertColIds stmt srcSchema in
  let srcCols := spec.insertColNames stmt srcSchema in
  let commonColIds := spec.surviving spSchema srcColIds in
  let row := mysql.insertRow E tableId (schema.Table.ColNameIdMap srcSchema) commonColIds srcCols
                             srcSchema spSchema in
  mysql.processInsertStmt E conv stmt = fold_left row lists conv
  /\ (forall id, id ∈ commonColIds <-> id ∈ srcColIds /\ id ∈ ddl.CreateTable.ColIds spSchema)
  /\ sublist commonColIds srcColIds
  /\ (forall conv0 r,
        (exists newValues,
           row conv0 r = mysql.ProcessDataRow E conv0 tableId commonColIds srcSchema spSchema newValues
           /\ List.length newValues = List.length commonColIds)
        \/ (exists values conv1,
              row conv0 r = mysql.CollectBadRow E (schema.Table.Name srcSchema) srcCols values conv1
              /\ internal.Conv.SrcSchema conv1 = internal.Conv.SrcSchema conv0))
  /\ (forall conv0 r values,
        mysql.getVals E r = Value values ->
        List.length srcCols = List.length values ->
        List.map (fun n => default "" (schema.Table.ColNameIdMap srcSchema !! n)) srcCols
        = srcColIds ->
        NoDup srcColIds ->
        exists newValues,
          row conv0 r = mysql.ProcessDataRow E conv0 tableId commonColIds srcSchema spSchema newValues
          /\ Forall2 (fun id v => exists i : nat, srcColIds !! i = Some id /\ values !! i = Some v)
                     commonColIds newValues).
Proof.
  intros Hmode Htable Hname tableId Hsrc Hcols Hlists spSchema srcColIds srcCols commonColIds row.
  split; [|split; [|split; [|split]]].
  - unfold mysql.processInsertStmt. rewrite Htable, Hname, Hmode.
    fold tableId. rewrite Hsrc, (insertColumns_spec stmt srcSchema Hcols), Hlists. reflexivity.
  - intros id. apply elem_of_surviving.
  - apply sublist_filter_bool.
  - intros conv0 r. subst row. unfold mysql.insertRow.
    destruct (common.PrepareValues _ commonColIds srcCols _) as [newValues|e] eqn:Hprep.
    + left. exists newValues. split; [reflexivity|].
      unfold common.PrepareValues in Hprep.
      destruct (negb _); [discriminate|]. injection Hprep as <-. apply length_map.
    + right. eexists _, _. split; [reflexivity|].
      unfold internal.StatsAddBadRow. destruct (internal.DataMode _); reflexivity.
  - intros conv0 r values Hvals Hlen Hids Hnd. subst row. unfold mysql.insertRow.
    rewrite Hvals.
    destruct (PrepareValues_values (schema.Table.ColNameIdMap srcSchema) commonColIds
                srcCols srcColIds values Hlen Hids Hnd) as (newValues & -> & Hall).
    + apply Forall_forall. intros id Hid. now apply elem_of_surviving in Hid as [Hid _].
    + exists newValues. split; [reflexivity | exact Hall].
Qed.

Lemma processInsertStmt_data_mode_witness :
  internal.Conv.Sink (mysql.processInsertStmt demo.E demo.convData demo.insert123)
  = [("t1", ["c2"; "c4"], ["1"; "3"])].
Proof.
  destruct (processInsertStmt_data_mode demo.E demo.convData demo.insert123 demo.tableT "t"
              demo.tableT1 [[ast.ValueExpr (ast.Text "1"); ast.ValueExpr (ast.Text "2");
                             ast.ValueExpr (ast.Text "3")]])
    as (Hrun & _).
  - reflexivity.
  - reflexivity.
  - reflexivity.
  - vm_compute. reflexivity.
  - discriminate.
  - reflexivity.
  - rewrite Hrun. vm_compute. reflexivity.
Defined.

(** ** C1: the surrogate key of a table without primary key *)

Section Surrogate.

Variable ToSpannerType : schema.Type_.t -> ddl.Type_.t.
Variable supportedAction : string -> bool.

Lemma AddPrimaryKey_nonempty (ct : ddl.CreateTable.t) :
  ddl.CreateTable.PrimaryKeys (toddl.AddPrimaryKey ct) <> [].
Proof.
  unfold toddl.AddPrimaryKey.
  destruct (ddl.CreateTable.PrimaryKeys ct) as [|k ks] eqn:Hpk; simpl.
  - discriminate.
  - rewrite Hpk. discriminate.
Qed.

Lemma SchemaToSpannerDDLHelper_no_primary_key (srcTable : schema.Table.t) :
  schema.Table.PrimaryKeys srcTable = [] ->
  let spTable := toddl.SchemaToSpannerDDLHelper ToSpannerType supportedAction srcTable in
  ddl.CreateTable.PrimaryKeys spTable = [ddl.IndexKey.mk toddl.synthId false 1]
  /\ ddl.CreateTable.ColIds spTable = (schema.Table.ColIds srcTable ++ [toddl.synthId])%list
  /\ ddl.CreateTable.ColDefs spTable !! toddl.synthId = Some toddl.synthColumn.
Proof.
  intros Hpk. unfold toddl.SchemaToSpannerDDLHelper, toddl.AddPrimaryKey. simpl.
  rewrite Hpk. simpl. repeat split. apply lookup_insert_eq.
Qed.

Lemma SchemaToSpannerDDLHelper_primary_key (srcTable : schema.Table.t) :
  schema.Table.PrimaryKeys srcTable <> [] ->
  let spTable := toddl.SchemaToSpannerDDLHelper ToSpannerType supportedAction srcTable in
  ddl.CreateTable.PrimaryKeys spTable = toddl.cvtPrimaryKeys (schema.Table.PrimaryKeys srcTable)
  /\ ddl.CreateTable.ColIds spTable = schema.Table.ColIds srcTable.
Proof.
  intros Hpk. unfold toddl.SchemaToSpannerDDLHelper, toddl.AddPrimaryKey. simpl.
  destruct (schema.Table.PrimaryKeys srcTable) as [|k ks]; [congruence|]. simpl. now split.
Qed.

End Surrogate.

(** C1. Every source table without a declared primary key is converted
    into a target table whose primary key is exactly one column, the
    synthesized surrogate [synth_id], added after the columns of the
    source table with its definition; and no table of the target schema is
    without primary key, so such a table never gets there without its
    surrogate. *)
Theorem surrogate_key_for_tables_without_primary_key
        (ToSpannerType : schema.Type_.t -> ddl.Type_.t) (supportedAction : string -> bool)
        (conv : internal.Conv.t) (tableId : string) (srcTable : schema.Table.t) :
  internal.Conv.SrcSchema conv !! tableId = Some srcTable ->
  schema.Table.PrimaryKeys srcTable = [] ->
  let conv' := toddl.SchemaToSpannerDDL ToSpannerType supportedAction conv in
  (exists spTable,
     internal.Conv.SpSchema conv' !! tableId = Some spTable
     /\ ddl.CreateTable.PrimaryKeys spTable = [ddl.IndexKey.mk toddl.synthId false 1]
     /\ List.length (ddl.CreateTable.PrimaryKeys spTable) = 1%nat
     /\ ddl.CreateTable.ColIds spTable = (schema.Table.ColIds srcTable ++ [toddl.synthId])%list
     /\ ddl.CreateTable.ColDefs spTable !! toddl.synthId = Some toddl.synthColumn)
  /\ (forall id spTable,
        internal.Conv.SpSchema conv' !! id = Some spTable ->
        ddl.CreateTable.PrimaryKeys spTable <> []
        /\ exists src,
             internal.Conv.SrcSchema conv !! id = Some src
             /\ (schema.Table.PrimaryKeys src = [] ->
                 ddl.CreateTable.PrimaryKeys spTable = [ddl.IndexKey.mk toddl.synthId false 1]
                 /\ toddl.synthId ∈ ddl.CreateTable.ColIds spTable)).
Proof.
  intros Hsrc Hpk conv'. split.
  - exists (toddl.SchemaToSpannerDDLHelper ToSpannerType supportedAction srcTable).
    destruct (SchemaToSpannerDDLHelper_no_primary_key ToSpannerType supportedAction srcTable Hpk)
      as (Hkeys & Hids & Hdef).
    split; [|split; [exact Hkeys | split; [now rewrite Hkeys | split; [exact Hids | exact Hdef]]]].
    subst conv'. unfold toddl.SchemaToSpannerDDL. simpl.
    now rewrite lookup_fmap, Hsrc.
  - intros id spTable Hsp. subst conv'. unfold toddl.SchemaToSpannerDDL in Hsp. simpl in Hsp.
    rewrite lookup_fmap in Hsp.
    destruct (internal.Conv.SrcSchema conv !! id) as [src|] eqn:Hid; [|discriminate].
    injection Hsp as <-. split.
    + apply AddPrimaryKey_nonempty.
    + exists src. split; [reflexivity|]. intros Hnone.
      destruct (SchemaToSpannerDDLHelper_no_primary_key ToSpannerType supportedAction src Hnone)
        as (Hkeys & Hids & _).
      split; [exact Hkeys|]. rewrite Hids. apply elem_of_app. right. apply list_elem_of_singleton.
      reflexivity.
Qed.

Lemma surrogate_key_for_tables_without_primary_key_witness :
  exists spTable,
    internal.Conv.SpSchema
      (toddl.SchemaToSpannerDDL demo.ToSpannerType demo.supportedAction demo.convTest) !! "test"
    = Some spTable
    /\ ddl.CreateTable.PrimaryKeys spTable = [ddl.IndexKey.mk "synth_id" false 1]
    /\ ddl.CreateTable.ColIds spTable = ["a"; "b"; "c"; "synth_id"].
Proof.
  destruct (surrogate_key_for_tables_without_primary_key demo.ToSpannerType demo.supportedAction
              demo.convTest "test" demo.tableTest)
    as ((spTable & Hsp & Hkeys & _ & Hids & _) & _).
  - vm_compute. reflexivity.
  - reflexivity.
  - exists spTable. split; [exact Hsp|]. split; [exact Hkeys | exact Hids].
Defined.

(** ** C3: the limits of a batch *)

Section Batches.

Variable byteSize : internal.Row -> Z.
Variable Write : nat -> list internal.Row -> bool.




End Batches.



(** ** The reader loops always return *)

Section Termination.

Import internal.

Variable E : mysql.Externals.

Lemma ReadLine_progress (r : Reader.t) :
  Reader.EOF (snd (ReadLine r)) = true
  \/ (List.length (Reader.pending (snd (ReadLine r))) < List.length (Reader.pending r))%nat.
Proof.
  unfold ReadLine. destruct (Reader.pending r) as [|b rest]; simpl; [now left | right; lia].
Qed.

(** A chunk that is returned has consumed a pending line, or has met
    the end of the stream. *)
Lemma readLoop_progress (fuel : nat) :
  forall (conv c' : Conv.t) (r r' : Reader.t) (l : list string)
         (res : Errorable (string * list ast.StmtNode)),
  mysql.readLoop E fuel conv r l = Some (Ok (res, c', r')) ->
  Reader.EOF r' = true
  \/ (List.length (Reader.pending r') < List.length (Reader.pending r))%nat.
Proof.
  induction fuel as [|fuel IH]; intros conv c' r r' l res; simpl;
    destruct (mysql.readStep E conv r l) as [[res1 c1 r1|c1 r1 l1]|w] eqn:Hstep;
    try discriminate.
  - intros [= -> -> ->]. apply readStep_Return_reader in Hstep as ->. apply ReadLine_progress.
  - intros [= -> -> ->]. apply readStep_Return_reader in Hstep as ->. apply ReadLine_progress.
  - intros Hrun. apply IH in Hrun as [HE|Hlt]; [now left|right].
    apply readStep_Again in Hstep as (b & HR & _ & HE).
    rewrite (ReadLine_not_EOF _ _ _ HR HE). simpl. lia.
Qed.

(** [processMySQLDump] returns: the lines pending bound its rounds. *)
Lemma dumpLoop_total (fuel : nat) :
  forall (conv : Conv.t) (r : Reader.t),
  (List.length (Reader.pending r) <= fuel)%nat ->
  mysql.dumpLoop E fuel conv r <> None.
Proof.
  induction fuel as [|fuel IH]; intros conv r Hfuel; simpl;
    destruct (mysql.readAndParseChunk E conv r) as [[[[[[chunk stmts]|err] c1] r1]|w]|] eqn:Hchunk;
    try discriminate; try (now apply readAndParseChunk_total in Hchunk);
    destruct (mysql.processStatements E c1 stmts) as [c2|w]; try discriminate;
    destruct (Reader.EOF r1) eqn:HE; try discriminate;
    apply readLoop_progress in Hchunk as [HE'|Hlt]; try congruence.
  - lia.
  - apply IH. lia.
Qed.

Lemma processMySQLDump_total (conv : Conv.t) (r : Reader.t) :
  mysql.processMySQLDump E conv r <> None.
Proof. apply dumpLoop_total. lia. Qed.

End Termination.

(* ===================================================================== *)
(** * Further properties of mysqldump.go *)
(* ===================================================================== *)

(** ** The reader loop: what a chunk is made of *)

Section ChunkText.

Import internal.

Variable E : mysql.Externals.

Lemma append_nil_r' (s : string) : (s ++ "")%string = s.
Proof. induction s as [|a s IH]; [reflexivity|]. now rewrite append_cons, IH. Qed.

Lemma concat_cons (x : string) (xs : list string) :
  String.concat "" (x :: xs) = (x ++ String.concat "" xs)%string.
Proof. destruct xs; simpl; [now rewrite append_nil_r' | reflexivity]. Qed.

Lemma concat_app (xs ys : list string) :
  String.concat "" (xs ++ ys) = (String.concat "" xs ++ String.concat "" ys)%string.
Proof.
  induction xs as [|x xs IH]; [reflexivity|].
  rewrite <- app_comm_cons, !concat_cons, IH. now rewrite append_assoc'.
Qed.

Lemma length_append (s t : string) :
  String.length (s ++ t) = (String.length s + String.length t)%nat.
Proof. induction s as [|a s IH]; [reflexivity|]. rewrite append_cons. simpl. now rewrite IH. Qed.

Lemma readLines_S (n : nat) (r r1 : Reader.t) (b : string) :
  ReadLine r = (b, r1) ->
  more.readLines (S n) r = (b :: fst (more.readLines n r1), snd (more.readLines n r1)).
Proof. intros H. simpl. rewrite H. now destruct (more.readLines n r1). Qed.

(** The lines read advance the line number by their number and the
    offset by their length. *)
Lemma readLines_counts (n : nat) :
  forall (r r' : Reader.t) (bs : list string),
  more.readLines n r = (bs, r') ->
  List.length bs = n
  /\ Reader.LineNumber r' = Reader.LineNumber r + Z.of_nat n
  /\ Reader.Offset r' = Reader.Offset r + Z.of_nat (String.length (String.concat "" bs)).
Proof.
  induction n as [|n IH]; intros r r' bs.
  - intros [= <- <-]. simpl. repeat split; lia.
  - destruct (ReadLine r) as [b r1] eqn:HR. rewrite (readLines_S n r r1 b HR).
    destruct (more.readLines n r1) as [bs1 r2] eqn:Hn. simpl. intros [= <- <-].
    destruct (IH r1 r2 bs1 Hn) as (Hlen & Hline & Hoff).
    rewrite concat_cons, length_append, Hline, Hoff, (ReadLine_LineNumber r r1 b HR).
    assert (Ho : Reader.Offset r1 = Reader.Offset r + Z.of_nat (String.length b)).
    { unfold ReadLine in HR. destruct (Reader.pending r); injection HR as <- <-; reflexivity. }
    rewrite Ho. simpl List.length. repeat split; lia.
Qed.

(** What the loop returns: the lines it held and the lines it read. *)
Lemma readLoop_lines (fuel : nat) :
  forall (conv c' : Conv.t) (r r' : Reader.t) (l : list string)
         (res : Errorable (string * list ast.StmtNode)),
  mysql.readLoop E fuel conv r l = Some (Ok (res, c', r')) ->
  exists (n : nat) (bs : list string),
    (1 <= n)%nat /\ more.readLines n r = (bs, r')
    /\ match res with
       | Value (chunk, _) => chunk = String.concat "" (l ++ bs)
       | Error msg => msg = mysql.parseError (List.length (l ++ bs)) /\ Reader.EOF r' = true
       end.
Proof.
  induction fuel as [|fuel IH]; intros conv c' r r' l res; simpl;
    destruct (mysql.readStep E conv r l) as [[res1 c1 r1|c1 r1 l1]|w] eqn:Hstep;
    try discriminate.
  1, 2: intros [= -> -> ->]; destruct (ReadLine r) as [b rb] eqn:HR;
    pose proof (readStep_Return_reader E conv c' r r' l res Hstep) as Hr;
    rewrite HR in Hr; simpl in Hr; subst rb;
    exists 1%nat, [b]; split; [lia|]; split; [now rewrite (readLines_S 0 r r' b HR)|];
    destruct res as [[chunk stmts]|msg];
    [ unfold mysql.readStep in Hstep; rewrite HR in Hstep;
      destruct (strings.Contains b ";" || Reader.EOF r');
      [ destruct (regexp.adminMatch _); [now injection Hstep as <- _|];
        destruct (mysql.Parse E _) as [tree|err]; [now injection Hstep as <- _|];
        destruct (mysql.handleParseError E conv _ err _) as [[[newTree ok] conv1]|w];
          simpl in Hstep; [|discriminate];
        destruct ok; [now injection Hstep as <- _|];
        injection Hstep as Hstep; apply orEOF_Return in Hstep as (_ & _ & [=])
      | injection Hstep as Hstep; apply orEOF_Return in Hstep as (_ & _ & [=]) ]
    | apply readStep_Error in Hstep as (b' & HR' & HE & ->);
      split; [|exact HE]; rewrite length_app; simpl; f_equal; lia ].
  intros Hrun. apply IH in Hrun as (n & bs & Hn & Hlines & Hres).
  apply readStep_Again in Hstep as (b & HR & -> & _).
  exists (S n), (b :: bs). split; [lia|]. split.
  - rewrite (readLines_S n r r1 b HR), Hlines. reflexivity.
  - destruct res as [[chunk stmts]|msg]; rewrite <- app_assoc in Hres; exact Hres.
Qed.

End ChunkText.

(** X1. A chunk returned by [readAndParseChunk] is the text of the lines it
    read, in order: their number is the advance of the line number, and the
    length of the chunk is the advance of the byte offset.  An error counts
    these lines and comes with the end of the stream. *)
Theorem readAndParseChunk_consumes
        (E : mysql.Externals) (conv c' : internal.Conv.t) (r r' : internal.Reader.t)
        (res : Errorable (string * list ast.StmtNode)) :
  mysql.readAndParseChunk E conv r = Some (Ok (res, c', r')) ->
  exists (n : nat) (bs : list string),
    (1 <= n)%nat /\ more.readLines n r = (bs, r')
    /\ internal.Reader.LineNumber r' = internal.Reader.LineNumber r + Z.of_nat n
    /\ internal.Reader.Offset r'
       = internal.Reader.Offset r + Z.of_nat (String.length (String.concat "" bs))
    /\ match res with
       | Value (chunk, _) => chunk = String.concat "" bs
       | Error msg => msg = mysql.parseError n /\ internal.Reader.EOF r' = true
       end.
Proof.
  intros Hrun. apply readLoop_lines in Hrun as (n & bs & Hn & Hlines & Hres).
  destruct (readLines_counts n r r' bs Hlines) as (Hlen & Hline & Hoff).
  exists n, bs. repeat split; try assumption.
  destruct res as [[chunk stmts]|msg]; simpl in Hres; [exact Hres|].
  now rewrite Hlen in Hres.
Qed.

Lemma readAndParseChunk_consumes_witness :
  let r := internal.NewReader [demo.line "SELECT 1;"] "garbage" in
  let r' := snd (more.readLines 2 r) in
  exists (n : nat) (bs : list string),
    (1 <= n)%nat /\ more.readLines n r = (bs, r')
    /\ internal.Reader.LineNumber r' = internal.Reader.LineNumber r + Z.of_nat n
    /\ internal.Reader.Offset r'
       = internal.Reader.Offset r + Z.of_nat (String.length (String.concat "" bs))
    /\ "Error parsing last 2 line(s) of input" = mysql.parseError n
    /\ internal.Reader.EOF r' = true.
Proof.
  intros r r'.
  apply (readAndParseChunk_consumes demo.E internal.MakeConv
           (internal.reparsed (internal.reparsed internal.MakeConv)) r r'
           (Error "Error parsing last 2 line(s) of input")).
  vm_compute. reflexivity.
Defined.

(** ** The dump loop *)

Section DumpLoop.

Import internal.

Variable E : mysql.Externals.

Lemma dumpLoop_EOF (fuel : nat) :
  forall (conv c' : Conv.t) (r r' : Reader.t) (out : option string),
  mysql.dumpLoop E fuel conv r = Some (Ok (out, c', r')) ->
  Reader.EOF r' = true
  /\ (forall msg, out = Some msg -> exists n : nat, (1 <= n)%nat /\ msg = mysql.parseError n).
Proof.
  induction fuel as [|fuel IH]; intros conv c' r r' out; simpl;
    destruct (mysql.readAndParseChunk E conv r) as [[[[[[chunk stmts]|err] c1] r1]|w]|] eqn:Hchunk;
    try discriminate.
  - destruct (mysql.processStatements E c1 stmts) as [c2|w]; [|discriminate].
    destruct (Reader.EOF r1) eqn:HE; [|discriminate].
    intros [= <- <- <-]. split; [exact HE | discriminate].
  - intros [= <- <- <-]. apply readLoop_Error in Hchunk as (HE & k & Hk & -> & _).
    split; [exact HE|]. intros msg [= <-]. exists k. now split.
  - destruct (mysql.processStatements E c1 stmts) as [c2|w]; [|discriminate].
    destruct (Reader.EOF r1) eqn:HE.
    + intros [= <- <- <-]. split; [exact HE | discriminate].
    + apply IH.
  - intros [= <- <- <-]. apply readLoop_Error in Hchunk as (HE & k & Hk & -> & _).
    split; [exact HE|]. intros msg [= <-]. exists k. now split.
Qed.

End DumpLoop.

(** X2. [processMySQLDump] returns for every dump and every parser, and
    when it returns (with or without error) the reader is at the end of the
    stream; its only error is the parse error of an unparsed last chunk,
    which counts at least one line. *)
Theorem processMySQLDump_reads_to_end
        (E : mysql.Externals) (conv : internal.Conv.t) (r : internal.Reader.t) :
  (exists res, mysql.processMySQLDump E conv r = Some res)
  /\ (forall (out : option string) (c' : internal.Conv.t) (r' : internal.Reader.t),
        mysql.processMySQLDump E conv r = Some (Ok (out, c', r')) ->
        internal.Reader.EOF r' = true
        /\ (forall msg, out = Some msg ->
              exists n : nat, (1 <= n)%nat /\ msg = mysql.parseError n)).
Proof.
  split.
  - destruct (mysql.processMySQLDump E conv r) as [res|] eqn:H; [eauto|].
    now apply processMySQLDump_total in H.
  - intros out c' r'. apply dumpLoop_EOF.
Qed.

(** ** Inserts in schema mode *)

(** X3. In schema mode an insert into a named table only counts: the row
    count of the table grows by the number of value tuples, one data
    statement is counted, and the schemas, the bad-row counts, the log of
    unexpected conditions, the data sink and the id counter are untouched,
    whether or not the table is known and whatever the external parts do. *)
Theorem processInsertStmt_schema_mode
        (E : mysql.Externals) (conv : internal.Conv.t) (stmt : ast.InsertStmt.t)
        (table : ast.TableRefsClause.t) (srcTable : string) :
  internal.SchemaMode conv = true ->
  ast.InsertStmt.Table stmt = Some table ->
  mysql.getTableNameInsert table = Value srcTable ->
  let conv' := mysql.processInsertStmt E conv stmt in
  internal.rowsOf srcTable conv'
  = internal.rowsOf srcTable conv
    + Z.of_nat (List.length (default [] (ast.InsertStmt.Lists stmt)))
  /\ (forall t, t <> srcTable -> internal.rowsOf t conv' = internal.rowsOf t conv)
  /\ internal.statementStat.Data (internal.statementStatOf "InsertStmt" conv')
     = internal.statementStat.Data (internal.statementStatOf "InsertStmt" conv) + 1
  /\ internal.Conv.SrcSchema conv' = internal.Conv.SrcSchema conv
  /\ internal.Conv.SpSchema conv' = internal.Conv.SpSchema conv
  /\ internal.Conv.Sink conv' = internal.Conv.Sink conv
  /\ internal.Conv.Cntr conv' = internal.Conv.Cntr conv
  /\ internal.Conv.mode_ conv' = internal.Conv.mode_ conv
  /\ internal.stats.BadRows (internal.Conv.Stats conv')
     = internal.stats.BadRows (internal.Conv.Stats conv)
  /\ internal.stats.Unexpected (internal.Conv.Stats conv')
     = internal.stats.Unexpected (internal.Conv.Stats conv).
Proof.
  intros Hmode Htable Hname conv'. subst conv'.
  unfold mysql.processInsertStmt. rewrite Htable, Hname, Hmode.
  split; [|split; [|split]].
  - unfold internal.rowsOf, internal.DataStatement, internal.setStatementStat, internal.addRows,
      internal.bump. simpl. now rewrite lookup_insert_eq.
  - intros t Ht. unfold internal.rowsOf, internal.DataStatement, internal.setStatementStat,
      internal.addRows, internal.bump. simpl. now rewrite lookup_insert_ne.
  - unfold internal.DataStatement, internal.setStatementStat, internal.statementStatOf at 1.
    simpl. now rewrite lookup_insert_eq.
  - repeat split.
Qed.

Lemma processInsertStmt_schema_mode_witness :
  internal.rowsOf "t" (mysql.processInsertStmt demo.E demo.convSchema demo.insert123) = 0 + 1.
Proof.
  destruct (processInsertStmt_schema_mode demo.E demo.convSchema demo.insert123 demo.tableT "t")
    as (Hrows & _).
  - reflexivity.
  - reflexivity.
  - reflexivity.
  - exact Hrows.
Defined.

(** ** The values of a row *)

Section Values.

Variable E : mysql.Externals.

Lemma getValsLoop_rendered (row : list ast.ExprNode) :
  forall (acc values : list string),
  mysql.getValsLoop E row acc = Value values ->
  exists vs, values = (acc ++ vs)%list /\ Forall2 (more.rendered E) row vs.
Proof.
  induction row as [|item row IH]; intros acc values; simpl.
  - intros [= <-]. exists []. split; [now rewrite app_nil_r | constructor].
  - destruct item as [v|op V|ty]; [| |discriminate].
    + intros H. apply IH in H as (vs & -> & Hall).
      exists (mysql.Value_String v :: vs). split; [now rewrite <- app_assoc|].
      constructor; [reflexivity | exact Hall].
    + destruct op; [|discriminate]. destruct V as [val|op' V'|ty']; try discriminate.
      destruct (mysql.getNegativeUnaryVals E val) as [value|e] eqn:Hneg; [|discriminate].
      intros H. apply IH in H as (vs & -> & Hall).
      exists (value :: vs). split; [now rewrite <- app_assoc|].
      constructor; [exact Hneg | exact Hall].
Qed.

Lemma getValsLoop_complete (row : list ast.ExprNode) :
  forall (acc vs : list string),
  Forall2 (more.rendered E) row vs ->
  mysql.getValsLoop E row acc = Value (acc ++ vs)%list.
Proof.
  induction row as [|item row IH]; intros acc vs Hall; inversion Hall as [|? v ? vs' Hr Hrest];
    subst; simpl.
  - now rewrite app_nil_r.
  - destruct item as [val|op V|ty]; simpl in Hr.
    + subst v. rewrite (IH _ vs' Hrest). now rewrite <- app_assoc.
    + destruct op; [|contradiction]. destruct V as [val|op' V'|ty']; try contradiction.
      rewrite Hr, (IH _ vs' Hrest). now rewrite <- app_assoc.
    + contradiction.
Qed.

End Values.

(** X4. [getVals] gives the values of a row exactly when the row is not
    empty and each of its expressions is a literal or a negated literal
    that [getNegativeUnaryVals] accepts; the values are then one per
    expression, in order, each the rendering of its expression.  So a row
    never comes back shortened: one expression of another form fails the
    whole row. *)
Theorem getVals_values
        (E : mysql.Externals) (row : list ast.ExprNode) (values : list string) :
  mysql.getVals E row = Value values
  <-> row <> [] /\ Forall2 (more.rendered E) row values.
Proof.
  unfold mysql.getVals. destruct row as [|item row].
  - simpl. split; [discriminate | intros [H _]; congruence].
  - change (Nat.eqb (List.length (item :: row)) 0) with false. cbv iota. split.
    + intros H. apply getValsLoop_rendered in H as (vs & -> & Hall). now split.
    + intros [_ Hall]. now apply (getValsLoop_complete E (item :: row) []).
Qed.

(** A negated integer literal is rendered with its sign. *)
Example getVals_negative :
  mysql.getVals demo.E [ast.ValueExpr (ast.Int64 7);
                        ast.UnaryOperationExpr ast.Minus (ast.ValueExpr (ast.Int64 42));
                        ast.ValueExpr ast.Nil]
  = Value ["7"; "-42"; "<nil>"].
Proof. reflexivity. Qed.

(** ** Index and key parts *)

(** X5. [toSchemaKeys] keeps, in their order, the parts whose column the
    table knows and silently drops the others: the column ids of the keys
    are the ids found for the parts, so there are no more keys than parts
    and as many when every column is known; and every key is ascending with
    order 0, whatever the part says. *)
Theorem toSchemaKeys_shape
        (columns : list ast.IndexPartSpecification.t) (colNameToIdMap : gmap string string) :
  let keys := mysql.toSchemaKeys columns colNameToIdMap in
  List.map schema.Key.ColId keys = omap (fun spec => colNameToIdMap !! more.partName spec) columns
  /\ Forall (fun k => schema.Key.Desc k = false /\ schema.Key.Order k = 0) keys
  /\ (List.length keys <= List.length columns)%nat
  /\ (Forall (fun spec => is_Some (colNameToIdMap !! more.partName spec)) columns ->
      List.length keys = List.length columns).
Proof.
  induction columns as [|spec rest IH]; simpl.
  - repeat split; [constructor | lia].
  - destruct IH as (Hids & Hasc & Hle & Hall).
    unfold more.partName, ast.ColumnName.OrigColName in *.
    destruct (colNameToIdMap !! _) as [colId|] eqn:Hl; simpl.
    + split; [now rewrite Hids|]. split; [constructor; [now split | exact Hasc]|].
      split; [lia|]. intros H. inversion H; subst. f_equal. now apply Hall.
    + split; [exact Hids|]. split; [exact Hasc|]. split; [lia|].
      intros H. inversion H as [|? ? [x Hx] ?]; subst. congruence.
Qed.

(** ** The columns of a foreign key *)

Lemma fkNames_spec (cs : list ast.IndexPartSpecification.t) :
  forall rs : list ast.IndexPartSpecification.t,
  ((List.length cs <= List.length rs)%nat ->
   mysql.fkNames cs rs
   = Ok (List.map more.partName cs, List.map more.partName (take (List.length cs) rs)))
  /\ ((List.length rs < List.length cs)%nat -> mysql.fkNames cs rs = Panic "index out of range").
Proof.
  induction cs as [|c cs IH]; intros rs; simpl.
  - split; [reflexivity | lia].
  - destruct rs as [|r rs]; simpl.
    + split; [lia | reflexivity].
    + destruct (IH rs) as [Hok Hpanic]. split; intros Hlen.
      * rewrite Hok by lia. reflexivity.
      * rewrite Hpanic by lia. reflexivity.
Qed.

(** X6. For a table-level FOREIGN KEY constraint with a named referenced
    table, [toForeignKeys] pairs the columns of the key with the referenced
    columns by position: with at least as many referenced columns as key
    columns it returns the key with the names of its columns, the names of
    the first referenced columns (as many), the constraint name, the
    referenced table and a fresh id, and only the id counter of the context
    moves; with fewer referenced columns the index runs out of range and
    the call panics. *)
Theorem toForeignKeys_columns
        (conv : internal.Conv.t) (fk : ast.Constraint.t) (refer : ast.ReferenceDef.t)
        (referTable : string) :
  ast.Constraint.Refer fk = Some refer ->
  mysql.getTableName (ast.ReferenceDef.Table refer) = Value referTable ->
  let keys := ast.Constraint.Keys fk in
  let refs := ast.ReferenceDef.IndexPartSpecifications refer in
  ((List.length keys <= List.length refs)%nat ->
   exists fkey,
     mysql.toForeignKeys conv fk
     = Ok (fkey, internal.Conv.setCntr (S (internal.Conv.Cntr conv)) conv)
     /\ schema.ForeignKey.ColumnNames fkey = mysql.sliceOf (List.map more.partName keys)
     /\ schema.ForeignKey.ReferColumnNames fkey
        = List.map more.partName (take (List.length keys) refs)
     /\ List.length (schema.ForeignKey.ReferColumnNames fkey) = List.length keys
     /\ schema.ForeignKey.Name fkey = ast.Constraint.Name fk
     /\ schema.ForeignKey.ReferTableName fkey = referTable
     /\ schema.ForeignKey.ColIds fkey = None
     /\ schema.ForeignKey.Id fkey = ("f" ++ strconv.Itoa (S (internal.Conv.Cntr conv)))%string)
  /\ ((List.length refs < List.length keys)%nat ->
      mysql.toForeignKeys conv fk = Panic "index out of range").
Proof.
  intros Hrefer Hname keys refs. unfold mysql.toForeignKeys. rewrite Hrefer, Hname.
  destruct (fkNames_spec keys refs) as [Hok Hpanic]. fold keys refs. split; intros Hlen.
  - rewrite (Hok Hlen). simpl. eexists. split; [reflexivity|]. simpl.
    repeat split. rewrite length_map, length_take. lia.
  - now rewrite (Hpanic Hlen).
Qed.

Lemma toForeignKeys_columns_witness :
  exists fkey,
    mysql.toForeignKeys demo.convSchema (demo.foreignKeyTo "u")
    = Ok (fkey, internal.Conv.setCntr 5 demo.convSchema)
    /\ schema.ForeignKey.ColumnNames fkey = Some ["a"]
    /\ schema.ForeignKey.ReferColumnNames fkey = ["x"]
    /\ schema.ForeignKey.Id fkey = "f5".
Proof.
  destruct (toForeignKeys_columns demo.convSchema (demo.foreignKeyTo "u")
              (ast.ReferenceDef.mk (ast.TableName.mk "" "u") [demo.key "x" false]
                                   ast.ReferOptionNoOption ast.ReferOptionNoOption) "u")
    as (Hok & _).
  - reflexivity.
  - reflexivity.
  - destruct Hok as (fkey & Hrun & Hcols & Hrefs & _ & _ & _ & _ & Hid); [simpl; lia|].
    exists fkey. split; [exact Hrun|]. split; [exact Hcols|]. split; [exact Hrefs | exact Hid].
Defined.

(** ** Type texts that are not well formed *)

Lemma valuesScan_no_close (s : string) :
  forall cur : option string,
  strings.Contains s ")" = false -> regexp.valuesScan cur s = [].
Proof.
  induction s as [|a s IH]; intros cur H; [reflexivity|].
  rewrite Contains_single_cons in H. apply orb_false_elim in H as [Ha Hs].
  simpl. destruct cur as [acc|].
  - rewrite (Ascii.eqb_sym a ")"), Ha. destruct (Ascii.eqb a strings.nl); now apply IH.
  - destruct (Ascii.eqb a "("); now apply IH.
Qed.

Lemma parseMods_None (strMods : list string) :
  forall acc : list Z,
  Exists (fun s => strconv.ParseInt s = None) strMods -> mysql.parseMods strMods acc = None.
Proof.
  induction strMods as [|s rest IH]; intros acc H; inversion H; subst; simpl.
  - match goal with Hp : strconv.ParseInt s = None |- _ => now rewrite Hp end.
  - destruct (strconv.ParseInt s); [now apply IH | reflexivity].
Qed.

(** X7. A type text with an opening parenthesis and no closing one, other
    than [set(] and [enum(], makes [getTypeModsAndID] panic: the pattern of
    the values finds nothing and the slice of its empty match is out of
    range. *)
Theorem getTypeModsAndID_unclosed_panics (conv : internal.Conv.t) (columnType : string) :
  strings.Contains columnType "(" = true ->
  strings.Contains columnType ")" = false ->
  strings.Before columnType "(" <> "set" ->
  strings.Before columnType "(" <> "enum" ->
  mysql.getTypeModsAndID conv columnType = Panic "slice bounds out of range".
Proof.
  intros Hopen Hclose Hset Henum. unfold mysql.getTypeModsAndID. rewrite Hopen.
  apply String.eqb_neq in Hset, Henum. rewrite Hset, Henum. simpl orb. cbv iota.
  unfold regexp.valuesFindString, regexp.valuesFindAllString.
  now rewrite valuesScan_no_close.
Qed.

Lemma getTypeModsAndID_unclosed_panics_witness :
  mysql.getTypeModsAndID internal.MakeConv "varchar(40" = Panic "slice bounds out of range".
Proof.
  apply getTypeModsAndID_unclosed_panics; [reflexivity | reflexivity | discriminate | discriminate].
Defined.

(** X8. When one of the parenthesized, comma-separated parts of a type
    text is not an integer that fits 64 bits, [getTypeModsAndID] returns
    the text before the parenthesis with no modifier at all (the parts that
    did parse are dropped too) and logs one unexpected condition. *)
Theorem getTypeModsAndID_bad_modifier
        (conv : internal.Conv.t) (id body rest : string) :
  strings.Contains id "(" = false ->
  id <> "set" -> id <> "enum" ->
  strings.Contains body ")" = false ->
  strings.Contains body (String strings.nl EmptyString) = false ->
  Exists (fun s => strconv.ParseInt s = None) (strings.Split body ",") ->
  mysql.getTypeModsAndID conv (id ++ String "(" (body ++ String ")" rest))
  = Ok (id, [], internal.Unexpected ("Unable to get modifiers for `" ++ id ++ "` datatype.") conv).
Proof.
  intros Hid Hset Henum Hp Hn Hbad. unfold mysql.getTypeModsAndID.
  rewrite Contains_single_app, Before_app by assumption.
  apply String.eqb_neq in Hset, Henum. rewrite Hset, Henum. simpl orb. cbv iota.
  rewrite valuesFindString_first by assumption.
  rewrite inner_parens. unfold mbind, res_bind.
  now rewrite (parseMods_None _ [] Hbad).
Qed.

Lemma getTypeModsAndID_bad_modifier_witness :
  mysql.getTypeModsAndID internal.MakeConv "decimal(10,x) UNSIGNED"
  = Ok ("decimal", [],
        internal.Unexpected "Unable to get modifiers for `decimal` datatype." internal.MakeConv).
Proof.
  apply (getTypeModsAndID_bad_modifier internal.MakeConv "decimal" "10,x" " UNSIGNED");
    [reflexivity | discriminate | discriminate | reflexivity | reflexivity |].
  apply Exists_cons_tl, Exists_cons_hd. reflexivity.
Defined.

(** ** Parse errors that are repaired without statements *)

Section Repairs.

Import internal.

Variable E : mysql.Externals.

Lemma spatialLoop_data_mode (conv : Conv.t) (chunk errMsg : string) (n : nat)
      (types : list string) :
  SchemaMode conv = false ->
  Exists (fun spatial => strings.Contains errMsg ("near " ++ mysql.dquote ++ spatial) = true) types ->
  mysql.spatialLoop E conv chunk errMsg n types = ([], true, conv).
Proof.
  intros Hmode. induction types as [|spatial rest IH]; intros H; inversion H; subst; simpl.
  - match goal with Hc : strings.Contains _ _ = true |- _ => rewrite Hc end.
    rewrite Hmode. unfold mysql.handleSpatialDatatype. now rewrite Hmode.
  - destruct (strings.Contains errMsg _); [|now apply IH].
    rewrite Hmode. unfold mysql.handleSpatialDatatype. now rewrite Hmode.
Qed.

Lemma skipUnsupported_spec (conv : Conv.t) (chunk : string) :
  let found := strings.Contains chunk "trigger" || strings.Contains chunk "procedure"
               || strings.Contains chunk "function" in
  fst (mysql.skipUnsupported conv chunk) = found
  /\ (found = false -> snd (mysql.skipUnsupported conv chunk) = conv)
  /\ Conv.SrcSchema (snd (mysql.skipUnsupported conv chunk)) = Conv.SrcSchema conv
  /\ stats.Unexpected (Conv.Stats (snd (mysql.skipUnsupported conv chunk)))
     = stats.Unexpected (Conv.Stats conv).
Proof.
  unfold mysql.skipUnsupported.
  destruct (strings.Contains chunk "trigger"), (strings.Contains chunk "procedure"),
    (strings.Contains chunk "function"); simpl; repeat split; discriminate.
Qed.

End Repairs.

(** X9. In data mode, a chunk whose parse error is near a spatial type
    name (and which is neither about stored programs or delimiters nor an
    insert) is given up without a word: [handleParseError] reports success
    with no statement, the context is unchanged and the parser is not
    called again. *)
Theorem handleParseError_spatial_data_mode
        (E : mysql.Externals) (conv : internal.Conv.t) (chunk err : string) (l : list string) :
  internal.SchemaMode conv = false ->
  regexp.unsupportedMatchString (strings.ToLower err)
  || strings.Contains (strings.ToLower err) "delimiter" = false ->
  regexp.insertFind chunk = None ->
  Exists (fun spatial =>
            strings.Contains (strings.ToLower err) ("near " ++ mysql.dquote ++ spatial) = true)
         mysql.MysqlSpatialDataTypes ->
  mysql.handleParseError E conv chunk err l = Ok ([], true, conv).
Proof.
  intros Hmode Herr Hfind Hnear. unfold mysql.handleParseError.
  rewrite Herr. unfold regexp.insertFindString. rewrite Hfind. simpl negb. cbv iota.
  now rewrite spatialLoop_data_mode.
Qed.

Lemma handleParseError_spatial_data_mode_witness :
  mysql.handleParseError demo.E demo.convData "CREATE TABLE g (p point);"
    ("line 1 column 22 near " ++ mysql.dquote ++ "point);" ++ mysql.dquote) []
  = Ok ([], true, demo.convData).
Proof.
  apply handleParseError_spatial_data_mode; [reflexivity | reflexivity | reflexivity |].
  do 4 apply Exists_cons_tl. apply Exists_cons_hd. reflexivity.
Defined.

(** X10. A parse error that mentions a function, a procedure, a trigger or
    a delimiter never yields statements and never touches the source
    schema or the log of unexpected conditions.  If the chunk mentions
    [delimiter] exactly once, [handleParseError] reports no success and
    leaves the context alone, so that reading goes on to the second
    delimiter; otherwise it reports success exactly when the chunk, in
    lower case, mentions a trigger, a procedure or a function. *)
Theorem handleParseError_stored_programs
        (E : mysql.Externals) (conv : internal.Conv.t) (chunk err : string) (l : list string) :
  regexp.unsupportedMatchString (strings.ToLower err)
  || strings.Contains (strings.ToLower err) "delimiter" = true ->
  let lower := strings.ToLower chunk in
  exists (ok : bool) (conv' : internal.Conv.t),
    mysql.handleParseError E conv chunk err l = Ok ([], ok, conv')
    /\ internal.Conv.SrcSchema conv' = internal.Conv.SrcSchema conv
    /\ internal.stats.Unexpected (internal.Conv.Stats conv')
       = internal.stats.Unexpected (internal.Conv.Stats conv)
    /\ (strings.Count lower "delimiter" = 1 -> ok = false /\ conv' = conv)
    /\ (strings.Count lower "delimiter" <> 1 ->
        ok = strings.Contains lower "trigger" || strings.Contains lower "procedure"
             || strings.Contains lower "function")
    /\ (ok = false -> conv' = conv).
Proof.
  intros Herr lower. unfold mysql.handleParseError. rewrite Herr. fold lower.
  destruct (skipUnsupported_spec conv lower) as (Hok & Hsame & Hsrc & Hun).
  destruct (strings.Count lower "delimiter" =? 1) eqn:Hcount.
  - apply Z.eqb_eq in Hcount. exists false, conv. repeat split; congruence.
  - apply Z.eqb_neq in Hcount.
    destruct (mysql.skipUnsupported conv lower) as [ok conv'] eqn:Hskip. simpl in *.
    exists ok, conv'. repeat split; try assumption; try congruence.
    intros Hfalse. apply Hsame. congruence.
Qed.

Lemma handleParseError_stored_programs_witness :
  exists conv',
    mysql.handleParseError demo.E internal.MakeConv
      "DELIMITER ;; CREATE TRIGGER trg BEFORE INSERT ON t FOR EACH ROW SET @a = 1;; DELIMITER ;"
      "syntax error near DELIMITER" []
    = Ok ([], true, conv')
    /\ internal.Conv.SrcSchema conv' = internal.Conv.SrcSchema internal.MakeConv.
Proof.
  destruct (handleParseError_stored_programs demo.E internal.MakeConv
              "DELIMITER ;; CREATE TRIGGER trg BEFORE INSERT ON t FOR EACH ROW SET @a = 1;; DELIMITER ;"
              "syntax error near DELIMITER" [])
    as (ok & conv' & Hrun & Hsrc & _ & _ & Hok & _).
  - reflexivity.
  - exists conv'. split; [|exact Hsrc].
    rewrite Hrun. rewrite Hok by (vm_compute; discriminate). reflexivity.
Defined.

(** ** Primary keys and NOT NULL *)

Lemma updated_idem (ct : ast.ConstraintType) (cd : schema.Column.t) :
  more.updated ct (more.updated ct cd) = more.updated ct cd.
Proof. destruct ct, cd; reflexivity. Qed.

Lemma updateCols_lookup (ct : ast.ConstraintType) (names : list ast.IndexPartSpecification.t)
      (m : gmap string string) :
  forall colDef : gmap string schema.Column.t,
  exists colDef',
    mysql.updateCols ct names false colDef m = Ok colDef'
    /\ forall cid,
         colDef' !! cid
         = if decide (cid ∈ more.keyIds names m)
           then Some (more.updated ct (default schema.Column.zero (colDef !! cid)))
           else colDef !! cid.
Proof.
  induction names as [|column rest IH]; intros colDef.
  - exists colDef. split; [reflexivity|]. intros cid.
    destruct (decide _) as [H|_]; [now apply elem_of_nil in H | reflexivity].
  - simpl mysql.updateCols.
    set (cid0 := default "" (m !! ast.ColumnName.OrigColName
                                    (ast.IndexPartSpecification.Column column))).
    set (cd0 := default schema.Column.zero (colDef !! cid0)).
    assert (Hstep :
              match ct with
              | ast.ConstraintCheck => schema.Column.setCheck cd0
              | ast.ConstraintPrimaryKey => schema.Column.setNotNull cd0
              | _ => cd0
              end = more.updated ct cd0) by reflexivity.
    rewrite Hstep.
    destruct (IH (<[cid0 := more.updated ct cd0]> colDef)) as (colDef' & Hrun & Hlook).
    exists colDef'. split; [exact Hrun|]. intros cid. rewrite Hlook.
    change (more.keyIds (column :: rest) m) with (cid0 :: more.keyIds rest m).
    destruct (decide (cid = cid0)) as [->|Hne].
    + rewrite lookup_insert_eq. simpl default.
      rewrite (decide_True (P := cid0 ∈ cid0 :: more.keyIds rest m)) by (apply elem_of_cons; now left).
      destruct (decide _); [now rewrite updated_idem | reflexivity].
    + rewrite lookup_insert_ne by congruence.
      destruct (decide (cid ∈ more.keyIds rest m)) as [Hin|Hnin].
      * now rewrite decide_True by (apply elem_of_cons; now right).
      * rewrite decide_False; [reflexivity|].
        intros Hc. apply elem_of_cons in Hc as [?|?]; contradiction.
Qed.

(** X11. A table-level PRIMARY KEY constraint on an existing table makes
    every column it names NOT NULL and changes nothing else of the column
    definitions: a definition is rewritten exactly when its id is the id
    of a key part (a part naming an unknown column counts under the empty
    id), and then only its NOT NULL flag is set.  Apart from the primary
    key and the column definitions the table is as before. *)
Theorem processConstraint_primary_key_not_null
        (conv : internal.Conv.t) (tableId : string) (constraint : ast.Constraint.t)
        (stmtType : string) (colNameToIdMap : gmap string string) (st : schema.Table.t) :
  internal.Conv.SrcSchema conv !! tableId = Some st ->
  ast.Constraint.Tp constraint = ast.ConstraintPrimaryKey ->
  exists conv' st',
    mysql.processConstraint conv tableId constraint stmtType colNameToIdMap = Ok conv'
    /\ internal.Conv.SrcSchema conv' !! tableId = Some st'
    /\ (forall cid,
          schema.Table.ColDefs st' !! cid
          = if decide (cid ∈ more.keyIds (ast.Constraint.Keys constraint) colNameToIdMap)
            then Some (schema.Column.setNotNull
                         (default schema.Column.zero (schema.Table.ColDefs st !! cid)))
            else schema.Table.ColDefs st !! cid)
    /\ (forall spec cid cd,
          spec ∈ ast.Constraint.Keys constraint ->
          colNameToIdMap !! more.partName spec = Some cid ->
          schema.Table.ColDefs st !! cid = Some cd ->
          exists cd',
            schema.Table.ColDefs st' !! cid = Some cd'
            /\ schema.Column.NotNull cd' = true
            /\ schema.Column.Name cd' = schema.Column.Name cd
            /\ schema.Column.Ty cd' = schema.Column.Ty cd
            /\ schema.Column.Id cd' = schema.Column.Id cd
            /\ schema.Column.Ignored cd' = schema.Column.Ignored cd)
    /\ schema.Table.Id st' = schema.Table.Id st
    /\ schema.Table.Name st' = schema.Table.Name st
    /\ schema.Table.ColIds st' = schema.Table.ColIds st
    /\ schema.Table.ColNameIdMap st' = schema.Table.ColNameIdMap st
    /\ schema.Table.ForeignKeys st' = schema.Table.ForeignKeys st
    /\ schema.Table.Indexes st' = schema.Table.Indexes st
    /\ schema.Table.CheckConstraints st' = schema.Table.CheckConstraints st.
Proof.
  intros Hst Htp. unfold mysql.processConstraint. rewrite Hst, Htp. simpl default.
  rewrite bool_decide_eq_false_2 by discriminate.
  destruct (updateCols_lookup ast.ConstraintPrimaryKey (ast.Constraint.Keys constraint)
              colNameToIdMap
              (schema.Table.ColDefs
                 (schema.Table.setPrimaryKeys
                    (mysql.toSchemaKeys (ast.Constraint.Keys constraint) colNameToIdMap) st)))
    as (colDefs & Hrun & Hlook).
  rewrite Hrun.
  change (schema.Table.ColDefs (schema.Table.setPrimaryKeys _ st))
    with (schema.Table.ColDefs st) in Hlook.
  simpl.
  eexists _, _. split; [reflexivity|]. split; [apply lookup_insert_eq|]. simpl.
  split; [exact Hlook|]. split; [|repeat split].
  intros spec cid cd Hin Hid Hcd. exists (schema.Column.setNotNull cd).
  rewrite Hlook. rewrite decide_True.
  - rewrite Hcd. simpl. repeat split.
  - unfold more.keyIds. apply list_elem_of_fmap. exists spec. split; [|exact Hin].
    now rewrite Hid.
Qed.

Lemma processConstraint_primary_key_not_null_witness :
  exists conv' st' cd',
    mysql.processConstraint demo.convSchema "t1" demo.primaryKeyB "ALTER TABLE"
                            (schema.Table.ColNameIdMap demo.tableT1) = Ok conv'
    /\ internal.Conv.SrcSchema conv' !! "t1" = Some st'
    /\ schema.Table.ColDefs st' !! "c3" = Some cd'
    /\ schema.Column.NotNull cd' = true
    /\ schema.Column.Name cd' = "b".
Proof.
  destruct (processConstraint_primary_key_not_null demo.convSchema "t1" demo.primaryKeyB
              "ALTER TABLE" (schema.Table.ColNameIdMap demo.tableT1) demo.tableT1)
    as (conv' & st' & Hrun & Hst & _ & Hkeys & _).
  - vm_compute. reflexivity.
  - reflexivity.
  - destruct (Hkeys (demo.key "b" false) "c3" (demo.column "b" "varchar" "c3" false))
      as (cd' & Hcd & Hnn & Hname & _).
    + apply elem_of_cons; now left.
    + vm_compute. reflexivity.
    + vm_compute. reflexivity.
    + exists conv', st', cd'. repeat split; assumption.
Defined.

(** ** The options of a column definition *)

Lemma logOnly_refl (c : internal.Conv.t) : more.logOnly c c.
Proof. destruct c as [? ? ? [] ? ? ?]; reflexivity. Qed.

Lemma logOnly_trans (a b c : internal.Conv.t) :
  more.logOnly a b -> more.logOnly b c -> more.logOnly a c.
Proof. unfold more.logOnly. intros -> ->. reflexivity. Qed.

Lemma logOnly_Unexpected (u : string) (c : internal.Conv.t) :
  more.logOnly c (internal.Unexpected u c).
Proof. destruct c as [? ? ? [] ? ? ?]; reflexivity. Qed.

Ltac options_done :=
  simpl in *; rewrite ?orb_true_r, ?orb_false_r, ?orb_true_l, ?orb_false_l;
  repeat split; auto; try discriminate;
  try match goal with
      | Hn : ?P -> _ /\ _, H : ?P |- _ => destruct (Hn H); subst; auto; fail
      end.

Lemma updateColsByOption_loop (colName : string) (options : list ast.ColumnOption.t) :
  forall (column : schema.Column.t) (cc : mysql.columnConstraint.t) (conv : internal.Conv.t)
         (column' : schema.Column.t) (cc' : mysql.columnConstraint.t) (conv' : internal.Conv.t),
  forRange (mysql.updateColsByOptionStep colName) options (column, cc, conv)
  = Ok (column', cc', conv') ->
  mysql.columnConstraint.isPk cc'
  = mysql.columnConstraint.isPk cc || existsb more.optPrimaryKey options
  /\ mysql.columnConstraint.isUniqueKey cc'
     = mysql.columnConstraint.isUniqueKey cc || existsb more.optUniqKey options
  /\ schema.Column.NotNull column'
     = schema.Column.NotNull column
       || existsb (fun o => more.optPrimaryKey o || more.optNotNull o) options
  /\ schema.Ignored.AutoIncrement (schema.Column.Ignored column')
     = schema.Ignored.AutoIncrement (schema.Column.Ignored column)
       || existsb more.optAutoIncrement options
  /\ schema.Ignored.Check (schema.Column.Ignored column')
     = schema.Ignored.Check (schema.Column.Ignored column) || existsb more.optCheck options
  /\ schema.Ignored.Default (schema.Column.Ignored column')
     = schema.Ignored.Default (schema.Column.Ignored column) || existsb more.optDefault options
  /\ schema.Column.Name column' = schema.Column.Name column
  /\ schema.Column.Ty column' = schema.Column.Ty column
  /\ schema.Column.Id column' = schema.Column.Id column
  /\ (schema.ForeignKey.ColIds (mysql.columnConstraint.fk cc) = None ->
      schema.ForeignKey.ColIds (mysql.columnConstraint.fk cc') = None)
  /\ (schema.ForeignKey.Id (mysql.columnConstraint.fk cc) = "" ->
      schema.ForeignKey.Id (mysql.columnConstraint.fk cc') = "")
  /\ (existsb more.optReference options = false ->
      mysql.columnConstraint.fk cc' = mysql.columnConstraint.fk cc /\ conv' = conv)
  /\ more.logOnly conv conv'.
Proof.
  induction options as [|elem rest IH]; intros column cc conv column' cc' conv' H.
  - injection H as <- <- <-. simpl. rewrite !orb_false_r.
    repeat split; auto using logOnly_refl.
  - rewrite forRange_cons in H.
    destruct (mysql.updateColsByOptionStep colName (column, cc, conv) elem)
      as [[[column1 cc1] conv1]|why] eqn:Hstep; [|discriminate H].
    change (forRange (mysql.updateColsByOptionStep colName) rest (column1, cc1, conv1)
            = Ok (column', cc', conv')) in H.
    apply IH in H.
    destruct H as (Hpk & Huniq & Hnn & Hauto & Hcheck & Hdef & Hname & Hty & Hid
                   & Hcolids & Hfkid & Hnoref & Hstats).
    rewrite Hpk, Huniq, Hnn, Hauto, Hcheck, Hdef, Hname, Hty, Hid. clear Hpk Huniq Hnn Hauto Hcheck Hdef Hname Hty Hid.
    clear IH. unfold mysql.updateColsByOptionStep in Hstep.
    simpl existsb.
    unfold more.optPrimaryKey, more.optUniqKey, more.optNotNull, more.optAutoIncrement,
      more.optCheck, more.optDefault, more.optReference in *.
    destruct column as [name ty nn [chk auto dflt] id], cc as [pk uniq fk].
    revert Hstep.
    destruct (ast.ColumnOption.Tp elem) eqn:Htp; intros Hstep;
      try (injection Hstep as <- <- <-; options_done; fail).
    + (* default value *)
      injection Hstep as <- <- <-.
      destruct (ast.ColumnOption.Expr elem) as [[[| | |]| |]|]; options_done.
    + (* reference *)
      destruct (ast.ColumnOption.Refer elem) as [refer|]; [|discriminate Hstep].
      destruct (mysql.getTableName (ast.ReferenceDef.Table refer)) as [referTable|err].
      * destruct (ast.ReferenceDef.IndexPartSpecifications refer) as [|r rs];
          [discriminate Hstep|].
        injection Hstep as <- <- <-. options_done.
      * injection Hstep as <- <- <-. options_done.
Qed.

(** X12. Whenever [updateColsByOption] returns, the constraint it returns
    and the column it has updated are read off the options by kind: the
    column is a primary key exactly when some option says so and unique
    exactly when some option says so; it is NOT NULL exactly when it was
    before or some option is PRIMARY KEY or NOT NULL; the ignored flags
    are raised exactly by AUTO_INCREMENT, CHECK and a DEFAULT that is not
    the literal NULL; name, type and id are never touched.  The foreign
    key returned never has column ids nor an id, and the context differs
    at most in its log of unexpected conditions. *)
Theorem updateColsByOption_flags
        (conv : internal.Conv.t) (colName : string) (options : list ast.ColumnOption.t)
        (column column' : schema.Column.t) (cc : mysql.columnConstraint.t)
        (conv' : internal.Conv.t) :
  mysql.updateColsByOption conv colName options column = Ok (column', cc, conv') ->
  mysql.columnConstraint.isPk cc = existsb more.optPrimaryKey options
  /\ mysql.columnConstraint.isUniqueKey cc = existsb more.optUniqKey options
  /\ schema.Column.NotNull column'
     = schema.Column.NotNull column
       || existsb (fun o => more.optPrimaryKey o || more.optNotNull o) options
  /\ schema.Ignored.AutoIncrement (schema.Column.Ignored column')
     = schema.Ignored.AutoIncrement (schema.Column.Ignored column)
       || existsb more.optAutoIncrement options
  /\ schema.Ignored.Check (schema.Column.Ignored column')
     = schema.Ignored.Check (schema.Column.Ignored column) || existsb more.optCheck options
  /\ schema.Ignored.Default (schema.Column.Ignored column')
     = schema.Ignored.Default (schema.Column.Ignored column) || existsb more.optDefault options
  /\ schema.Column.Name column' = schema.Column.Name column
  /\ schema.Column.Ty column' = schema.Column.Ty column
  /\ schema.Column.Id column' = schema.Column.Id column
  /\ schema.ForeignKey.ColIds (mysql.columnConstraint.fk cc) = None
  /\ schema.ForeignKey.Id (mysql.columnConstraint.fk cc) = ""
  /\ more.logOnly conv conv'.
Proof.
  intros H. apply updateColsByOption_loop in H.
  destruct H as (Hpk & Huniq & Hnn & Hauto & Hcheck & Hdef & Hname & Hty & Hid
                 & Hcolids & Hfkid & _ & Hstats).
  repeat split; try assumption.
  - exact (Hcolids eq_refl).
  - exact (Hfkid eq_refl).
Qed.

Lemma updateColsByOption_flags_witness :
  exists column' cc conv',
    mysql.updateColsByOption internal.MakeConv "a"
      [ast.ColumnOption.mk ast.ColumnOptionDefaultValue (Some (ast.ValueExpr ast.Nil)) None;
       ast.ColumnOption.mk ast.ColumnOptionPrimaryKey None None]
      (demo.column "a" "int" "" false)
    = Ok (column', cc, conv')
    /\ mysql.columnConstraint.isPk cc = true
    /\ schema.Column.NotNull column' = true
    /\ schema.Ignored.Default (schema.Column.Ignored column') = false.
Proof.
  eexists _, _, _. split; [reflexivity|].
  destruct (updateColsByOption_flags internal.MakeConv "a"
              [ast.ColumnOption.mk ast.ColumnOptionDefaultValue (Some (ast.ValueExpr ast.Nil)) None;
               ast.ColumnOption.mk ast.ColumnOptionPrimaryKey None None]
              (demo.column "a" "int" "" false) _ _ _ eq_refl)
    as (Hpk & _ & Hnn & _ & _ & Hdef & _).
  split; [exact Hpk|]. split; [exact Hnn | exact Hdef].
Defined.

Lemma updateColsByOptionStep_no_reference
      (colName : string) (column : schema.Column.t) (cc : mysql.columnConstraint.t)
      (conv : internal.Conv.t) (elem : ast.ColumnOption.t) :
  more.optReference elem = false ->
  exists column1 cc1,
    mysql.updateColsByOptionStep colName (column, cc, conv) elem = Ok (column1, cc1, conv).
Proof.
  unfold more.optReference, mysql.updateColsByOptionStep. intros H.
  destruct (ast.ColumnOption.Tp elem); try discriminate H; eexists _, _; reflexivity.
Qed.

(** X13. Without a REFERENCES option, [updateColsByOption] cannot panic:
    it returns, the context is exactly as before, and the foreign key of
    the constraint is the zero value. *)
Theorem updateColsByOption_no_reference
        (conv : internal.Conv.t) (colName : string) (options : list ast.ColumnOption.t)
        (column : schema.Column.t) :
  existsb more.optReference options = false ->
  exists column' cc,
    mysql.updateColsByOption conv colName options column = Ok (column', cc, conv)
    /\ mysql.columnConstraint.fk cc = schema.ForeignKey.zero.
Proof.
  unfold mysql.updateColsByOption. intros H.
  assert (Hrun : forall column cc0, exists column' cc conv',
             forRange (mysql.updateColsByOptionStep colName) options (column, cc0, conv)
             = Ok (column', cc, conv')).
  { induction options as [|elem rest IH]; intros column0 cc0.
    - now exists column0, cc0, conv.
    - simpl in H. apply orb_false_elim in H as [Helem Hrest].
      rewrite forRange_cons.
      destruct (updateColsByOptionStep_no_reference colName column0 cc0 conv elem Helem)
        as (column1 & cc1 & ->).
      apply (IH Hrest). }
  destruct (Hrun column mysql.columnConstraint.zero) as (column' & cc & conv' & Hok).
  destruct (updateColsByOption_loop _ _ _ _ _ _ _ _ Hok)
    as (_ & _ & _ & _ & _ & _ & _ & _ & _ & _ & _ & Hnoref & _).
  destruct (Hnoref H) as [Hfk ->]. exists column', cc. split; [exact Hok | exact Hfk].
Qed.

Lemma updateColsByOption_no_reference_witness :
  exists column' cc,
    mysql.updateColsByOption demo.convSchema "a"
      [ast.ColumnOption.mk ast.ColumnOptionNotNull None None;
       ast.ColumnOption.mk ast.ColumnOptionUniqKey None None]
      (demo.column "a" "int" "" false)
    = Ok (column', cc, demo.convSchema)
    /\ mysql.columnConstraint.fk cc = schema.ForeignKey.zero.
Proof.
  apply (updateColsByOption_no_reference demo.convSchema "a"
           [ast.ColumnOption.mk ast.ColumnOptionNotNull None None;
            ast.ColumnOption.mk ast.ColumnOptionUniqKey None None]).
  reflexivity.
Defined.

(** ** Contexts that only log and draw ids *)

Lemma Itoa_inj (n m : nat) : strconv.Itoa n = strconv.Itoa m -> n = m.
Proof.
  unfold strconv.Itoa. intros H.
  apply (f_equal NilEmpty.uint_of_string) in H. rewrite !NilEmpty.usu in H.
  injection H as H. now apply DecimalNat.Unsigned.to_uint_inj.
Qed.

Lemma quiet_refl (c : internal.Conv.t) : more.quiet c c.
Proof. split; [destruct c as [? ? ? [] ? ? ?]; reflexivity | lia]. Qed.

Lemma quiet_trans (a b c : internal.Conv.t) :
  more.quiet a b -> more.quiet b c -> more.quiet a c.
Proof.
  destruct a as [? ? ? [] ? ? ?], b as [? ? ? [] ? ? ?], c as [? ? ? [] ? ? ?].
  unfold more.quiet. simpl. intros [Hab Hle] [Hbc Hle'].
  injection Hab; injection Hbc; intros; subst. split; [reflexivity | lia].
Qed.

Lemma quiet_logOnly (a b : internal.Conv.t) : more.logOnly a b -> more.quiet a b.
Proof.
  destruct a as [? ? ? [] ? ? ?], b as [? ? ? [] ? ? ?].
  unfold more.logOnly, more.quiet. simpl. intros H.
  injection H; intros; subst. split; [reflexivity | lia].
Qed.

Lemma quiet_GenerateId (prefix : string) (c : internal.Conv.t) :
  more.quiet c (snd (internal.GenerateId prefix c)).
Proof. split; [destruct c as [? ? ? [] ? ? ?]; reflexivity | simpl; lia]. Qed.

Lemma quiet_fields (a b : internal.Conv.t) :
  more.quiet a b ->
  internal.Conv.SrcSchema b = internal.Conv.SrcSchema a
  /\ internal.Conv.SpSchema b = internal.Conv.SpSchema a
  /\ internal.Conv.mode_ b = internal.Conv.mode_ a
  /\ internal.Conv.Sink b = internal.Conv.Sink a
  /\ internal.Conv.TimezoneOffset b = internal.Conv.TimezoneOffset a
  /\ internal.stats.Statement (internal.Conv.Stats b)
     = internal.stats.Statement (internal.Conv.Stats a)
  /\ internal.stats.Rows (internal.Conv.Stats b) = internal.stats.Rows (internal.Conv.Stats a)
  /\ internal.stats.BadRows (internal.Conv.Stats b)
     = internal.stats.BadRows (internal.Conv.Stats a).
Proof. intros [-> _]. repeat split. Qed.

(** ** Column definitions *)

Lemma getTypeModsAndID_logOnly (conv : internal.Conv.t) (columnType id : string)
      (mods : list Z) (conv' : internal.Conv.t) :
  mysql.getTypeModsAndID conv columnType = Ok (id, mods, conv') -> more.logOnly conv conv'.
Proof.
  unfold mysql.getTypeModsAndID.
  destruct (strings.Contains columnType "(");
    [|intros [= <- <- <-]; apply logOnly_refl].
  destruct (_ || _); [intros [= <- <- <-]; apply logOnly_refl|].
  destruct (strings.inner _) as [body|why]; simpl; [|discriminate].
  destruct (mysql.parseMods _ _); intros [= <- <- <-];
    [apply logOnly_refl | apply logOnly_Unexpected].
Qed.

Lemma processColumn_spec (conv : internal.Conv.t) (col : ast.ColumnDef.t)
      (r : Errorable (string * schema.Column.t * mysql.columnConstraint.t))
      (conv' : internal.Conv.t) :
  mysql.processColumn conv col = Ok (r, conv') ->
  more.logOnly conv conv'
  /\ match r with
     | Error _ => more.malformed col = true
     | Value (name, column, cc) =>
         more.malformed col = false
         /\ (ast.ColumnName.OrigColName <$> ast.ColumnDef.Name col) = Some name
         /\ schema.Column.Name column = name
         /\ schema.Column.Id column = ""
         /\ schema.Column.NotNull column
            = existsb (fun o => more.optPrimaryKey o || more.optNotNull o)
                      (ast.ColumnDef.Options col)
         /\ mysql.columnConstraint.isPk cc
            = existsb more.optPrimaryKey (ast.ColumnDef.Options col)
         /\ mysql.columnConstraint.isUniqueKey cc
            = existsb more.optUniqKey (ast.ColumnDef.Options col)
         /\ schema.ForeignKey.ColIds (mysql.columnConstraint.fk cc) = None
     end.
Proof.
  unfold mysql.processColumn, more.malformed.
  destruct (ast.ColumnDef.Name col) as [colName|];
    [|intros [= <- <-]; split; [apply logOnly_refl | reflexivity]].
  destruct (ast.ColumnDef.Tp col) as [tp|];
    [|intros [= <- <-]; split; [apply logOnly_refl | reflexivity]].
  destruct (mysql.getTypeModsAndID conv (ast.FieldType.String tp))
    as [[[tid mods] conv1]|why] eqn:Hty; simpl; [|discriminate].
  apply getTypeModsAndID_logOnly in Hty.
  destruct (mysql.updateColsByOption conv1 _ _ _) as [[[column cc] conv2]|why] eqn:Hopt;
    simpl; [|discriminate].
  intros [= <- <-]. unfold mysql.updateColsByOption in Hopt.
  apply updateColsByOption_loop in Hopt.
  destruct Hopt as (Hpk & Huniq & Hnn & _ & _ & _ & Hname & _ & Hid & Hcolids & _ & _ & Hlog).
  specialize (Hcolids eq_refl).
  split; [eapply logOnly_trans; eassumption|].
  repeat split; assumption.
Qed.

(** ** The column loop of CREATE TABLE *)

Lemma colId_inj (n m : nat) : ("c" ++ strconv.Itoa n)%string = ("c" ++ strconv.Itoa m)%string -> n = m.
Proof. rewrite !append_cons, !append_nil. intros [= H]. now apply Itoa_inj. Qed.

Lemma colId_fresh (bound : nat) (ids : list string) :
  Forall (fun id => exists n, id = ("c" ++ strconv.Itoa n)%string /\ (n <= bound)%nat) ids ->
  ("c" ++ strconv.Itoa (S bound))%string ∉ ids.
Proof.
  intros Hall Hin. rewrite Forall_forall in Hall.
  destruct (Hall _ Hin) as (n & Heq & Hle).
  apply colId_inj in Heq. lia.
Qed.

Lemma colsInv_step (bound bound' : nat) (acc : mysql.tableAcc.t) (col : schema.Column.t)
      (keys : list schema.Key.t) (fkeys : list schema.ForeignKey.t)
      (index : list schema.Index.t) :
  let id := ("c" ++ strconv.Itoa (S bound))%string in
  let col' := schema.Column.setId id col in
  (S bound <= bound')%nat ->
  more.colsInv bound acc ->
  (keys = mysql.tableAcc.keys acc
   \/ keys = (mysql.tableAcc.keys acc ++ [schema.Key.mk id false 0])%list) ->
  more.colsInv bound'
    (mysql.tableAcc.mk (mysql.tableAcc.colIds acc ++ [id])
                       (<[id := col']> (mysql.tableAcc.colDef acc))
                       (<[schema.Column.Name col' := id]> (mysql.tableAcc.colNameIdMap acc))
                       keys fkeys index)
  /\ (forall id0 cd, mysql.tableAcc.colDef acc !! id0 = Some cd ->
                     <[id := col']> (mysql.tableAcc.colDef acc) !! id0 = Some cd).
Proof.
  intros id col' Hle (Hbound & Hnodup & Hdefs & Hids & Hnames & Hkeys) Hk.
  pose proof (colId_fresh bound _ Hbound) as Hfresh. fold id in Hfresh.
  assert (Hold : forall id0 cd, mysql.tableAcc.colDef acc !! id0 = Some cd ->
                                <[id := col']> (mysql.tableAcc.colDef acc) !! id0 = Some cd).
  { intros id0 cd H. rewrite lookup_insert_ne; [exact H|].
    intros <-. apply Hfresh. now apply (Hdefs _ _ H). }
  split; [|exact Hold].
  unfold more.colsInv. simpl. split; [|split; [|split; [|split; [|split]]]].
  - apply Forall_app. split.
    + eapply Forall_impl; [exact Hbound|]. intros x (n & -> & Hn). exists n. split; [reflexivity | lia].
    + constructor; [|constructor]. exists (S bound). split; [reflexivity | lia].
  - apply NoDup_app. split; [exact Hnodup|]. split.
    + intros x Hx Hx'. apply list_elem_of_singleton in Hx'. subst x. now apply Hfresh.
    + apply NoDup_singleton.
  - intros id0 cd H. destruct (decide (id0 = id)) as [->|Hne].
    + rewrite lookup_insert_eq in H. injection H as <-. split; [|reflexivity].
      apply elem_of_app. right. apply list_elem_of_singleton. reflexivity.
    + rewrite lookup_insert_ne in H by congruence. destruct (Hdefs _ _ H) as [Hin Hid].
      split; [|exact Hid]. apply elem_of_app. now left.
  - intros id0 Hin. apply elem_of_app in Hin as [Hin|Hin].
    + destruct (Hids _ Hin) as [cd Hcd]. exists cd. now apply Hold.
    + apply list_elem_of_singleton in Hin. subst id0. rewrite lookup_insert_eq. now eexists.
  - intros name id0 H. destruct (decide (name = schema.Column.Name col')) as [->|Hne].
    + rewrite lookup_insert_eq in H. injection H as <-. exists col'.
      split; [apply lookup_insert_eq | reflexivity].
    + rewrite lookup_insert_ne in H by (intros Heq; apply Hne; now rewrite <- Heq).
      destruct (Hnames _ _ H) as (cd & Hcd & Hname). exists cd. split; [now apply Hold | exact Hname].
  - assert (Hkeys' : Forall (fun k => schema.Key.ColId k ∈ (mysql.tableAcc.colIds acc ++ [id])%list)
                            (mysql.tableAcc.keys acc)).
    { eapply Forall_impl; [exact Hkeys|]. intros k Hin. apply elem_of_app. now left. }
    destruct Hk as [->| ->]; [exact Hkeys'|].
    apply Forall_app. split; [exact Hkeys'|]. constructor; [|constructor].
    simpl. apply elem_of_app. right. apply list_elem_of_singleton. reflexivity.
Qed.

Lemma logOnly_Cntr (a b : internal.Conv.t) :
  more.logOnly a b -> internal.Conv.Cntr b = internal.Conv.Cntr a.
Proof. intros ->. reflexivity. Qed.

Lemma processCols_spec (cols : list ast.ColumnDef.t) :
  forall (conv : internal.Conv.t) (acc : mysql.tableAcc.t)
         (r : Errorable mysql.tableAcc.t) (conv' : internal.Conv.t),
  mysql.processCols conv cols acc = Ok (r, conv') ->
  more.quiet conv conv'
  /\ match r with
     | Error _ => existsb more.malformed cols = true
     | Value acc' =>
         existsb more.malformed cols = false
         /\ (more.colsInv (internal.Conv.Cntr conv) acc ->
             more.colsInv (internal.Conv.Cntr conv') acc'
             /\ (forall id cd, mysql.tableAcc.colDef acc !! id = Some cd ->
                               mysql.tableAcc.colDef acc' !! id = Some cd)
             /\ (forall name, is_Some (mysql.tableAcc.colNameIdMap acc !! name) ->
                              is_Some (mysql.tableAcc.colNameIdMap acc' !! name))
             /\ exists ids,
                 mysql.tableAcc.colIds acc' = (mysql.tableAcc.colIds acc ++ ids)%list
                 /\ Forall2
                      (fun id col =>
                         exists cd colName,
                           mysql.tableAcc.colDef acc' !! id = Some cd
                           /\ ast.ColumnDef.Name col = Some colName
                           /\ schema.Column.Name cd = ast.ColumnName.OrigColName colName
                           /\ is_Some (mysql.tableAcc.colNameIdMap acc'
                                         !! ast.ColumnName.OrigColName colName))
                      ids cols)
     end.
Proof.
  induction cols as [|element rest IH]; intros conv acc r conv' H.
  - injection H as <- <-. split; [apply quiet_refl|]. split; [reflexivity|].
    intros Hinv. split; [exact Hinv|]. split; [auto|]. split; [auto|].
    exists []. split; [now rewrite app_nil_r | constructor].
  - cbn [mysql.processCols] in H.
    destruct (mysql.processColumn conv element) as [[r1 conv1]|why] eqn:Hcol;
      cbn [mbind res_bind] in H; [|discriminate H].
    apply processColumn_spec in Hcol as [Hlog Hr1].
    pose proof (logOnly_Cntr _ _ Hlog) as Hcntr.
    destruct r1 as [[[name col] cc]|err].
    + destruct Hr1 as (Hwf & Hname & Hcolname & _).
      unfold internal.GenerateColumnId, internal.GenerateIndexesId, internal.GenerateId in H.
      cbv beta iota zeta in H.
      set (id := ("c" ++ strconv.Itoa (S (internal.Conv.Cntr conv1)))%string) in H.
      set (conv2 := internal.Conv.setCntr (S (internal.Conv.Cntr conv1)) conv1) in H.
      assert (Hq2 : more.quiet conv conv2).
      { eapply quiet_trans; [apply quiet_logOnly; exact Hlog|].
        apply (quiet_GenerateId "c" conv1). }
      assert (Hshape :
                exists conv3 keys fkeys index,
                  mysql.processCols conv3 rest
                    (mysql.tableAcc.mk (mysql.tableAcc.colIds acc ++ [id])
                       (<[id := schema.Column.setId id col]> (mysql.tableAcc.colDef acc))
                       (<[schema.Column.Name (schema.Column.setId id col) := id]>
                          (mysql.tableAcc.colNameIdMap acc))
                       keys fkeys index)
                  = Ok (r, conv')
                  /\ more.quiet conv2 conv3
                  /\ (keys = mysql.tableAcc.keys acc
                      \/ keys = (mysql.tableAcc.keys acc ++ [schema.Key.mk id false 0])%list)).
      { destruct (mysql.columnConstraint.isUniqueKey cc); cbv beta iota zeta in H.
        - eexists _, _, _, _. split; [exact H|].
          split; [apply (quiet_GenerateId "i" conv2)|].
          destruct (mysql.columnConstraint.isPk cc); auto.
        - eexists _, _, _, _. split; [exact H|]. split; [apply quiet_refl|].
          destruct (mysql.columnConstraint.isPk cc); auto. }
      clear H. destruct Hshape as (conv3 & keys & fkeys & index & H & Hq3 & Hkeys).
      apply IH in H as [Hq Hr].
      assert (Hq13 : more.quiet conv conv3) by (eapply quiet_trans; eassumption).
      split; [eapply quiet_trans; eassumption|].
      destruct r as [acc'|err]; simpl existsb; rewrite Hwf; [|exact Hr].
      destruct Hr as [Hrest Hr]. split; [exact Hrest|]. intros Hinv.
      destruct (colsInv_step (internal.Conv.Cntr conv) (internal.Conv.Cntr conv3) acc col
                  keys fkeys index) as [Hinv1 Hold].
      { destruct Hq3 as [_ Hle]. subst conv2. simpl in Hle. lia. }
      { exact Hinv. }
      { rewrite <- Hcntr. exact Hkeys. }
      rewrite <- Hcntr in Hinv1, Hold. fold id in Hinv1, Hold.
      destruct (Hr Hinv1) as (Hinv' & Hdefs & Hnames & ids & Hids & Hall).
      split; [exact Hinv'|]. split; [auto|]. split.
      { intros nm Hsome. apply Hnames. simpl.
        destruct (decide (nm = schema.Column.Name col)) as [->|Hne].
        - rewrite lookup_insert_eq. now eexists.
        - now rewrite lookup_insert_ne by congruence. }
      exists (id :: ids). split; [rewrite Hids; simpl; now rewrite <- app_assoc|].
      constructor; [|exact Hall].
      destruct (ast.ColumnDef.Name element) as [colName|]; [|discriminate Hname].
      injection Hname as Hname.
      exists (schema.Column.setId id col), colName.
      split; [apply Hdefs; simpl; apply lookup_insert_eq|].
      split; [reflexivity|]. split; [simpl; congruence|].
      apply Hnames. simpl. rewrite Hname, <- Hcolname, lookup_insert_eq. now eexists.
    + injection H as <- <-. split; [now apply quiet_logOnly|].
      simpl. now rewrite Hr1.
Qed.

(** ** Table-level constraints on an existing table *)

Lemma quiet_Unexpected (u : string) (c : internal.Conv.t) :
  more.quiet c (internal.Unexpected u c).
Proof. apply quiet_logOnly, logOnly_Unexpected. Qed.

Lemma quiet_checkEmpty (c : internal.Conv.t) (pkeys : list schema.Key.t) (stmtType : string) :
  more.quiet c (mysql.checkEmpty c pkeys stmtType).
Proof.
  unfold mysql.checkEmpty. destruct (negb _); [apply quiet_Unexpected | apply quiet_refl].
Qed.

Lemma toForeignKeys_quiet (conv : internal.Conv.t) (fk : ast.Constraint.t)
      (fkey : schema.ForeignKey.t) (conv' : internal.Conv.t) :
  mysql.toForeignKeys conv fk = Ok (fkey, conv') -> more.quiet conv conv'.
Proof.
  unfold mysql.toForeignKeys.
  destruct (ast.Constraint.Refer fk) as [refer|]; [|discriminate].
  destruct (mysql.getTableName _) as [referTable|err];
    [|intros [= <- <-]; apply quiet_Unexpected].
  destruct (mysql.fkNames _ _) as [[colNames referColNames]|why]; simpl; [|discriminate].
  intros [= <- <-]. apply (quiet_GenerateId "f" conv).
Qed.

Lemma toSchemaKeys_known (columns : list ast.IndexPartSpecification.t)
      (m : gmap string string) :
  Forall (fun k => exists name, m !! name = Some (schema.Key.ColId k))
         (mysql.toSchemaKeys columns m).
Proof.
  induction columns as [|spec rest IH]; simpl; [constructor|].
  destruct (m !! _) as [colId|] eqn:Hl; [|exact IH].
  constructor; [|exact IH]. simpl. eauto.
Qed.

Lemma frame_finish (conv conv1 : internal.Conv.t) (tableId : string) (st' : schema.Table.t) :
  more.quiet conv conv1 ->
  let conv' := internal.Conv.setSrcSchema (<[tableId := st']> (internal.Conv.SrcSchema conv1))
                                          conv1 in
  internal.Conv.SrcSchema conv' = <[tableId := st']> (internal.Conv.SrcSchema conv)
  /\ more.quietSchema conv conv'.
Proof.
  destruct conv as [? ? ? [] ? ? ?], conv1 as [? ? ? [] ? ? ?]. unfold more.quietSchema, more.quiet.
  cbn [internal.Conv.setSrcSchema internal.Conv.SrcSchema internal.Conv.setCntr
       internal.Conv.setStats internal.Conv.Stats internal.Conv.Cntr internal.Conv.mode_
       internal.Conv.SpSchema internal.Conv.TimezoneOffset internal.Conv.Sink
       internal.stats.setUnexpected internal.stats.Unexpected internal.stats.Rows
       internal.stats.BadRows internal.stats.Statement internal.stats.Reparsed].
  intros [H Hle]. injection H; intros; subst. split; [reflexivity|]. split; [reflexivity | exact Hle].
Qed.

Lemma processConstraint_frame
      (conv : internal.Conv.t) (tableId : string) (constraint : ast.Constraint.t)
      (stmtType : string) (m : gmap string string) (st : schema.Table.t)
      (conv' : internal.Conv.t) :
  internal.Conv.SrcSchema conv !! tableId = Some st ->
  mysql.processConstraint conv tableId constraint stmtType m = Ok conv' ->
  exists st',
    internal.Conv.SrcSchema conv' = <[tableId := st']> (internal.Conv.SrcSchema conv)
    /\ more.quietSchema conv conv'
    /\ schema.Table.Id st' = schema.Table.Id st
    /\ schema.Table.Name st' = schema.Table.Name st
    /\ schema.Table.ColIds st' = schema.Table.ColIds st
    /\ schema.Table.ColNameIdMap st' = schema.Table.ColNameIdMap st
    /\ schema.Table.CheckConstraints st' = schema.Table.CheckConstraints st
    /\ (forall cid cd,
          schema.Table.ColDefs st !! cid = Some cd ->
          exists cd',
            schema.Table.ColDefs st' !! cid = Some cd'
            /\ schema.Column.Name cd' = schema.Column.Name cd
            /\ schema.Column.Id cd' = schema.Column.Id cd
            /\ schema.Column.Ty cd' = schema.Column.Ty cd)
    /\ (schema.Table.PrimaryKeys st' = schema.Table.PrimaryKeys st
        \/ schema.Table.PrimaryKeys st' = mysql.toSchemaKeys (ast.Constraint.Keys constraint) m).
Proof.
  intros Hst. unfold mysql.processConstraint. rewrite Hst. simpl default.
  rewrite bool_decide_eq_false_2 by discriminate.
  assert (Hupd : forall ct st0,
             schema.Table.ColDefs st0 = schema.Table.ColDefs st ->
             exists colDefs,
               mysql.updateCols ct (ast.Constraint.Keys constraint) false
                                (schema.Table.ColDefs st0) m = Ok colDefs
               /\ forall cid cd,
                    schema.Table.ColDefs st !! cid = Some cd ->
                    exists cd',
                      colDefs !! cid = Some cd'
                      /\ schema.Column.Name cd' = schema.Column.Name cd
                      /\ schema.Column.Id cd' = schema.Column.Id cd
                      /\ schema.Column.Ty cd' = schema.Column.Ty cd).
  { intros ct st0 ->.
    destruct (updateCols_lookup ct (ast.Constraint.Keys constraint) m (schema.Table.ColDefs st))
      as (colDefs & Hrun & Hlook).
    exists colDefs. split; [exact Hrun|]. intros cid cd Hcd. rewrite Hlook, Hcd.
    destruct (decide _); [|now exists cd].
    eexists. split; [reflexivity|]. destruct ct, cd; repeat split. }
  assert (Hkeep : forall cid cd,
             schema.Table.ColDefs st !! cid = Some cd ->
             exists cd',
               schema.Table.ColDefs st !! cid = Some cd'
               /\ schema.Column.Name cd' = schema.Column.Name cd
               /\ schema.Column.Id cd' = schema.Column.Id cd
               /\ schema.Column.Ty cd' = schema.Column.Ty cd) by eauto.
  destruct (ast.Constraint.Tp constraint) eqn:Htp;
    try (destruct (Hupd (ast.Constraint.Tp constraint) st eq_refl) as (colDefs & Hrun & Hdefs);
         rewrite Htp in Hrun; rewrite Hrun; cbn [mbind res_bind]; intros [= <-];
         destruct (frame_finish conv conv tableId (schema.Table.setColDefs colDefs st)
                     (quiet_refl conv)) as [Hsrc Hq];
         eexists; split; [exact Hsrc|]; split; [exact Hq|];
         repeat split; auto; fail).
  - (* primary key *)
    destruct (Hupd ast.ConstraintPrimaryKey
                (schema.Table.setPrimaryKeys
                   (mysql.toSchemaKeys (ast.Constraint.Keys constraint) m) st) eq_refl)
      as (colDefs & Hrun & Hdefs).
    rewrite Hrun. cbn [mbind res_bind]. intros [= <-].
    match goal with
    | |- context [<[tableId := ?t]> _] =>
        destruct (frame_finish conv _ tableId t (quiet_checkEmpty conv
                    (schema.Table.PrimaryKeys st) stmtType)) as [Hsrc Hq]
    end.
    eexists. split; [exact Hsrc|]. split; [exact Hq|]. repeat split; auto.
  - (* index *)
    unfold internal.GenerateIndexesId, internal.GenerateId. cbn [mbind res_bind].
    intros [= <-].
    match goal with
    | |- context [<[tableId := ?t]> _] =>
        destruct (frame_finish conv _ tableId t (quiet_GenerateId "i" conv)) as [Hsrc Hq]
    end.
    eexists. split; [exact Hsrc|]. split; [exact Hq|]. repeat split; auto.
  - (* unique *)
    unfold internal.GenerateIndexesId, internal.GenerateId. cbn [mbind res_bind].
    intros [= <-].
    match goal with
    | |- context [<[tableId := ?t]> _] =>
        destruct (frame_finish conv _ tableId t (quiet_GenerateId "i" conv)) as [Hsrc Hq]
    end.
    eexists. split; [exact Hsrc|]. split; [exact Hq|]. repeat split; auto.
  - (* foreign key *)
    destruct (mysql.toForeignKeys conv constraint) as [[fkey conv1]|why] eqn:Hfk;
      cbn [mbind res_bind]; [|discriminate].
    intros [= <-]. pose proof (toForeignKeys_quiet _ _ _ _ Hfk) as Hq1.
    match goal with
    | |- context [<[tableId := ?t]> _] =>
        destruct (frame_finish conv conv1 tableId t Hq1) as [Hsrc Hq]
    end.
    eexists. split; [exact Hsrc|]. split; [exact Hq|]. repeat split; auto.
Qed.

Ltac conv_fields :=
  cbn [internal.Conv.setSrcSchema internal.Conv.SrcSchema internal.Conv.setCntr
       internal.Conv.setStats internal.Conv.Stats internal.Conv.Cntr internal.Conv.mode_
       internal.Conv.SpSchema internal.Conv.TimezoneOffset internal.Conv.Sink
       internal.stats.setUnexpected internal.stats.Unexpected internal.stats.Rows
       internal.stats.BadRows internal.stats.Statement internal.stats.Reparsed
       internal.stats.setStatement] in *.

Lemma quietSchema_refl (c : internal.Conv.t) : more.quietSchema c c.
Proof.
  destruct c as [? ? ? [] ? ? ?]. unfold more.quietSchema, more.quiet. conv_fields.
  split; [reflexivity | lia].
Qed.

Lemma quietSchema_trans (a b c : internal.Conv.t) :
  more.quietSchema a b -> more.quietSchema b c -> more.quietSchema a c.
Proof.
  destruct a as [? ? ? [] ? ? ?], b as [? ? ? [] ? ? ?], c as [? ? ? [] ? ? ?].
  unfold more.quietSchema, more.quiet. conv_fields. intros [Hab Hle] [Hbc Hle'].
  injection Hab; injection Hbc; intros; subst. split; [reflexivity | lia].
Qed.

Lemma quietSchema_quiet (a b : internal.Conv.t) : more.quiet a b -> more.quietSchema a b.
Proof.
  destruct a as [? ? ? [] ? ? ?], b as [? ? ? [] ? ? ?].
  unfold more.quietSchema, more.quiet. conv_fields. intros [Hab Hle].
  injection Hab; intros; subst. split; [reflexivity | lia].
Qed.

Lemma quietSchema_setSrcSchema (c : internal.Conv.t) (m : gmap string schema.Table.t) :
  more.quietSchema c (internal.Conv.setSrcSchema m c).
Proof.
  destruct c as [? ? ? [] ? ? ?]. unfold more.quietSchema, more.quiet. conv_fields.
  split; [reflexivity | lia].
Qed.

Lemma quietSchema_fields (a b : internal.Conv.t) :
  more.quietSchema a b ->
  internal.Conv.SpSchema b = internal.Conv.SpSchema a
  /\ internal.Conv.mode_ b = internal.Conv.mode_ a
  /\ internal.Conv.Sink b = internal.Conv.Sink a
  /\ internal.Conv.TimezoneOffset b = internal.Conv.TimezoneOffset a
  /\ internal.stats.Statement (internal.Conv.Stats b)
     = internal.stats.Statement (internal.Conv.Stats a)
  /\ internal.stats.Rows (internal.Conv.Stats b) = internal.stats.Rows (internal.Conv.Stats a)
  /\ internal.stats.BadRows (internal.Conv.Stats b)
     = internal.stats.BadRows (internal.Conv.Stats a)
  /\ (internal.Conv.Cntr a <= internal.Conv.Cntr b)%nat.
Proof.
  destruct a as [? ? ? [] ? ? ?], b as [? ? ? [] ? ? ?].
  unfold more.quietSchema, more.quiet. conv_fields. intros [Hab Hle].
  injection Hab; intros; subst. repeat split. exact Hle.
Qed.

Lemma quiet_setStatementStat (ty : string) (f : internal.statementStat.t -> internal.statementStat.t)
      (a b : internal.Conv.t) :
  more.quiet a b ->
  more.quiet (internal.setStatementStat ty (f (internal.statementStatOf ty a)) a)
             (internal.setStatementStat ty (f (internal.statementStatOf ty b)) b).
Proof.
  destruct a as [? ? ? [] ? ? ?], b as [? ? ? [] ? ? ?].
  unfold more.quiet, internal.setStatementStat, internal.statementStatOf. conv_fields.
  intros [Hab Hle]. injection Hab; intros; subst. split; [reflexivity | exact Hle].
Qed.

Lemma quiet_SchemaStatement (ty : string) (a b : internal.Conv.t) :
  more.quiet a b -> more.quiet (internal.SchemaStatement ty a) (internal.SchemaStatement ty b).
Proof.
  apply (quiet_setStatementStat ty
           (fun s => internal.statementStat.mk (internal.statementStat.Schema s + 1)
                       (internal.statementStat.Data s) (internal.statementStat.Skip s)
                       (internal.statementStat.Error s))).
Qed.

Lemma quiet_ErrorInStatement (ty : string) (a b : internal.Conv.t) :
  more.quiet a b -> more.quiet (internal.ErrorInStatement ty a) (internal.ErrorInStatement ty b).
Proof.
  apply (quiet_setStatementStat ty
           (fun s => internal.statementStat.mk (internal.statementStat.Schema s)
                       (internal.statementStat.Data s) (internal.statementStat.Skip s)
                       (internal.statementStat.Error s + 1))).
Qed.

Lemma quiet_SkipStatement (ty : string) (a b : internal.Conv.t) :
  more.quiet a b -> more.quiet (internal.SkipStatement ty a) (internal.SkipStatement ty b).
Proof.
  apply (quiet_setStatementStat ty
           (fun s => internal.statementStat.mk (internal.statementStat.Schema s)
                       (internal.statementStat.Data s) (internal.statementStat.Skip s + 1)
                       (internal.statementStat.Error s))).
Qed.

Lemma quiet_logStmtError (node : ast.StmtNode) (err : string) (a b : internal.Conv.t) :
  more.quiet a b ->
  more.quiet (internal.ErrorInStatement (mysql.NodeType node) a) (mysql.logStmtError b node err).
Proof.
  intros H. unfold mysql.logStmtError. apply quiet_ErrorInStatement.
  eapply quiet_trans; [exact H | apply quiet_Unexpected].
Qed.

Lemma wellFormed_constraint (st st' : schema.Table.t) (keys : list ast.IndexPartSpecification.t) :
  more.wellFormed st ->
  schema.Table.ColIds st' = schema.Table.ColIds st ->
  schema.Table.ColNameIdMap st' = schema.Table.ColNameIdMap st ->
  (forall cid cd,
     schema.Table.ColDefs st !! cid = Some cd ->
     exists cd',
       schema.Table.ColDefs st' !! cid = Some cd'
       /\ schema.Column.Name cd' = schema.Column.Name cd
       /\ schema.Column.Id cd' = schema.Column.Id cd
       /\ schema.Column.Ty cd' = schema.Column.Ty cd) ->
  (schema.Table.PrimaryKeys st' = schema.Table.PrimaryKeys st
   \/ schema.Table.PrimaryKeys st'
      = mysql.toSchemaKeys keys (schema.Table.ColNameIdMap st)) ->
  more.wellFormed st'.
Proof.
  intros (Hnodup & Hids & Hnames & Hkeys) Hcols Hmap Hdefs Hpk.
  unfold more.wellFormed. rewrite Hcols, Hmap. split; [exact Hnodup|]. split; [|split].
  - intros id Hin. destruct (Hids _ Hin) as (cd & Hcd & Hid).
    destruct (Hdefs _ _ Hcd) as (cd' & Hcd' & _ & Hid' & _). exists cd'. split; congruence.
  - intros name id Hl. destruct (Hnames _ _ Hl) as (Hin & cd & Hcd & Hname).
    split; [exact Hin|]. destruct (Hdefs _ _ Hcd) as (cd' & Hcd' & Hname' & _).
    exists cd'. split; congruence.
  - destruct Hpk as [-> | ->]; [exact Hkeys|].
    eapply Forall_impl; [apply toSchemaKeys_known|].
    intros k (name & Hl). now apply (Hnames _ _ Hl).
Qed.

Lemma constraints_loop (tableId : string) (constraints : list ast.Constraint.t) :
  forall (conv : internal.Conv.t) (st : schema.Table.t) (conv' : internal.Conv.t),
  internal.Conv.SrcSchema conv !! tableId = Some st ->
  more.wellFormed st ->
  forRange
    (fun conv constraint =>
       mysql.processConstraint conv tableId constraint "CREATE TABLE"
         (schema.Table.ColNameIdMap
            (default schema.Table.zero (internal.Conv.SrcSchema conv !! tableId))))
    constraints conv = Ok conv' ->
  exists st',
    internal.Conv.SrcSchema conv' = <[tableId := st']> (internal.Conv.SrcSchema conv)
    /\ more.quietSchema conv conv'
    /\ more.wellFormed st'
    /\ schema.Table.Id st' = schema.Table.Id st
    /\ schema.Table.Name st' = schema.Table.Name st
    /\ schema.Table.ColIds st' = schema.Table.ColIds st
    /\ schema.Table.ColNameIdMap st' = schema.Table.ColNameIdMap st
    /\ schema.Table.CheckConstraints st' = schema.Table.CheckConstraints st
    /\ (forall cid cd,
          schema.Table.ColDefs st !! cid = Some cd ->
          exists cd',
            schema.Table.ColDefs st' !! cid = Some cd'
            /\ schema.Column.Name cd' = schema.Column.Name cd
            /\ schema.Column.Id cd' = schema.Column.Id cd
            /\ schema.Column.Ty cd' = schema.Column.Ty cd).
Proof.
  induction constraints as [|constraint rest IH]; intros conv st conv' Hst Hwf H.
  - injection H as <-. exists st. split; [now rewrite insert_id|].
    split; [apply quietSchema_refl|]. split; [exact Hwf|]. repeat split; eauto.
  - rewrite forRange_cons in H. rewrite Hst in H. simpl default in H.
    destruct (mysql.processConstraint conv tableId constraint "CREATE TABLE"
                (schema.Table.ColNameIdMap st)) as [conv1|why] eqn:Hc;
      cbn [mbind res_bind] in H; [|discriminate H].
    destruct (processConstraint_frame _ _ _ _ _ _ _ Hst Hc)
      as (st1 & Hsrc1 & Hq1 & Hid1 & Hname1 & Hcols1 & Hmap1 & Hchk1 & Hdefs1 & Hpk1).
    pose proof (wellFormed_constraint st st1 _ Hwf Hcols1 Hmap1 Hdefs1 Hpk1) as Hwf1.
    assert (Hst1 : internal.Conv.SrcSchema conv1 !! tableId = Some st1)
      by (rewrite Hsrc1; apply lookup_insert_eq).
    destruct (IH conv1 st1 conv' Hst1 Hwf1 H)
      as (st' & Hsrc & Hq & Hwf' & Hid & Hname & Hcols & Hmap & Hchk & Hdefs).
    exists st'. split; [rewrite Hsrc, Hsrc1; apply insert_insert_eq|].
    split; [eapply quietSchema_trans; eassumption|].
    split; [exact Hwf'|]. repeat split; try congruence.
    intros cid cd Hcd. destruct (Hdefs1 _ _ Hcd) as (cd1 & Hcd1 & Hn1 & Hi1 & Ht1).
    destruct (Hdefs _ _ Hcd1) as (cd' & Hcd' & Hn & Hi & Ht).
    exists cd'. repeat split; congruence.
Qed.

(** ** CREATE TABLE *)

Lemma getCheckConstraints_spec (constraints : list ast.Constraint.t) :
  forall conv : internal.Conv.t,
  let l := fst (mysql.getCheckConstraints conv constraints) in
  let conv' := snd (mysql.getCheckConstraints conv constraints) in
  List.map schema.CheckConstraint.Name l
  = List.map ast.Constraint.Name (List.filter more.isCheck constraints)
  /\ conv' = internal.Conv.setCntr (internal.Conv.Cntr conv + 2 * List.length l)%nat conv
  /\ (forall j c, l !! j = Some c ->
                  schema.CheckConstraint.ExprId c
                  = ("e" ++ strconv.Itoa (internal.Conv.Cntr conv + 2 * j + 1)%nat)%string
                  /\ schema.CheckConstraint.Id c
                     = ("cc" ++ strconv.Itoa (internal.Conv.Cntr conv + 2 * j + 2)%nat)%string).
Proof.
  induction constraints as [|constraint rest IH]; intros conv.
  - simpl. split; [reflexivity|]. split; [destruct conv; unfold internal.Conv.setCntr; cbn; f_equal; lia|].
    intros j c H. discriminate H.
  - cbn [mysql.getCheckConstraints List.filter]. unfold more.isCheck at 1.
    destruct (ast.Constraint.Tp constraint); try apply IH.
    unfold internal.GenerateExpressionId, internal.GenerateCheckConstrainstId,
      internal.GenerateId. cbv beta iota zeta.
    cbn [internal.Conv.Cntr internal.Conv.setCntr].
    match goal with
    | |- context [mysql.getCheckConstraints ?c rest] =>
        specialize (IH c); destruct (mysql.getCheckConstraints c rest) as [l conv1]
    end.
    cbn [fst snd] in *. destruct IH as (Hnames & Hconv & Hids).
    split; [simpl; now rewrite Hnames|]. split.
    + rewrite Hconv. destruct conv. unfold internal.Conv.setCntr. cbn. f_equal. lia.
    + intros [|j] c H.
      * injection H as <-. cbn [schema.CheckConstraint.ExprId schema.CheckConstraint.Id].
        split; do 2 f_equal; lia.
      * destruct (Hids j c H) as [He Hc].
        cbn [internal.Conv.Cntr internal.Conv.setCntr] in He, Hc. rewrite He, Hc.
        split; do 2 f_equal; lia.
Qed.

Lemma getCheckConstraints_quiet (conv : internal.Conv.t) (constraints : list ast.Constraint.t) :
  more.quiet conv (snd (mysql.getCheckConstraints conv constraints)).
Proof.
  destruct (getCheckConstraints_spec constraints conv) as (_ & -> & _).
  destruct conv as [? ? ? [] ? ? ?]. split; [reflexivity | simpl; lia].
Qed.

Lemma colsInv_empty (bound : nat) : more.colsInv bound mysql.tableAcc.empty.
Proof.
  unfold more.colsInv. simpl. split; [constructor|]. split; [constructor|].
  split; [intros id cd H; now rewrite lookup_empty in H|].
  split; [intros id H; now apply elem_of_nil in H|].
  split; [intros name id H; now rewrite lookup_empty in H | constructor].
Qed.

Lemma colsInv_wellFormed (bound : nat) (acc : mysql.tableAcc.t) (id name : string)
      (checks : list schema.CheckConstraint.t) :
  more.colsInv bound acc ->
  more.wellFormed
    (schema.Table.mk id name (mysql.tableAcc.colIds acc) (mysql.tableAcc.colNameIdMap acc)
                     (mysql.tableAcc.colDef acc) (mysql.tableAcc.keys acc)
                     (mysql.tableAcc.fkeys acc) (mysql.tableAcc.index acc) checks).
Proof.
  intros (_ & Hnodup & Hdefs & Hids & Hnames & Hkeys). unfold more.wellFormed. simpl.
  split; [exact Hnodup|]. split; [|split; [|exact Hkeys]].
  - intros cid Hin. destruct (Hids _ Hin) as [cd Hcd]. exists cd.
    split; [exact Hcd | now apply (Hdefs _ _ Hcd)].
  - intros nm cid Hl. destruct (Hnames _ _ Hl) as (cd & Hcd & Hname).
    split; [now apply (Hdefs _ _ Hcd) | now exists cd].
Qed.

Lemma statementStatOf_quiet (ty : string) (a b : internal.Conv.t) :
  more.quiet a b -> internal.statementStatOf ty b = internal.statementStatOf ty a.
Proof.
  intros H. apply quiet_fields in H as (_ & _ & _ & _ & _ & Hs & _).
  unfold internal.statementStatOf. now rewrite Hs.
Qed.

Lemma statementStatOf_ErrorInStatement (ty : string) (c : internal.Conv.t) :
  internal.statementStatOf ty (internal.ErrorInStatement ty c)
  = let s := internal.statementStatOf ty c in
    internal.statementStat.mk (internal.statementStat.Schema s) (internal.statementStat.Data s)
                              (internal.statementStat.Skip s) (internal.statementStat.Error s + 1).
Proof.
  unfold internal.ErrorInStatement, internal.setStatementStat.
  unfold internal.statementStatOf at 1. simpl. now rewrite lookup_insert_eq.
Qed.

Lemma statementStatOf_SchemaStatement (ty : string) (c : internal.Conv.t) :
  internal.statementStatOf ty (internal.SchemaStatement ty c)
  = let s := internal.statementStatOf ty c in
    internal.statementStat.mk (internal.statementStat.Schema s + 1) (internal.statementStat.Data s)
                              (internal.statementStat.Skip s) (internal.statementStat.Error s).
Proof.
  unfold internal.SchemaStatement, internal.setStatementStat.
  unfold internal.statementStatOf at 1. simpl. now rewrite lookup_insert_eq.
Qed.

Lemma processCreateTable_refused_quiet
      (conv : internal.Conv.t) (stmt : ast.CreateTableStmt.t) (conv' : internal.Conv.t) :
  more.refused stmt ->
  mysql.processCreateTable conv stmt = Ok conv' ->
  more.quiet (internal.ErrorInStatement "CreateTableStmt" conv) conv'
  /\ (is_Some (ast.CreateTableStmt.Table stmt) ->
      (internal.Conv.Cntr conv < internal.Conv.Cntr conv')%nat).
Proof.
  intros Href H.
  unfold more.refused in Href. unfold mysql.processCreateTable in H.
    destruct (ast.CreateTableStmt.Table stmt) as [table|].
    - unfold internal.GenerateTableId, internal.GenerateId in H. cbv beta iota zeta in H.
      pose proof (quiet_GenerateId "t" conv) as Hq1.
      unfold internal.GenerateId in Hq1. cbn [snd] in Hq1.
      set (conv1 := internal.Conv.setCntr (S (internal.Conv.Cntr conv)) conv) in *.
      destruct (mysql.getTableName table) as [tableName|err].
      + pose proof (getCheckConstraints_quiet conv1 (ast.CreateTableStmt.Constraints stmt))
          as Hq2.
        destruct (mysql.getCheckConstraints conv1 _) as [checks conv2]. cbn [snd] in Hq2.
        destruct (mysql.processCols conv2 _ _) as [[r conv3]|why] eqn:Hcols;
          cbn [mbind res_bind] in H; [|discriminate H].
        apply processCols_spec in Hcols as [Hq3 Hr].
        destruct r as [acc|err]; [destruct Hr as [Hr _]; congruence|].
        injection H as <-.
        assert (Hq13 : more.quiet conv1 conv3) by (eapply quiet_trans; eassumption).
        split.
        * apply (quiet_logStmtError (ast.CreateTable stmt)).
          eapply quiet_trans; eassumption.
        * intros _. destruct Hq13 as [_ Hle]. subst conv1.
          unfold mysql.logStmtError, internal.ErrorInStatement, internal.setStatementStat,
            internal.Unexpected. simpl in *. lia.
      + injection H as <-. split.
        * apply (quiet_logStmtError (ast.CreateTable stmt)). exact Hq1.
        * intros _. subst conv1. simpl. lia.
    - injection H as <-. split.
      + apply (quiet_logStmtError (ast.CreateTable stmt)), quiet_refl.
      + intros [x Hx]. discriminate Hx.
Qed.

(** X14. A CREATE TABLE statement that is refused (no table, an empty
    table name, or a column without name or type) leaves no trace in the
    source schema, even when columns before the faulty one were already
    processed: the schema is as before, the statement is counted once as
    an error of [CreateTableStmt] and not as a schema statement, and
    beyond that the context differs at most in the log of unexpected
    conditions and in the id counter.  The ids drawn on the way are not
    given back: with a table in the statement the counter has advanced. *)
Theorem processCreateTable_refused
        (conv : internal.Conv.t) (stmt : ast.CreateTableStmt.t) (conv' : internal.Conv.t) :
  more.refused stmt ->
  mysql.processCreateTable conv stmt = Ok conv' ->
  internal.Conv.SrcSchema conv' = internal.Conv.SrcSchema conv
  /\ more.quiet (internal.ErrorInStatement "CreateTableStmt" conv) conv'
  /\ internal.statementStat.Error (internal.statementStatOf "CreateTableStmt" conv')
     = internal.statementStat.Error (internal.statementStatOf "CreateTableStmt" conv) + 1
  /\ internal.statementStat.Schema (internal.statementStatOf "CreateTableStmt" conv')
     = internal.statementStat.Schema (internal.statementStatOf "CreateTableStmt" conv)
  /\ (is_Some (ast.CreateTableStmt.Table stmt) ->
      (internal.Conv.Cntr conv < internal.Conv.Cntr conv')%nat).
Proof.
  intros Href H.
  destruct (processCreateTable_refused_quiet conv stmt conv' Href H) as [Hq Hcntr].
  pose proof (statementStatOf_quiet "CreateTableStmt" _ _ Hq) as Hstat.
  pose proof (quiet_fields _ _ Hq) as (Hsrc & _).
  split; [exact Hsrc|]. split; [exact Hq|].
  rewrite Hstat, statementStatOf_ErrorInStatement. repeat split. exact Hcntr.
Qed.

Lemma processCreateTable_refused_witness :
  exists conv',
    mysql.processCreateTable demo.convSchema more.createTableNoType = Ok conv'
    /\ internal.Conv.SrcSchema conv' = internal.Conv.SrcSchema demo.convSchema
    /\ (internal.Conv.Cntr demo.convSchema < internal.Conv.Cntr conv')%nat.
Proof.
  destruct (mysql.processCreateTable demo.convSchema more.createTableNoType)
    as [conv'|why] eqn:H; [|vm_compute in H; discriminate H].
  exists conv'. split; [reflexivity|].
  assert (Href : more.refused more.createTableNoType) by reflexivity.
  destruct (processCreateTable_refused demo.convSchema more.createTableNoType conv' Href H)
    as (Hsrc & _ & _ & _ & Hcntr).
  split; [exact Hsrc | apply Hcntr; now eexists].
Defined.

Lemma processCreateTable_table
      (conv : internal.Conv.t) (stmt : ast.CreateTableStmt.t) (table : ast.TableName.t)
      (tableName : string) (conv' : internal.Conv.t) :
  ast.CreateTableStmt.Table stmt = Some table ->
  mysql.getTableName table = Value tableName ->
  existsb more.malformed (ast.CreateTableStmt.Cols stmt) = false ->
  mysql.processCreateTable conv stmt = Ok conv' ->
  let tableId := ("t" ++ strconv.Itoa (S (internal.Conv.Cntr conv)))%string in
  exists tbl,
    internal.Conv.SrcSchema conv' = <[tableId := tbl]> (internal.Conv.SrcSchema conv)
    /\ more.quietSchema (internal.SchemaStatement "CreateTableStmt" conv) conv'
    /\ schema.Table.Id tbl = tableId
    /\ schema.Table.Name tbl = tableName
    /\ more.wellFormed tbl
    /\ Forall2 (more.definedBy tbl) (schema.Table.ColIds tbl) (ast.CreateTableStmt.Cols stmt)
    /\ List.map schema.CheckConstraint.Name (schema.Table.CheckConstraints tbl)
       = List.map ast.Constraint.Name
                  (List.filter more.isCheck (ast.CreateTableStmt.Constraints stmt))
    /\ (internal.Conv.Cntr conv < internal.Conv.Cntr conv')%nat.
Proof.
  intros Htable Hname Hcols H tableId. unfold mysql.processCreateTable in H.
  rewrite Htable in H. unfold internal.GenerateTableId, internal.GenerateId in H.
  cbv beta iota zeta in H. fold tableId in H. rewrite Hname in H.
  pose proof (quiet_GenerateId "t" conv) as Hq1.
  unfold internal.GenerateId in Hq1. cbn [snd] in Hq1.
  set (conv1 := internal.Conv.setCntr (S (internal.Conv.Cntr conv)) conv) in *.
  pose proof (getCheckConstraints_quiet conv1 (ast.CreateTableStmt.Constraints stmt)) as Hq2.
  destruct (getCheckConstraints_spec (ast.CreateTableStmt.Constraints stmt) conv1)
    as (Hchecks & _ & _).
  destruct (mysql.getCheckConstraints conv1 _) as [checks conv2]. cbn [fst snd] in Hq2, Hchecks.
  destruct (mysql.processCols conv2 _ _) as [[r conv3]|why] eqn:Hloop;
    cbn [mbind res_bind] in H; [|discriminate H].
  apply processCols_spec in Hloop as [Hq3 Hr].
  destruct r as [acc|err]; [|congruence]. destruct Hr as [_ Hr].
  destruct (Hr (colsInv_empty _)) as (Hinv & _ & _ & ids & Hids & Hall).
  simpl in Hids. clear Hr.
  pose proof (quiet_trans _ _ _ Hq1 (quiet_trans _ _ _ Hq2 Hq3)) as Hq.
  change (mysql.NodeType (ast.CreateTable stmt)) with "CreateTableStmt" in H.
  set (tbl0 := schema.Table.mk tableId tableName (mysql.tableAcc.colIds acc)
                 (mysql.tableAcc.colNameIdMap acc) (mysql.tableAcc.colDef acc)
                 (mysql.tableAcc.keys acc) (mysql.tableAcc.fkeys acc)
                 (mysql.tableAcc.index acc) checks) in H.
  set (conv4 := internal.SchemaStatement "CreateTableStmt" conv3) in H.
  set (conv5 := internal.Conv.setSrcSchema
                  (<[tableId := tbl0]> (internal.Conv.SrcSchema conv4)) conv4) in H.
  assert (Hst : internal.Conv.SrcSchema conv5 !! tableId = Some tbl0)
    by apply lookup_insert_eq.
  pose proof (colsInv_wellFormed _ acc tableId tableName checks Hinv) as Hwf0.
  fold tbl0 in Hwf0.
  destruct (constraints_loop tableId _ conv5 tbl0 conv' Hst Hwf0 H)
    as (tbl & Hsrc & Hq5 & Hwf & Hid & Hnm & Hcolids & Hmap & Hchk & Hdefs).
  exists tbl.
  pose proof (quiet_SchemaStatement "CreateTableStmt" _ _ Hq) as Hq4. fold conv4 in Hq4.
  pose proof (quiet_fields _ _ Hq4) as (Hsrc4 & _).
  split.
  { rewrite Hsrc. subst conv5. cbn [internal.Conv.SrcSchema internal.Conv.setSrcSchema].
    rewrite insert_insert_eq, Hsrc4. reflexivity. }
  split.
  { eapply quietSchema_trans; [apply quietSchema_quiet; exact Hq4|].
    eapply quietSchema_trans; [apply (quietSchema_setSrcSchema conv4)|]. exact Hq5. }
  split; [exact Hid|]. split; [exact Hnm|]. split; [exact Hwf|]. split; [|split].
  - rewrite Hcolids. subst tbl0. cbn [schema.Table.ColIds]. rewrite Hids.
    eapply Forall2_impl; [exact Hall|].
    intros id col (cd & colName & Hcd & Hcol & Hcdname & Hsome).
    destruct (Hdefs id cd Hcd) as (cd' & Hcd' & Hname' & _).
    exists cd', colName. split; [exact Hcd'|]. split; [exact Hcol|].
    split; [congruence|]. rewrite Hmap. exact Hsome.
  - rewrite Hchk. exact Hchecks.
  - pose proof (quietSchema_fields _ _ Hq5) as (_ & _ & _ & _ & _ & _ & _ & Hle5).
    destruct Hq2 as [_ Hle2], Hq3 as [_ Hle3].
    assert (H5 : internal.Conv.Cntr conv5 = internal.Conv.Cntr conv3) by reflexivity.
    assert (H1 : internal.Conv.Cntr conv1 = S (internal.Conv.Cntr conv)) by reflexivity.
    lia.
Qed.

(** X15. A CREATE TABLE statement with a named table whose columns all
    have a name and a type stores, whenever it returns, one table under a
    freshly drawn table id, and touches no other entry of the source
    schema.  The table carries that id and the name of the statement, and
    its parts agree: the column ids are distinct, each has a definition
    filed under that id, every name of the name-to-id map leads to a
    column id of the table whose definition has that name, and the
    primary key columns are columns of the table, also after the
    table-level constraints were applied.  The columns are those of the
    statement, in order.  The statement is counted once as a schema
    statement; beyond the schema and that count the context differs at
    most in the log of unexpected conditions and in the id counter. *)
Theorem processCreateTable_stored
        (conv : internal.Conv.t) (stmt : ast.CreateTableStmt.t) (table : ast.TableName.t)
        (tableName : string) (conv' : internal.Conv.t) :
  ast.CreateTableStmt.Table stmt = Some table ->
  mysql.getTableName table = Value tableName ->
  existsb more.malformed (ast.CreateTableStmt.Cols stmt) = false ->
  mysql.processCreateTable conv stmt = Ok conv' ->
  let tableId := ("t" ++ strconv.Itoa (S (internal.Conv.Cntr conv)))%string in
  exists tbl,
    internal.Conv.SrcSchema conv' = <[tableId := tbl]> (internal.Conv.SrcSchema conv)
    /\ more.quietSchema (internal.SchemaStatement "CreateTableStmt" conv) conv'
    /\ schema.Table.Id tbl = tableId
    /\ schema.Table.Name tbl = tableName
    /\ more.wellFormed tbl
    /\ Forall2 (more.definedBy tbl) (schema.Table.ColIds tbl) (ast.CreateTableStmt.Cols stmt)
    /\ List.map schema.CheckConstraint.Name (schema.Table.CheckConstraints tbl)
       = List.map ast.Constraint.Name
                  (List.filter more.isCheck (ast.CreateTableStmt.Constraints stmt))
    /\ internal.statementStat.Schema (internal.statementStatOf "CreateTableStmt" conv')
       = internal.statementStat.Schema (internal.statementStatOf "CreateTableStmt" conv) + 1
    /\ internal.statementStat.Error (internal.statementStatOf "CreateTableStmt" conv')
       = internal.statementStat.Error (internal.statementStatOf "CreateTableStmt" conv)
    /\ (internal.Conv.Cntr conv < internal.Conv.Cntr conv')%nat.
Proof.
  intros Htable Hname Hcols H tableId.
  destruct (processCreateTable_table conv stmt table tableName conv' Htable Hname Hcols H)
    as (tbl & Hsrc & Hq & Hid & Hnm & Hwf & Hall & Hchk & Hcntr).
  exists tbl. fold tableId in Hsrc, Hid.
  split; [exact Hsrc|]. split; [exact Hq|]. split; [exact Hid|]. split; [exact Hnm|].
  split; [exact Hwf|]. split; [exact Hall|]. split; [exact Hchk|].
  pose proof (quietSchema_fields _ _ Hq) as (_ & _ & _ & _ & Hstat & _).
  unfold internal.statementStatOf at 1 3. rewrite Hstat.
  fold (internal.statementStatOf "CreateTableStmt"
          (internal.SchemaStatement "CreateTableStmt" conv)).
  rewrite statementStatOf_SchemaStatement. split; [reflexivity|]. split; [reflexivity|].
  exact Hcntr.
Qed.

Lemma processCreateTable_stored_witness :
  exists conv' tbl,
    mysql.processCreateTable demo.convSchema demo.createTableTwoKeys = Ok conv'
    /\ internal.Conv.SrcSchema conv'
       = <["t5" := tbl]> (internal.Conv.SrcSchema demo.convSchema)
    /\ schema.Table.Name tbl = "u"
    /\ more.wellFormed tbl.
Proof.
  destruct (mysql.processCreateTable demo.convSchema demo.createTableTwoKeys)
    as [conv'|why] eqn:H; [|vm_compute in H; discriminate H].
  destruct (processCreateTable_stored demo.convSchema demo.createTableTwoKeys
              (ast.TableName.mk "" "u") "u" conv' eq_refl eq_refl eq_refl H)
    as (tbl & Hsrc & _ & _ & Hname & Hwf & _).
  exists conv', tbl. split; [reflexivity|]. split; [exact Hsrc|]. split; assumption.
Defined.

(** X16. [getCheckConstraints] returns one check constraint for each
    table-level CHECK constraint, in their order and under their names,
    and ignores the constraints of other types.  For each it draws two
    ids, the expression id before the constraint id, so that the id
    counter advances by twice their number and nothing else of the
    context changes; the constraint ids are pairwise distinct. *)
Theorem getCheckConstraints_checks
        (conv : internal.Conv.t) (constraints : list ast.Constraint.t) :
  let l := fst (mysql.getCheckConstraints conv constraints) in
  let conv' := snd (mysql.getCheckConstraints conv constraints) in
  List.map schema.CheckConstraint.Name l
  = List.map ast.Constraint.Name (List.filter more.isCheck constraints)
  /\ conv' = internal.Conv.setCntr (internal.Conv.Cntr conv + 2 * List.length l)%nat conv
  /\ (forall j c, l !! j = Some c ->
                  schema.CheckConstraint.ExprId c
                  = ("e" ++ strconv.Itoa (internal.Conv.Cntr conv + 2 * j + 1)%nat)%string
                  /\ schema.CheckConstraint.Id c
                     = ("cc" ++ strconv.Itoa (internal.Conv.Cntr conv + 2 * j + 2)%nat)%string)
  /\ NoDup (List.map schema.CheckConstraint.Id l).
Proof.
  intros l conv'. destruct (getCheckConstraints_spec constraints conv) as (Hnames & Hconv & Hids).
  fold l in Hnames, Hconv, Hids. fold conv' in Hconv.
  split; [exact Hnames|]. split; [exact Hconv|]. split; [exact Hids|].
  apply NoDup_alt. intros i j x Hi Hj.
  change (List.map schema.CheckConstraint.Id l) with (schema.CheckConstraint.Id <$> l) in Hi, Hj.
  rewrite list_lookup_fmap in Hi, Hj.
  destruct (l !! i) as [ci|] eqn:Hci; [|discriminate Hi].
  destruct (l !! j) as [cj|] eqn:Hcj; [|discriminate Hj].
  injection Hi as Hi. injection Hj as Hj.
  destruct (Hids _ _ Hci) as [_ Hidi]. destruct (Hids _ _ Hcj) as [_ Hidj].
  rewrite Hidi in Hi. rewrite Hidj in Hj. rewrite <- Hj in Hi.
  rewrite !append_cons, !append_nil in Hi. injection Hi as Hi. apply Itoa_inj in Hi. lia.
Qed.

(** ** Statements that alter an existing table *)

Ltac conv_records :=
  repeat match goal with
         | c : internal.Conv.t |- _ => destruct c as [? ? ? [] ? ? ?]
         end.

Lemma schemaPass_refl (c : internal.Conv.t) : more.schemaPass c c.
Proof. conv_records. split; [reflexivity | lia]. Qed.

Lemma schemaPass_trans (a b c : internal.Conv.t) :
  more.schemaPass a b -> more.schemaPass b c -> more.schemaPass a c.
Proof.
  conv_records. unfold more.schemaPass. simpl. intros [Hab Hle] [Hbc Hle'].
  injection Hab; injection Hbc; intros; subst. split; [reflexivity | lia].
Qed.

Lemma schemaPass_quietSchema (a b : internal.Conv.t) :
  more.quietSchema a b -> more.schemaPass a b.
Proof.
  conv_records. unfold more.quietSchema, more.quiet, more.schemaPass. simpl.
  intros [Hab Hle]. injection Hab; intros; subst. split; [reflexivity | lia].
Qed.

Lemma schemaPass_quiet (a b : internal.Conv.t) : more.quiet a b -> more.schemaPass a b.
Proof. intros H. now apply schemaPass_quietSchema, quietSchema_quiet. Qed.

Lemma schemaPass_setStatementStat (ty : string) (s : internal.statementStat.t)
      (c : internal.Conv.t) :
  more.schemaPass c (internal.setStatementStat ty s c).
Proof. conv_records. split; [reflexivity | simpl; lia]. Qed.

Lemma schemaPass_setSrcSchema (m : gmap string schema.Table.t) (c : internal.Conv.t) :
  more.schemaPass c (internal.Conv.setSrcSchema m c).
Proof. conv_records. split; [reflexivity | simpl; lia]. Qed.

Lemma schemaPass_logStmtError (node : ast.StmtNode) (err : string) (c : internal.Conv.t) :
  more.schemaPass c (mysql.logStmtError c node err).
Proof.
  unfold mysql.logStmtError, internal.ErrorInStatement.
  eapply schemaPass_trans; [apply schemaPass_quiet, quiet_Unexpected|].
  apply schemaPass_setStatementStat.
Qed.

Lemma schemaPass_fields (a b : internal.Conv.t) :
  more.schemaPass a b ->
  internal.Conv.mode_ b = internal.Conv.mode_ a
  /\ internal.Conv.SpSchema b = internal.Conv.SpSchema a
  /\ internal.Conv.Sink b = internal.Conv.Sink a
  /\ internal.Conv.TimezoneOffset b = internal.Conv.TimezoneOffset a
  /\ internal.stats.Rows (internal.Conv.Stats b) = internal.stats.Rows (internal.Conv.Stats a)
  /\ internal.stats.BadRows (internal.Conv.Stats b)
     = internal.stats.BadRows (internal.Conv.Stats a)
  /\ (internal.Conv.Cntr a <= internal.Conv.Cntr b)%nat.
Proof. intros [-> Hle]. simpl. repeat split. exact Hle. Qed.

Lemma sameColumns_refl (t : schema.Table.t) : more.sameColumns t t.
Proof. repeat split. Qed.

Lemma sameColumns_trans (a b c : schema.Table.t) :
  more.sameColumns a b -> more.sameColumns b c -> more.sameColumns a c.
Proof. unfold more.sameColumns. intuition congruence. Qed.

Lemma alters_refl (id : string) (fkToo : bool) (c : internal.Conv.t) (st : schema.Table.t) :
  internal.Conv.SrcSchema c !! id = Some st -> more.alters id fkToo c c.
Proof.
  intros Hst. exists st, st. split; [exact Hst|]. split; [now rewrite insert_id|].
  split; [apply sameColumns_refl|]. split; [reflexivity | apply schemaPass_refl].
Qed.

Lemma alters_trans (id : string) (fkToo : bool) (a b c : internal.Conv.t) :
  more.alters id fkToo a b -> more.alters id fkToo b c -> more.alters id fkToo a c.
Proof.
  intros (st & st1 & Hst & Hsrc1 & Hcols1 & Hfk1 & Hp1)
         (st1' & st2 & Hst1 & Hsrc2 & Hcols2 & Hfk2 & Hp2).
  rewrite Hsrc1, lookup_insert_eq in Hst1. injection Hst1 as <-.
  exists st, st2. split; [exact Hst|].
  split; [rewrite Hsrc2, Hsrc1; apply insert_insert_eq|].
  split; [eapply sameColumns_trans; eassumption|].
  split; [intros Hb; rewrite (Hfk2 Hb); now apply Hfk1|].
  eapply schemaPass_trans; eassumption.
Qed.

Lemma alters_pass (id : string) (fkToo : bool) (c c' : internal.Conv.t) (st : schema.Table.t) :
  internal.Conv.SrcSchema c !! id = Some st ->
  internal.Conv.SrcSchema c' = internal.Conv.SrcSchema c ->
  more.schemaPass c c' ->
  more.alters id fkToo c c'.
Proof.
  intros Hst Hsrc Hp. exists st, st. split; [exact Hst|].
  split; [rewrite Hsrc; now rewrite insert_id|].
  split; [apply sameColumns_refl|]. split; [reflexivity | exact Hp].
Qed.

Lemma alters_updTable (id : string) (fkToo : bool) (f : schema.Table.t -> schema.Table.t)
      (c : internal.Conv.t) (st : schema.Table.t) :
  internal.Conv.SrcSchema c !! id = Some st ->
  (forall t, more.sameColumns t (f t)
             /\ schema.Table.ForeignKeys (f t) = schema.Table.ForeignKeys t) ->
  more.alters id fkToo c (mysql.updTable id f c).
Proof.
  intros Hst Hf. exists st, (f st). split; [exact Hst|].
  unfold mysql.updTable. rewrite Hst. simpl default.
  split; [reflexivity|]. split; [apply Hf|].
  split; [intros _; apply Hf | apply schemaPass_setSrcSchema].
Qed.

Lemma alters_lookup (id : string) (fkToo : bool) (c c' : internal.Conv.t) :
  more.alters id fkToo c c' -> is_Some (internal.Conv.SrcSchema c' !! id).
Proof. intros (st & st' & _ & -> & _). rewrite lookup_insert_eq. now eexists. Qed.

Lemma alters_weaken (id : string) (c c' : internal.Conv.t) :
  more.alters id false c c' -> more.alters id true c c'.
Proof.
  intros (st & st' & Hst & Hsrc & Hcols & _ & Hp). exists st, st'.
  split; [exact Hst|]. split; [exact Hsrc|]. split; [exact Hcols|].
  split; [discriminate | exact Hp].
Qed.

Lemma alters_constraint (conv : internal.Conv.t) (tableId : string)
      (constraint : ast.Constraint.t) (stmtType : string) (m : gmap string string)
      (st : schema.Table.t) (conv' : internal.Conv.t) :
  internal.Conv.SrcSchema conv !! tableId = Some st ->
  mysql.processConstraint conv tableId constraint stmtType m = Ok conv' ->
  more.alters tableId true conv conv'.
Proof.
  intros Hst H.
  destruct (processConstraint_frame _ _ _ _ _ _ _ Hst H)
    as (st' & Hsrc & Hq & Hid & Hname & Hcols & Hmap & Hchk & _).
  exists st, st'. split; [exact Hst|]. split; [exact Hsrc|].
  split; [repeat split; assumption|]. split; [discriminate|].
  now apply schemaPass_quietSchema.
Qed.

Lemma alters_statement (id : string) (fkToo : bool) (ty : string)
      (s : internal.statementStat.t) (c c' : internal.Conv.t) :
  more.alters id fkToo c c' -> more.alters id fkToo c (internal.setStatementStat ty s c').
Proof.
  intros H. eapply alters_trans; [exact H|].
  destruct (alters_lookup _ _ _ _ H) as [st Hst].
  apply (alters_pass id fkToo c' _ st Hst); [reflexivity | apply schemaPass_setStatementStat].
Qed.

Lemma alters_upd (id : string) (fkToo : bool) (f : schema.Table.t -> schema.Table.t)
      (c0 c : internal.Conv.t) :
  (forall t, more.sameColumns t (f t)
             /\ schema.Table.ForeignKeys (f t) = schema.Table.ForeignKeys t) ->
  more.alters id fkToo c0 c ->
  more.alters id fkToo c0 (mysql.updTable id f c).
Proof.
  intros Hf H. destruct (alters_lookup _ _ _ _ H) as [st Hst].
  eapply alters_trans; [exact H|]. now apply (alters_updTable _ _ _ _ st).
Qed.

Lemma alters_quiet (id : string) (fkToo : bool) (c0 c c' : internal.Conv.t) :
  more.quiet c c' -> more.alters id fkToo c0 c -> more.alters id fkToo c0 c'.
Proof.
  intros Hq H. destruct (alters_lookup _ _ _ _ H) as [st Hst].
  eapply alters_trans; [exact H|].
  apply (alters_pass _ _ _ _ st Hst); [apply (quiet_fields _ _ Hq) | now apply schemaPass_quiet].
Qed.

Lemma alters_checkEmpty (id : string) (fkToo : bool) (c0 c : internal.Conv.t)
      (pkeys : list schema.Key.t) (stmtType : string) :
  more.alters id fkToo c0 c -> more.alters id fkToo c0 (mysql.checkEmpty c pkeys stmtType).
Proof. apply alters_quiet, quiet_checkEmpty. Qed.

Lemma alters_logStmtError (id : string) (fkToo : bool) (c0 c : internal.Conv.t)
      (node : ast.StmtNode) (err : string) :
  more.alters id fkToo c0 c -> more.alters id fkToo c0 (mysql.logStmtError c node err).
Proof.
  intros H. unfold mysql.logStmtError, internal.ErrorInStatement.
  apply alters_statement. eapply alters_quiet; [apply quiet_Unexpected | exact H].
Qed.

Lemma processSpecs_alters (node : ast.StmtNode) (tbl : schema.Table.t)
      (specs : list ast.AlterTableSpec.t) :
  forall (conv : internal.Conv.t) (conv' : internal.Conv.t),
  is_Some (internal.Conv.SrcSchema conv !! schema.Table.Id tbl) ->
  mysql.processSpecs conv node tbl specs = Ok conv' ->
  more.alters (schema.Table.Id tbl) (existsb more.addsConstraint specs) conv conv'.
Proof.
  induction specs as [|item rest IH]; intros conv conv' [st Hst] H.
  - injection H as <-. now apply (alters_refl _ _ _ st).
  - cbn [mysql.processSpecs] in H. cbn [existsb]. unfold more.addsConstraint at 1.
    assert (Hnext : forall b c,
               more.alters (schema.Table.Id tbl) b conv c ->
               mysql.processSpecs c node tbl rest = Ok conv' ->
               more.alters (schema.Table.Id tbl)
                           (b || existsb more.addsConstraint rest) conv conv').
    { intros b c Hc Hrun. specialize (IH c conv' (alters_lookup _ _ _ _ Hc) Hrun).
      destruct b, (existsb more.addsConstraint rest); cbn [orb].
      - eapply alters_trans; eassumption.
      - eapply alters_trans; [exact Hc | apply alters_weaken; exact IH].
      - eapply alters_trans; [apply alters_weaken; exact Hc | exact IH].
      - eapply alters_trans; eassumption. }
    destruct (ast.AlterTableSpec.Tp item).
    + (* ADD CONSTRAINT *)
      destruct (ast.AlterTableSpec.Constraint item) as [constraint|]; [|discriminate H].
      destruct (mysql.processConstraint conv _ constraint _ _) as [conv1|why] eqn:Hc;
        cbn [mbind res_bind] in H; [|discriminate H].
      pose proof (alters_constraint _ _ _ _ _ _ _ Hst Hc) as H1.
      apply (Hnext true _ (alters_statement _ _ (mysql.NodeType node) _ _ _ H1) H).
    + (* MODIFY COLUMN *)
      destruct (ast.AlterTableSpec.NewColumns item) as [|newColumn others]; [discriminate H|].
      destruct (mysql.processColumn conv newColumn) as [[r conv1]|why] eqn:Hcol;
        cbn [mbind res_bind] in H; [|discriminate H].
      apply processColumn_spec in Hcol as [Hlog Hr].
      pose proof (quiet_logOnly _ _ Hlog) as Hq.
      pose proof (quiet_fields _ _ Hq) as (Hsrc1 & _).
      assert (H01 : more.alters (schema.Table.Id tbl) false conv conv1)
        by (apply (alters_quiet _ _ _ _ _ Hq), (alters_refl _ _ _ st Hst)).
      destruct r as [[[colname col] cc]|err].
      * destruct Hr as (_ & _ & _ & _ & _ & _ & _ & Hcolids).
        rewrite Hsrc1, Hst, Hcolids in H.
        refine (Hnext false _ _ H).
        apply alters_statement.
        destruct (mysql.columnConstraint.isUniqueKey cc), (mysql.columnConstraint.isPk cc);
          repeat first [ apply alters_upd; [intros t; repeat split|]
                       | apply alters_checkEmpty ];
          exact H01.
      * injection H as <-. cbn [orb].
        assert (Hend : more.alters (schema.Table.Id tbl) false conv
                                   (mysql.logStmtError conv1 node err))
          by now apply alters_logStmtError.
        destruct (existsb more.addsConstraint rest); [now apply alters_weaken | exact Hend].
    + (* other *)
      refine (Hnext false _ _ H).
      apply alters_statement, (alters_refl _ _ _ st Hst).
Qed.

Lemma GetSrcTableByName_Some (m : gmap string schema.Table.t) (name : string)
      (tbl : schema.Table.t) :
  internal.GetSrcTableByName m name = Some tbl ->
  exists k, m !! k = Some tbl /\ schema.Table.Name tbl = name.
Proof.
  unfold internal.GetSrcTableByName.
  destruct (List.find _ _) as [[k t]|] eqn:Hfind; [|discriminate].
  intros [= <-]. apply List.find_some in Hfind as [Hin Hname].
  exists k. split.
  - apply elem_of_map_to_list, list_elem_of_In. exact Hin.
  - now apply String.eqb_eq.
Qed.

Lemma alters_sameTables (id : string) (fkToo : bool) (c c' : internal.Conv.t) :
  more.alters id fkToo c c' ->
  more.sameTables fkToo (internal.Conv.SrcSchema c) (internal.Conv.SrcSchema c').
Proof.
  intros (st & st' & Hst & Hsrc & Hcols & Hfk & _) k. rewrite Hsrc.
  destruct (decide (k = id)) as [->|Hne].
  - rewrite Hst, lookup_insert_eq. constructor. now split.
  - rewrite lookup_insert_ne by congruence.
    destruct (internal.Conv.SrcSchema c !! k); constructor.
    split; [apply sameColumns_refl | reflexivity].
Qed.

Lemma alters_wellKeyed (id : string) (fkToo : bool) (c c' : internal.Conv.t) :
  more.wellKeyed (internal.Conv.SrcSchema c) ->
  more.alters id fkToo c c' ->
  more.wellKeyed (internal.Conv.SrcSchema c').
Proof.
  intros Hwk (st & st' & Hst & Hsrc & Hcols & _) k t. rewrite Hsrc.
  destruct (decide (k = id)) as [->|Hne].
  - rewrite lookup_insert_eq. intros [= <-]. destruct Hcols as [-> _]. now apply Hwk.
  - rewrite lookup_insert_ne by congruence. apply Hwk.
Qed.

Lemma sameTables_refl (fkToo : bool) (m : gmap string schema.Table.t) :
  more.sameTables fkToo m m.
Proof.
  intros k. destruct (m !! k); constructor. split; [apply sameColumns_refl | reflexivity].
Qed.

Lemma processAlterTable_outcome
      (conv : internal.Conv.t) (stmt : ast.AlterTableStmt.t) (conv' : internal.Conv.t) :
  more.wellKeyed (internal.Conv.SrcSchema conv) ->
  mysql.processAlterTable conv stmt = Ok conv' ->
  (internal.Conv.SrcSchema conv' = internal.Conv.SrcSchema conv /\ more.schemaPass conv conv')
  \/ exists id, more.alters id (existsb more.addsConstraint (ast.AlterTableStmt.Specs stmt))
                            conv conv'.
Proof.
  intros Hwk H. unfold mysql.processAlterTable in H.
  destruct (ast.AlterTableStmt.Table stmt) as [table|];
    [|injection H as <-; left; split; [reflexivity | apply schemaPass_logStmtError]].
  destruct (mysql.getTableName table) as [tableName|err];
    [|injection H as <-; left; split; [reflexivity | apply schemaPass_logStmtError]].
  destruct (internal.GetSrcTableByName _ tableName) as [tbl|] eqn:Hfind;
    [|injection H as <-; left; split; [reflexivity | apply schemaPass_setStatementStat]].
  apply GetSrcTableByName_Some in Hfind as (k & Hk & _).
  pose proof (Hwk _ _ Hk) as Hid. subst k.
  right. exists (schema.Table.Id tbl). apply (processSpecs_alters _ _ _ _ _ (mk_is_Some _ _ Hk) H).
Qed.

(** X17. ALTER TABLE never adds, removes or renames a table and never
    changes the columns a table has: on a source schema whose tables are
    filed under their own ids, whenever [processAlterTable] returns, the
    schema has the same tables under the same keys, each with its id,
    name, column ids, name-to-id map and check constraints, and the
    tables are still filed under their own ids.  Foreign keys are added
    by ADD CONSTRAINT only: without such an item every table keeps its
    foreign keys, so a REFERENCES option in MODIFY COLUMN is dropped.
    Mode, target schema, data sink, time zone and row counts are
    untouched. *)
Theorem processAlterTable_keeps_tables
        (conv : internal.Conv.t) (stmt : ast.AlterTableStmt.t) (conv' : internal.Conv.t) :
  more.wellKeyed (internal.Conv.SrcSchema conv) ->
  mysql.processAlterTable conv stmt = Ok conv' ->
  more.sameTables (existsb more.addsConstraint (ast.AlterTableStmt.Specs stmt))
                  (internal.Conv.SrcSchema conv) (internal.Conv.SrcSchema conv')
  /\ more.wellKeyed (internal.Conv.SrcSchema conv')
  /\ more.schemaPass conv conv'.
Proof.
  intros Hwk H. destruct (processAlterTable_outcome conv stmt conv' Hwk H) as [[Hsrc Hp]|[id Ha]].
  - rewrite Hsrc. split; [apply sameTables_refl|]. split; [exact Hwk | exact Hp].
  - split; [now apply (alters_sameTables id)|].
    split; [exact (alters_wellKeyed id _ conv conv' Hwk Ha)|].
    destruct Ha as (_ & _ & _ & _ & _ & _ & Hp). exact Hp.
Qed.

Lemma wellKeyed_convSchema : more.wellKeyed (internal.Conv.SrcSchema demo.convSchema).
Proof.
  intros k t H. change (internal.Conv.SrcSchema demo.convSchema)
    with (<["t1" := demo.tableT1]> (∅ : gmap string schema.Table.t)) in H.
  apply lookup_insert_Some in H as [[<- <-]|[_ H]]; [reflexivity|].
  now rewrite lookup_empty in H.
Qed.

Lemma processAlterTable_keeps_tables_witness :
  exists conv' t',
    mysql.processAlterTable demo.convSchema more.alterModifyReferences = Ok conv'
    /\ internal.Conv.SrcSchema conv' !! "t1" = Some t'
    /\ schema.Table.ForeignKeys t' = schema.Table.ForeignKeys demo.tableT1.
Proof.
  destruct (mysql.processAlterTable demo.convSchema more.alterModifyReferences)
    as [conv'|why] eqn:H; [|vm_compute in H; discriminate H].
  destruct (processAlterTable_keeps_tables demo.convSchema more.alterModifyReferences conv'
              wellKeyed_convSchema H) as (Hsame & _ & _).
  specialize (Hsame "t1").
  change (internal.Conv.SrcSchema demo.convSchema !! "t1") with (Some demo.tableT1) in Hsame.
  inversion Hsame as [t t' [_ Hfk] Ht Ht'|]; subst.
  exists conv', t'. split; [reflexivity|]. split; [now symmetry | now apply Hfk].
Defined.

Lemma processCreateIndex_outcome (conv : internal.Conv.t) (stmt : ast.CreateIndexStmt.t) :
  more.wellKeyed (internal.Conv.SrcSchema conv) ->
  let conv' := mysql.processCreateIndex conv stmt in
  (internal.Conv.SrcSchema conv' = internal.Conv.SrcSchema conv /\ more.schemaPass conv conv')
  \/ exists tbl idx,
       internal.Conv.SrcSchema conv !! schema.Table.Id tbl = Some tbl
       /\ internal.Conv.SrcSchema conv'
          = <[schema.Table.Id tbl :=
                schema.Table.setIndexes (schema.Table.Indexes tbl ++ [idx]) tbl]>
              (internal.Conv.SrcSchema conv)
       /\ more.quietSchema conv conv'
       /\ internal.Conv.Stats conv' = internal.Conv.Stats conv
       /\ schema.Index.Name idx = ast.CreateIndexStmt.IndexName stmt
       /\ schema.Index.Keys idx
          = mysql.toSchemaKeys (ast.CreateIndexStmt.IndexPartSpecifications stmt)
                               (schema.Table.ColNameIdMap tbl)
       /\ schema.Index.Id idx = ("i" ++ strconv.Itoa (S (internal.Conv.Cntr conv)))%string
       /\ exists table,
            ast.CreateIndexStmt.Table stmt = Some table
            /\ mysql.getTableName table = Value (schema.Table.Name tbl).
Proof.
  intros Hwk conv'. subst conv'. unfold mysql.processCreateIndex.
  destruct (ast.CreateIndexStmt.Table stmt) as [table|];
    [|left; split; [reflexivity | apply schemaPass_logStmtError]].
  destruct (mysql.getTableName table) as [tableName|err] eqn:Htable;
    [|left; split; [reflexivity | apply schemaPass_logStmtError]].
  destruct (internal.GetSrcTableByName _ tableName) as [tbl|] eqn:Hfind.
  - apply GetSrcTableByName_Some in Hfind as (k & Hk & Hname).
    pose proof (Hwk _ _ Hk) as Hid. subst k. rewrite Hk. simpl default.
    unfold internal.GenerateIndexesId, internal.GenerateId. cbv beta iota zeta.
    right. eexists tbl, _. split; [exact Hk|]. split; [reflexivity|].
    split; [|repeat split; exists table; split; [reflexivity | now rewrite Hname]].
    destruct conv as [? ? ? [] ? ? ?]. unfold more.quietSchema, more.quiet. simpl.
    split; [reflexivity | lia].
  - left. split; [reflexivity|].
    eapply schemaPass_trans; [apply schemaPass_quiet, quiet_Unexpected|].
    apply schemaPass_setStatementStat.
Qed.

(** X18. CREATE INDEX on a source schema whose tables are filed under
    their own ids changes at most one table, the one found by the name in
    the statement, and of it the indexes only: the source schema is as
    before at every key but one, a table that differs from what it was
    has the name that the statement gives, and exactly one index is
    appended to it, with the index name of the statement and a freshly
    drawn id, in which case the statement is not counted at all.  No
    table is added or removed, every table keeps its columns, its primary
    key, its foreign keys and its column definitions, and the tables are
    still filed under their own ids. *)
Theorem processCreateIndex_keeps_tables
        (conv : internal.Conv.t) (stmt : ast.CreateIndexStmt.t) :
  more.wellKeyed (internal.Conv.SrcSchema conv) ->
  let conv' := mysql.processCreateIndex conv stmt in
  more.wellKeyed (internal.Conv.SrcSchema conv')
  /\ more.schemaPass conv conv'
  /\ (exists id, forall k,
        k <> id -> internal.Conv.SrcSchema conv' !! k = internal.Conv.SrcSchema conv !! k)
  /\ (forall k t t',
        internal.Conv.SrcSchema conv !! k = Some t ->
        internal.Conv.SrcSchema conv' !! k = Some t' ->
        t' <> t ->
        exists table,
          ast.CreateIndexStmt.Table stmt = Some table
          /\ mysql.getTableName table = Value (schema.Table.Name t))
  /\ forall k,
       option_Forall2
         (fun t t' =>
            more.sameColumns t t'
            /\ schema.Table.ColDefs t' = schema.Table.ColDefs t
            /\ schema.Table.PrimaryKeys t' = schema.Table.PrimaryKeys t
            /\ schema.Table.ForeignKeys t' = schema.Table.ForeignKeys t
            /\ (t' = t
                \/ (internal.Conv.Stats conv' = internal.Conv.Stats conv
                    /\ exists idx,
                         schema.Table.Indexes t' = (schema.Table.Indexes t ++ [idx])%list
                         /\ schema.Index.Name idx = ast.CreateIndexStmt.IndexName stmt
                         /\ schema.Index.Id idx
                            = ("i" ++ strconv.Itoa (S (internal.Conv.Cntr conv)))%string)))
         (internal.Conv.SrcSchema conv !! k) (internal.Conv.SrcSchema conv' !! k).
Proof.
  intros Hwk conv'.
  assert (Hsame : forall (m : gmap string schema.Table.t) k,
             option_Forall2
               (fun t t' =>
                  more.sameColumns t t'
                  /\ schema.Table.ColDefs t' = schema.Table.ColDefs t
                  /\ schema.Table.PrimaryKeys t' = schema.Table.PrimaryKeys t
                  /\ schema.Table.ForeignKeys t' = schema.Table.ForeignKeys t
                  /\ (t' = t
                      \/ (internal.Conv.Stats conv' = internal.Conv.Stats conv
                          /\ exists idx,
                               schema.Table.Indexes t' = (schema.Table.Indexes t ++ [idx])%list
                               /\ schema.Index.Name idx = ast.CreateIndexStmt.IndexName stmt
                               /\ schema.Index.Id idx
                                  = ("i" ++ strconv.Itoa (S (internal.Conv.Cntr conv)))%string)))
               (m !! k) (m !! k)).
  { intros m k. destruct (m !! k); constructor. repeat split. now left. }
  destruct (processCreateIndex_outcome conv stmt Hwk)
    as [[Hsrc Hp]|(tbl & idx & Htbl & Hsrc & Hq & Hstats & Hname & _ & Hid & Hnamed)];
    fold conv' in Hsrc |- *.
  - rewrite Hsrc. split; [exact Hwk|]. split; [exact Hp|].
    split; [exists ""; reflexivity|].
    split; [intros k t t' Ht Ht' Hne; congruence|].
    intros k. apply Hsame.
  - fold conv' in Hq, Hstats.
    split; [|split; [now apply schemaPass_quietSchema|split; [|split]]].
    + intros k t. rewrite Hsrc. destruct (decide (k = schema.Table.Id tbl)) as [->|Hne].
      * rewrite lookup_insert_eq. intros [= <-]. reflexivity.
      * rewrite lookup_insert_ne by congruence. apply Hwk.
    + exists (schema.Table.Id tbl). intros k Hne. rewrite Hsrc.
      now rewrite lookup_insert_ne by congruence.
    + intros k t t' Ht Ht' Hdiff. rewrite Hsrc in Ht'.
      destruct (decide (k = schema.Table.Id tbl)) as [->|Hne].
      * rewrite Htbl in Ht. injection Ht as <-. exact Hnamed.
      * rewrite lookup_insert_ne in Ht' by congruence. congruence.
    + intros k. rewrite Hsrc. destruct (decide (k = schema.Table.Id tbl)) as [->|Hne].
      * rewrite lookup_insert_eq, Htbl. constructor. repeat split.
        right. split; [exact Hstats|]. exists idx. repeat split; assumption.
      * rewrite lookup_insert_ne by congruence. apply Hsame.
Qed.

Lemma processCreateIndex_keeps_tables_witness :
  exists t',
    internal.Conv.SrcSchema (mysql.processCreateIndex demo.convSchema demo.createIndexDesc)
      !! "t1" = Some t'
    /\ schema.Table.PrimaryKeys t' = schema.Table.PrimaryKeys demo.tableT1.
Proof.
  destruct (processCreateIndex_keeps_tables demo.convSchema demo.createIndexDesc
              wellKeyed_convSchema) as (_ & _ & _ & _ & Hsame).
  specialize (Hsame "t1").
  change (internal.Conv.SrcSchema demo.convSchema !! "t1") with (Some demo.tableT1) in Hsame.
  remember (internal.Conv.SrcSchema (mysql.processCreateIndex demo.convSchema
                                       demo.createIndexDesc) !! "t1") as o eqn:Ho.
  clear Ho. inversion Hsame as [t t' (_ & _ & Hpk & _) Ht Ht'|]; subst.
  exists t'. split; [reflexivity | exact Hpk].
Defined.

(** ** Schema mode: the source schema only grows *)

Lemma grows_refl (c : internal.Conv.t) : more.grows c c.
Proof.
  repeat split; try lia. intros k t H. exists t. split; [exact H | apply sameColumns_refl].
Qed.

Lemma grows_trans (a b c : internal.Conv.t) :
  more.grows a b -> more.grows b c -> more.grows a c.
Proof.
  intros (Hm1 & Hsp1 & Hs1 & Hle1 & Ht1) (Hm2 & Hsp2 & Hs2 & Hle2 & Ht2).
  split; [congruence|]. split; [congruence|]. split; [congruence|]. split; [lia|].
  intros k t H. destruct (Ht1 _ _ H) as (t1 & H1 & Hc1).
  destruct (Ht2 _ _ H1) as (t2 & H2 & Hc2). exists t2.
  split; [exact H2 | eapply sameColumns_trans; eassumption].
Qed.

Lemma grows_same (c c' : internal.Conv.t) :
  internal.Conv.SrcSchema c' = internal.Conv.SrcSchema c ->
  internal.Conv.mode_ c' = internal.Conv.mode_ c ->
  internal.Conv.SpSchema c' = internal.Conv.SpSchema c ->
  internal.Conv.Sink c' = internal.Conv.Sink c ->
  (internal.Conv.Cntr c <= internal.Conv.Cntr c')%nat ->
  more.grows c c'.
Proof.
  intros Hsrc Hm Hsp Hs Hle. repeat split; try assumption.
  intros k t H. exists t. rewrite Hsrc. split; [exact H | apply sameColumns_refl].
Qed.

Lemma grows_schemaPass_same (c c' : internal.Conv.t) :
  internal.Conv.SrcSchema c' = internal.Conv.SrcSchema c ->
  more.schemaPass c c' -> more.grows c c'.
Proof.
  intros Hsrc Hp. apply schemaPass_fields in Hp as (Hm & Hsp & Hs & _ & _ & _ & Hle).
  now apply grows_same.
Qed.

Lemma filed_wellKeyed (c : internal.Conv.t) :
  more.filed c -> more.wellKeyed (internal.Conv.SrcSchema c).
Proof. intros H k t Hk. now apply (H k t Hk). Qed.

Lemma filed_same (c c' : internal.Conv.t) :
  internal.Conv.SrcSchema c' = internal.Conv.SrcSchema c ->
  (internal.Conv.Cntr c <= internal.Conv.Cntr c')%nat ->
  more.filed c -> more.filed c'.
Proof.
  intros Hsrc Hle H k t Hk. rewrite Hsrc in Hk. destruct (H k t Hk) as (Hid & n & Hn & Hb).
  split; [exact Hid|]. exists n. split; [exact Hn | lia].
Qed.

Lemma alters_grows (id : string) (fkToo : bool) (c c' : internal.Conv.t) :
  more.filed c -> more.alters id fkToo c c' -> more.filed c' /\ more.grows c c'.
Proof.
  intros Hf Ha. pose proof Ha as (st & st' & Hst & Hsrc & Hcols & _ & Hp).
  pose proof (schemaPass_fields _ _ Hp) as (Hm & Hsp & Hs & _ & _ & _ & Hle).
  split.
  - intros k t Hk. rewrite Hsrc in Hk. destruct (decide (k = id)) as [->|Hne].
    + rewrite lookup_insert_eq in Hk. injection Hk as <-.
      destruct (Hf _ _ Hst) as (Hid & n & Hn & Hb). destruct Hcols as [-> _].
      split; [exact Hid|]. exists n. split; [exact Hn | lia].
    + rewrite lookup_insert_ne in Hk by congruence.
      destruct (Hf _ _ Hk) as (Hid & n & Hn & Hb).
      split; [exact Hid|]. exists n. split; [exact Hn | lia].
  - repeat split; try assumption. intros k t Hk. rewrite Hsrc.
    destruct (decide (k = id)) as [->|Hne].
    + rewrite lookup_insert_eq. rewrite Hst in Hk. injection Hk as <-. now exists st'.
    + rewrite lookup_insert_ne by congruence. exists t. split; [exact Hk | apply sameColumns_refl].
Qed.

Lemma refused_dec (stmt : ast.CreateTableStmt.t) :
  more.refused stmt
  \/ exists table tableName,
       ast.CreateTableStmt.Table stmt = Some table
       /\ mysql.getTableName table = Value tableName
       /\ existsb more.malformed (ast.CreateTableStmt.Cols stmt) = false.
Proof.
  unfold more.refused. destruct (ast.CreateTableStmt.Table stmt) as [table|]; [|now left].
  destruct (mysql.getTableName table) as [tableName|err] eqn:Hname; [|now left].
  destruct (existsb _ _); [now left|]. right. now exists table, tableName.
Qed.

Lemma tableId_inj (n m : nat) :
  ("t" ++ strconv.Itoa n)%string = ("t" ++ strconv.Itoa m)%string -> n = m.
Proof. rewrite !append_cons, !append_nil. intros [= H]. now apply Itoa_inj. Qed.

Lemma processCreateTable_grows
      (conv : internal.Conv.t) (stmt : ast.CreateTableStmt.t) (conv' : internal.Conv.t) :
  more.filed conv ->
  mysql.processCreateTable conv stmt = Ok conv' ->
  more.filed conv' /\ more.grows conv conv'.
Proof.
  intros Hf H. destruct (refused_dec stmt) as [Href|(table & tableName & Htable & Hname & Hcols)].
  - destruct (processCreateTable_refused_quiet conv stmt conv' Href H) as [Hq _].
    pose proof (quiet_fields _ _ Hq) as (Hsrc & Hsp & Hm & Hs & _).
    destruct Hq as [_ Hle].
    split; [now apply (filed_same conv)|]. now apply grows_same.
  - destruct (processCreateTable_table conv stmt table tableName conv' Htable Hname Hcols H)
      as (tbl & Hsrc & Hq & Hid & _ & _ & _ & _ & Hlt).
    pose proof (quietSchema_fields _ _ Hq) as (Hsp & Hm & Hs & _).
    assert (Hfresh : forall k t, internal.Conv.SrcSchema conv !! k = Some t ->
                                 k <> ("t" ++ strconv.Itoa (S (internal.Conv.Cntr conv)))%string).
    { intros k t Hk ->. destruct (Hf _ _ Hk) as (_ & n & Hn & Hb).
      apply tableId_inj in Hn. lia. }
    split.
    + intros k t Hk. rewrite Hsrc in Hk.
      apply lookup_insert_Some in Hk as [[<- <-]|[Hne Hk]].
      * split; [exact Hid|]. exists (S (internal.Conv.Cntr conv)). split; [reflexivity | lia].
      * destruct (Hf _ _ Hk) as (Hid' & n & Hn & Hb).
        split; [exact Hid'|]. exists n. split; [exact Hn | lia].
    + repeat split; try assumption; try lia. intros k t Hk. exists t. rewrite Hsrc.
      rewrite lookup_insert_ne by (intros Heq; now apply (Hfresh _ _ Hk)).
      split; [exact Hk | apply sameColumns_refl].
Qed.

Lemma processAlterTable_grows
      (conv : internal.Conv.t) (stmt : ast.AlterTableStmt.t) (conv' : internal.Conv.t) :
  more.filed conv ->
  mysql.processAlterTable conv stmt = Ok conv' ->
  more.filed conv' /\ more.grows conv conv'.
Proof.
  intros Hf H.
  destruct (processAlterTable_outcome conv stmt conv' (filed_wellKeyed _ Hf) H)
    as [[Hsrc Hp]|[id Ha]].
  - split; [|now apply grows_schemaPass_same].
    apply (filed_same conv); [exact Hsrc | apply (schemaPass_fields _ _ Hp) | exact Hf].
  - exact (alters_grows id _ conv conv' Hf Ha).
Qed.

Lemma processCreateIndex_grows (conv : internal.Conv.t) (stmt : ast.CreateIndexStmt.t) :
  more.filed conv ->
  more.filed (mysql.processCreateIndex conv stmt)
  /\ more.grows conv (mysql.processCreateIndex conv stmt).
Proof.
  intros Hf.
  destruct (processCreateIndex_outcome conv stmt (filed_wellKeyed _ Hf))
    as [[Hsrc Hp]|(tbl & idx & Htbl & Hsrc & Hq & _)].
  - split; [|now apply grows_schemaPass_same].
    apply (filed_same conv); [exact Hsrc | apply (schemaPass_fields _ _ Hp) | exact Hf].
  - apply (alters_grows (schema.Table.Id tbl) false); [exact Hf|].
    exists tbl, (schema.Table.setIndexes (schema.Table.Indexes tbl ++ [idx]) tbl).
    split; [exact Htbl|]. split; [exact Hsrc|]. split; [repeat split|].
    split; [reflexivity | now apply schemaPass_quietSchema].
Qed.

Lemma processSetVars_same (node : ast.StmtNode) (variables : list ast.VariableAssignment.t) :
  forall conv : internal.Conv.t,
  let conv' := mysql.processSetVars conv node variables in
  internal.Conv.SrcSchema conv' = internal.Conv.SrcSchema conv
  /\ internal.Conv.mode_ conv' = internal.Conv.mode_ conv
  /\ internal.Conv.SpSchema conv' = internal.Conv.SpSchema conv
  /\ internal.Conv.Sink conv' = internal.Conv.Sink conv
  /\ internal.Conv.Cntr conv' = internal.Conv.Cntr conv.
Proof.
  induction variables as [|variable rest IH]; intros conv; [repeat split|].
  cbn [mysql.processSetVars]. destruct (String.eqb _ _); [|apply IH].
  destruct (ast.VariableAssignment.Value variable) as [[| | |]| |];
    try (repeat split; fail);
    match goal with
    | |- context [mysql.processSetVars ?c node rest] =>
        destruct (IH c) as (H1 & H2 & H3 & H4 & H5); cbv zeta;
        rewrite H1, H2, H3, H4, H5; repeat split
    end.
Qed.

Section SchemaMode.

Variable E : mysql.Externals.

Lemma processInsertStmt_schema_same (conv : internal.Conv.t) (stmt : ast.InsertStmt.t) :
  internal.SchemaMode conv = true ->
  let conv' := mysql.processInsertStmt E conv stmt in
  internal.Conv.SrcSchema conv' = internal.Conv.SrcSchema conv
  /\ internal.Conv.mode_ conv' = internal.Conv.mode_ conv
  /\ internal.Conv.SpSchema conv' = internal.Conv.SpSchema conv
  /\ internal.Conv.Sink conv' = internal.Conv.Sink conv
  /\ internal.Conv.Cntr conv' = internal.Conv.Cntr conv.
Proof.
  intros Hmode conv'. subst conv'. unfold mysql.processInsertStmt.
  destruct (ast.InsertStmt.Table stmt) as [table|]; [|repeat split].
  destruct (mysql.getTableNameInsert table) as [srcTable|err]; [|repeat split].
  rewrite Hmode. repeat split.
Qed.

Lemma processStatement_grows (conv : internal.Conv.t) (stmt : ast.StmtNode) (b : bool)
      (conv' : internal.Conv.t) :
  internal.SchemaMode conv = true ->
  more.filed conv ->
  mysql.processStatement E conv stmt = Ok (b, conv') ->
  more.filed conv' /\ more.grows conv conv'.
Proof.
  intros Hmode Hf H. unfold mysql.processStatement in H. rewrite ?Hmode in H.
  destruct stmt as [s|s|s|s|s|ty].
  - destruct (mysql.processCreateTable conv s) as [conv1|why] eqn:Hrun;
      cbn [mbind res_bind] in H; [|discriminate H].
    injection H as _ <-. now apply (processCreateTable_grows conv s).
  - destruct (mysql.processAlterTable conv s) as [conv1|why] eqn:Hrun;
      cbn [mbind res_bind] in H; [|discriminate H].
    injection H as _ <-. now apply (processAlterTable_grows conv s).
  - injection H as _ <-. unfold mysql.processSetStmt.
    destruct (processSetVars_same (ast.Set_ s) (ast.SetStmt.Variables s) conv)
      as (Hsrc & Hm & Hsp & Hs & Hc).
    split; [apply (filed_same conv); [exact Hsrc | lia | exact Hf]|].
    apply grows_same; try assumption; lia.
  - injection H as _ <-.
    destruct (processInsertStmt_schema_same conv s Hmode) as (Hsrc & Hm & Hsp & Hs & Hc).
    split; [apply (filed_same conv); [exact Hsrc | lia | exact Hf]|].
    apply grows_same; try assumption; lia.
  - injection H as _ <-. now apply processCreateIndex_grows.
  - injection H as _ <-.
    split; [apply (filed_same conv); [reflexivity | simpl; lia | exact Hf]|].
    apply grows_same; reflexivity.
Qed.

End SchemaMode.

(** The statements of a chunk, in schema mode. *)
Lemma processStatements_grows
      (E : mysql.Externals) (stmts : list ast.StmtNode) (conv conv' : internal.Conv.t) :
  internal.SchemaMode conv = true ->
  more.filed conv ->
  mysql.processStatements E conv stmts = Ok conv' ->
  more.filed conv' /\ more.grows conv conv' /\ internal.SchemaMode conv' = true.
Proof.
  unfold mysql.processStatements. revert conv.
  induction stmts as [|stmt rest IH]; intros conv Hmode Hf H.
  - injection H as <-. split; [exact Hf|]. split; [apply grows_refl | exact Hmode].
  - rewrite forRange_cons in H.
    destruct (mysql.processStatement E conv stmt) as [[b conv1]|why] eqn:Hrun;
      cbn [mbind res_bind] in H; [|discriminate H].
    destruct (processStatement_grows E _ _ _ _ Hmode Hf Hrun) as [Hf1 Hg1].
    assert (Hmode1 : internal.SchemaMode conv1 = true).
    { unfold internal.SchemaMode in *. destruct Hg1 as (-> & _). exact Hmode. }
    destruct (IH conv1 Hmode1 Hf1 H) as (Hf' & Hg' & Hmode').
    split; [exact Hf'|]. split; [eapply grows_trans; eassumption | exact Hmode'].
Qed.

Lemma filed_convSchema : more.filed demo.convSchema.
Proof.
  intros k t H. change (internal.Conv.SrcSchema demo.convSchema)
    with (<["t1" := demo.tableT1]> (∅ : gmap string schema.Table.t)) in H.
  apply lookup_insert_Some in H as [[<- <-]|[_ H]]; [|now rewrite lookup_empty in H].
  split; [reflexivity|]. exists 1%nat. split; [reflexivity | simpl; lia].
Qed.

(** ** Reading and repairing only counts *)

Lemma countsOnly_refl (c : internal.Conv.t) : more.countsOnly c c.
Proof. conv_records. reflexivity. Qed.

Lemma countsOnly_trans (a b c : internal.Conv.t) :
  more.countsOnly a b -> more.countsOnly b c -> more.countsOnly a c.
Proof.
  conv_records. unfold more.countsOnly. simpl. intros Hab Hbc.
  injection Hab; injection Hbc; intros; subst. reflexivity.
Qed.

Lemma countsOnly_Unexpected (u : string) (c : internal.Conv.t) :
  more.countsOnly c (internal.Unexpected u c).
Proof. conv_records. reflexivity. Qed.

Lemma countsOnly_SkipStatement (ty : string) (c : internal.Conv.t) :
  more.countsOnly c (internal.SkipStatement ty c).
Proof. conv_records. reflexivity. Qed.

Lemma countsOnly_reparsed (c : internal.Conv.t) : more.countsOnly c (internal.reparsed c).
Proof. conv_records. reflexivity. Qed.

Section Reading.

Variable E : mysql.Externals.

Lemma insertValues_countsOnly (prefix : string) (values : list string) :
  forall (stmts stmts' : list ast.StmtNode) (conv conv' : internal.Conv.t),
  forRange (mysql.insertValueStep E prefix) values (stmts, conv) = Ok (stmts', conv') ->
  more.countsOnly conv conv'.
Proof.
  induction values as [|v rest IH]; intros stmts stmts' conv conv' H.
  - injection H as _ <-. apply countsOnly_refl.
  - rewrite forRange_cons, insertValueStep_eq in H.
    destruct (mysql.Parse E _) as [[|first tree]|err];
      cbn [mbind res_bind] in H; try discriminate H.
    + now apply IH in H.
    + apply IH in H. eapply countsOnly_trans; [|exact H].
      eapply countsOnly_trans; [|apply countsOnly_SkipStatement].
      destruct (internal.SchemaMode conv); [apply countsOnly_Unexpected | apply countsOnly_refl].
Qed.

Lemma spatialLoop_countsOnly (conv : internal.Conv.t) (chunk errMsg : string) (n : nat)
      (types : list string) :
  more.countsOnly conv (snd (mysql.spatialLoop E conv chunk errMsg n types)).
Proof.
  induction types as [|spatial rest IH]; simpl; [apply countsOnly_refl|].
  destruct (strings.Contains errMsg _); [|exact IH]. simpl.
  destruct (internal.SchemaMode conv); [apply countsOnly_Unexpected | apply countsOnly_refl].
Qed.

Lemma handleParseError_countsOnly (conv : internal.Conv.t) (chunk err : string)
      (l : list string) (tree : list ast.StmtNode) (ok : bool) (conv' : internal.Conv.t) :
  mysql.handleParseError E conv chunk err l = Ok (tree, ok, conv') ->
  more.countsOnly conv conv'.
Proof.
  unfold mysql.handleParseError. destruct (_ || _).
  - destruct (_ =? 1); [intros [= _ _ <-]; apply countsOnly_refl|].
    unfold mysql.skipUnsupported.
    destruct (strings.Contains _ "trigger"); [intros [= _ _ <-]; apply countsOnly_SkipStatement|].
    destruct (strings.Contains _ "procedure");
      [intros [= _ _ <-]; apply countsOnly_SkipStatement|].
    destruct (strings.Contains _ "function");
      intros [= _ _ <-]; [apply countsOnly_SkipStatement | apply countsOnly_refl].
  - destruct (negb _).
    + destruct (regexp.insertSplitSecond chunk) as [valuesChunk|why];
        cbn [mbind res_bind]; [|discriminate].
      unfold mysql.handleInsertStatement.
      destruct (Nat.eqb _ 0); [intros [= _ _ <-]; apply countsOnly_refl|].
      destruct (forRange _ _ _) as [[stmts conv1]|why] eqn:Hloop;
        cbn [mbind res_bind]; [|discriminate].
      intros [= _ _ <-]. now apply insertValues_countsOnly in Hloop.
    + intros H.
      pose proof (spatialLoop_countsOnly conv chunk (strings.ToLower err) (List.length l)
                    mysql.MysqlSpatialDataTypes) as Hs.
      apply (f_equal (fun r => match r with Ok x => snd x | Panic _ => conv end)) in H.
      simpl in H. rewrite <- H. exact Hs.
Qed.

Lemma readStep_countsOnly (conv : internal.Conv.t) (r : internal.Reader.t) (l : list string)
      (step : mysql.chunkStep) :
  mysql.readStep E conv r l = Ok step ->
  match step with
  | mysql.Return _ conv' _ => more.countsOnly conv conv'
  | mysql.Again conv' _ _ => more.countsOnly conv conv'
  end.
Proof.
  unfold mysql.readStep. destruct (internal.ReadLine r) as [b r1].
  assert (HorEOF : forall c r0 l0,
             more.countsOnly conv c ->
             match mysql.orEOF c r0 l0 with
             | mysql.Return _ conv' _ => more.countsOnly conv conv'
             | mysql.Again conv' _ _ => more.countsOnly conv conv'
             end).
  { intros c r0 l0 Hc. unfold mysql.orEOF. now destruct (internal.Reader.EOF r0). }
  destruct (_ || _); [|intros [= <-]; apply HorEOF, countsOnly_refl].
  destruct (regexp.adminMatch _); [intros [= <-]; apply countsOnly_refl|].
  destruct (mysql.Parse E _) as [tree|err]; [intros [= <-]; apply countsOnly_refl|].
  destruct (mysql.handleParseError E conv _ err _) as [[[newTree ok] conv1]|why] eqn:Hrepair;
    cbn [mbind res_bind]; [|discriminate].
  apply handleParseError_countsOnly in Hrepair.
  destruct ok; intros [= <-]; [exact Hrepair|].
  apply HorEOF. eapply countsOnly_trans; [exact Hrepair | apply countsOnly_reparsed].
Qed.

Lemma readLoop_countsOnly (fuel : nat) :
  forall (conv : internal.Conv.t) (r : internal.Reader.t) (l : list string)
         (result : Errorable (string * list ast.StmtNode)) (conv' : internal.Conv.t)
         (r' : internal.Reader.t),
  mysql.readLoop E fuel conv r l = Some (Ok (result, conv', r')) ->
  more.countsOnly conv conv'.
Proof.
  induction fuel as [|fuel IH]; intros conv r l result conv' r' H; simpl in H;
    destruct (mysql.readStep E conv r l) as [[res c r0|c r0 l0]|why] eqn:Hstep;
    try discriminate H; apply readStep_countsOnly in Hstep.
  - injection H as _ <- _. exact Hstep.
  - injection H as _ <- _. exact Hstep.
  - eapply countsOnly_trans; [exact Hstep|]. eapply IH. exact H.
Qed.

End Reading.

(** X20. Reading a chunk, with all its repairs of parse errors, only
    counts: whenever [readAndParseChunk] returns, with a chunk or with the
    error of the last lines, the context differs from the one passed at
    most in its statement counters, in its log of unexpected conditions
    and in its reparse count.  The source schema, the target schema, the
    mode, the id counter, the data sink, the time zone and the row and
    bad-row counts are untouched. *)
Theorem readAndParseChunk_counts_only
        (E : mysql.Externals) (conv : internal.Conv.t) (r : internal.Reader.t)
        (result : Errorable (string * list ast.StmtNode)) (conv' : internal.Conv.t)
        (r' : internal.Reader.t) :
  mysql.readAndParseChunk E conv r = Some (Ok (result, conv', r')) ->
  more.countsOnly conv conv'
  /\ internal.Conv.SrcSchema conv' = internal.Conv.SrcSchema conv
  /\ internal.Conv.SpSchema conv' = internal.Conv.SpSchema conv
  /\ internal.Conv.mode_ conv' = internal.Conv.mode_ conv
  /\ internal.Conv.Cntr conv' = internal.Conv.Cntr conv
  /\ internal.Conv.Sink conv' = internal.Conv.Sink conv
  /\ internal.Conv.TimezoneOffset conv' = internal.Conv.TimezoneOffset conv
  /\ internal.stats.Rows (internal.Conv.Stats conv') = internal.stats.Rows (internal.Conv.Stats conv)
  /\ internal.stats.BadRows (internal.Conv.Stats conv')
     = internal.stats.BadRows (internal.Conv.Stats conv).
Proof.
  unfold mysql.readAndParseChunk. intros H. apply readLoop_countsOnly in H.
  split; [exact H|]. rewrite H. repeat split.
Qed.

Lemma readAndParseChunk_counts_only_witness :
  exists result conv' r',
    mysql.readAndParseChunk demo.E demo.convData demo.badTokenDump = Some (Ok (result, conv', r'))
    /\ internal.Conv.SrcSchema conv' = internal.Conv.SrcSchema demo.convData
    /\ internal.Conv.Sink conv' = internal.Conv.Sink demo.convData.
Proof.
  destruct (mysql.readAndParseChunk demo.E demo.convData demo.badTokenDump)
    as [[[[result conv'] r']|why]|] eqn:H; try (vm_compute in H; discriminate H).
  destruct (readAndParseChunk_counts_only demo.E demo.convData demo.badTokenDump
              result conv' r' H) as (_ & Hsrc & _ & _ & _ & Hsink & _).
  exists result, conv', r'. split; [reflexivity|]. split; assumption.
Defined.

(** ** A whole dump in schema mode *)

Section DumpGrows.

Variable E : mysql.Externals.

Lemma countsOnly_grows (c c' : internal.Conv.t) :
  more.countsOnly c c' ->
  more.filed c ->
  more.filed c' /\ more.grows c c' /\ internal.SchemaMode c' = internal.SchemaMode c.
Proof.
  intros H Hf.
  assert (Hsrc : internal.Conv.SrcSchema c' = internal.Conv.SrcSchema c) by now rewrite H.
  assert (Hc : internal.Conv.Cntr c' = internal.Conv.Cntr c) by now rewrite H.
  split; [apply (filed_same c); [exact Hsrc | lia | exact Hf]|].
  split; [apply grows_same; try (now rewrite H); lia|].
  now rewrite H.
Qed.

Lemma dumpLoop_grows (fuel : nat) :
  forall (conv : internal.Conv.t) (r : internal.Reader.t) (err : option string)
         (conv' : internal.Conv.t) (r' : internal.Reader.t),
  internal.SchemaMode conv = true ->
  more.filed conv ->
  mysql.dumpLoop E fuel conv r = Some (Ok (err, conv', r')) ->
  exists conv1,
    more.filed conv1
    /\ more.grows conv conv1
    /\ internal.SchemaMode conv1 = true
    /\ conv' = match err with
               | Some _ => conv1
               | None =>
                   internal.Conv.setSrcSchema
                     (mysql.ResolveForeignKeyIds E (internal.Conv.SrcSchema conv1)) conv1
               end.
Proof.
  assert (Hstep :
            forall (conv : internal.Conv.t) (r : internal.Reader.t)
                   (res : Errorable (string * list ast.StmtNode))
                   (c1 : internal.Conv.t) (r1 : internal.Reader.t),
              internal.SchemaMode conv = true ->
              more.filed conv ->
              mysql.readAndParseChunk E conv r = Some (Ok (res, c1, r1)) ->
              more.filed c1 /\ more.grows conv c1 /\ internal.SchemaMode c1 = true).
  { intros conv r res c1 r1 Hmode Hf Hread. apply readLoop_countsOnly in Hread.
    destruct (countsOnly_grows _ _ Hread Hf) as (Hf1 & Hg1 & Hm1).
    rewrite Hmode in Hm1. auto. }
  induction fuel as [|fuel IH]; intros conv r err conv' r' Hmode Hf H; simpl in H.
  - destruct (mysql.readAndParseChunk E conv r) as [[[[res c1] r1]|why]|] eqn:Hread;
      try discriminate H.
    destruct (Hstep _ _ _ _ _ Hmode Hf Hread) as (Hf1 & Hg1 & Hm1).
    destruct res as [[chunk stmts]|e].
    + destruct (mysql.processStatements E c1 stmts) as [c2|why] eqn:Hrun; [|discriminate H].
      destruct (processStatements_grows E stmts c1 c2 Hm1 Hf1 Hrun) as (Hf2 & Hg2 & Hm2).
      destruct (internal.Reader.EOF r1); [|discriminate H].
      injection H as <- <- _. exists c2. split; [exact Hf2|].
      split; [eapply grows_trans; eassumption|]. split; [exact Hm2 | reflexivity].
    + injection H as <- <- _. exists c1. split; [exact Hf1|]. split; [exact Hg1|].
      split; [exact Hm1 | reflexivity].
  - destruct (mysql.readAndParseChunk E conv r) as [[[[res c1] r1]|why]|] eqn:Hread;
      try discriminate H.
    destruct (Hstep _ _ _ _ _ Hmode Hf Hread) as (Hf1 & Hg1 & Hm1).
    destruct res as [[chunk stmts]|e].
    + destruct (mysql.processStatements E c1 stmts) as [c2|why] eqn:Hrun; [|discriminate H].
      destruct (processStatements_grows E stmts c1 c2 Hm1 Hf1 Hrun) as (Hf2 & Hg2 & Hm2).
      pose proof (grows_trans _ _ _ Hg1 Hg2) as Hg.
      destruct (internal.Reader.EOF r1).
      * injection H as <- <- _. exists c2. split; [exact Hf2|].
        split; [exact Hg|]. split; [exact Hm2 | reflexivity].
      * destruct (IH c2 r1 err conv' r' Hm2 Hf2 H) as (conv1 & Hf' & Hg' & Hm' & Heq).
        exists conv1. split; [exact Hf'|]. split; [eapply grows_trans; eassumption|].
        split; assumption.
    + injection H as <- <- _. exists c1. split; [exact Hf1|]. split; [exact Hg1|].
      split; [exact Hm1 | reflexivity].
Qed.

End DumpGrows.

(** X19. In schema mode the source schema only grows while a dump is
    processed.  If the tables of the context are filed under their own
    ids, and these are table ids drawn from the counter so far, then
    whenever [processMySQLDump] returns this holds of the context it has
    built, and every table that was there at the start is still there
    under its key with the same id, name, column ids, name-to-id map and
    check constraints: no statement removes, renames or re-keys a table or
    changes the columns it has, and a new table never takes the place of
    an old one.  Mode, target schema and data sink are untouched.  With an
    error this context is returned as it is; without, its source schema
    is passed once through the resolution of foreign-key ids. *)
Theorem processMySQLDump_schema_grows
        (E : mysql.Externals) (conv : internal.Conv.t) (r : internal.Reader.t)
        (err : option string) (conv' : internal.Conv.t) (r' : internal.Reader.t) :
  internal.SchemaMode conv = true ->
  more.filed conv ->
  mysql.processMySQLDump E conv r = Some (Ok (err, conv', r')) ->
  exists conv1,
    more.filed conv1
    /\ more.grows conv conv1
    /\ internal.SchemaMode conv1 = true
    /\ conv' = match err with
               | Some _ => conv1
               | None =>
                   internal.Conv.setSrcSchema
                     (mysql.ResolveForeignKeyIds E (internal.Conv.SrcSchema conv1)) conv1
               end.
Proof.
  intros Hmode Hf H. unfold mysql.processMySQLDump in H.
  exact (dumpLoop_grows E _ conv r err conv' r' Hmode Hf H).
Qed.

Lemma processMySQLDump_schema_grows_witness :
  exists conv' r' t',
    mysql.processMySQLDump demo.E demo.convSchema
      (internal.NewReader [demo.line "INSERT INTO t VALUES (1,2,3);"] "")
    = Some (Ok (None, conv', r'))
    /\ internal.Conv.SrcSchema conv' !! "t1" = Some t'
    /\ schema.Table.ColIds t' = schema.Table.ColIds demo.tableT1.
Proof.
  destruct (mysql.processMySQLDump demo.E demo.convSchema
              (internal.NewReader [demo.line "INSERT INTO t VALUES (1,2,3);"] ""))
    as [[[[[e|] conv'] r']|why]|] eqn:H; try (vm_compute in H; discriminate H).
  destruct (processMySQLDump_schema_grows demo.E demo.convSchema _ None conv' r'
              eq_refl filed_convSchema H)
    as (conv1 & _ & (_ & _ & _ & _ & Hkeep) & _ & ->).
  destruct (Hkeep "t1" demo.tableT1 eq_refl) as (t' & Ht' & _ & _ & Hcols & _).
  eexists _, r', t'. split; [reflexivity|]. split; [exact Ht' | exact Hcols].
Defined.

(** ** SET statements *)

Lemma processSetVars_skip (node : ast.StmtNode) (pre rest : list ast.VariableAssignment.t)
      (conv : internal.Conv.t) :
  existsb more.isTimeZone pre = false ->
  mysql.processSetVars conv node (pre ++ rest)%list = mysql.processSetVars conv node rest.
Proof.
  induction pre as [|v pre IH]; intros H; [reflexivity|].
  simpl in H. apply orb_false_elim in H as [Hv Hpre].
  change ((v :: pre) ++ rest)%list with (v :: (pre ++ rest))%list.
  cbn [mysql.processSetVars]. unfold more.isTimeZone in Hv. rewrite Hv. now apply IH.
Qed.

(** X21. A SET statement matters only through its variables named exactly
    [TIME_ZONE].  Without one the context is unchanged.  When the first
    such variable is not assigned a literal (the restore of the saved time
    zone at the end of a dump), the context is unchanged as well, and the
    variables after it are not looked at, not even a later literal for
    [TIME_ZONE].  In any case the source schema, the target schema, the
    mode, the data sink and the id counter are untouched. *)
Theorem processSetStmt_time_zone (conv : internal.Conv.t) (stmt : ast.SetStmt.t) :
  let conv' := mysql.processSetStmt conv stmt in
  (existsb more.isTimeZone (ast.SetStmt.Variables stmt) = false -> conv' = conv)
  /\ (forall pre v post,
        ast.SetStmt.Variables stmt = (pre ++ v :: post)%list ->
        existsb more.isTimeZone pre = false ->
        more.isTimeZone v = true ->
        more.isLiteral (ast.VariableAssignment.Value v) = false ->
        conv' = conv)
  /\ internal.Conv.SrcSchema conv' = internal.Conv.SrcSchema conv
  /\ internal.Conv.mode_ conv' = internal.Conv.mode_ conv
  /\ internal.Conv.SpSchema conv' = internal.Conv.SpSchema conv
  /\ internal.Conv.Sink conv' = internal.Conv.Sink conv
  /\ internal.Conv.Cntr conv' = internal.Conv.Cntr conv.
Proof.
  intros conv'. subst conv'. unfold mysql.processSetStmt. split; [|split].
  - intros H. rewrite <- (app_nil_r (ast.SetStmt.Variables stmt)).
    now rewrite processSetVars_skip.
  - intros pre v post -> Hpre Hv Hlit. rewrite processSetVars_skip by exact Hpre.
    cbn [mysql.processSetVars]. unfold more.isTimeZone in Hv. rewrite Hv.
    destruct (ast.VariableAssignment.Value v) as [val|op V|ty]; [discriminate Hlit| |];
      reflexivity.
  - apply processSetVars_same.
Qed.

(** [SET TIME_ZONE = -@OLD, TIME_ZONE = '+00:00'] leaves the offset alone. *)
Example processSetStmt_restore_first :
  mysql.processSetStmt internal.MakeConv
    (ast.SetStmt.mk
       [ast.VariableAssignment.mk "TIME_ZONE" (ast.OtherExpr "*ast.VariableExpr");
        ast.VariableAssignment.mk "TIME_ZONE" (ast.ValueExpr (ast.Text "+00:00"))])
  = internal.MakeConv.
Proof. reflexivity. Qed.

(** ** Inserts into a table that the schema does not know *)

Lemma GetTableIdFromSrcName_None (m : gmap string schema.Table.t) (name : string) :
  internal.GetTableIdFromSrcName m name = None <-> internal.GetSrcTableByName m name = None.
Proof.
  unfold internal.GetTableIdFromSrcName, internal.GetSrcTableByName.
  destruct (List.find _ _); simpl; split; congruence.
Qed.

(** X22. In data mode an insert into a table whose name the source schema
    does not know (no table being filed under the empty id) sends nothing
    to the data sink and calls no conversion of rows.  It adds to the
    bad-row count of that name the whole row count recorded for it, once
    for each such insert statement, and logs a message that cannot name
    the table: the name is read from the schema entry that is missing.
    Schemas, statement counters and row counts are untouched. *)
Theorem processInsertStmt_unknown_table
        (E : mysql.Externals) (conv : internal.Conv.t) (stmt : ast.InsertStmt.t)
        (table : ast.TableRefsClause.t) (srcTable : string) :
  internal.SchemaMode conv = false ->
  internal.Conv.SrcSchema conv !! "" = None ->
  ast.InsertStmt.Table stmt = Some table ->
  mysql.getTableNameInsert table = Value srcTable ->
  internal.GetSrcTableByName (internal.Conv.SrcSchema conv) srcTable = None ->
  let conv' := mysql.processInsertStmt E conv stmt in
  conv' = internal.addBadRows srcTable (internal.rowsOf srcTable conv)
            (internal.Unexpected "Can't get schemas for table " conv)
  /\ internal.badRowsOf srcTable conv'
     = internal.badRowsOf srcTable conv + internal.rowsOf srcTable conv
  /\ internal.Conv.Sink conv' = internal.Conv.Sink conv
  /\ internal.Conv.SrcSchema conv' = internal.Conv.SrcSchema conv
  /\ internal.Conv.SpSchema conv' = internal.Conv.SpSchema conv
  /\ internal.stats.Rows (internal.Conv.Stats conv') = internal.stats.Rows (internal.Conv.Stats conv)
  /\ internal.stats.Statement (internal.Conv.Stats conv')
     = internal.stats.Statement (internal.Conv.Stats conv).
Proof.
  intros Hmode Hnone Htable Hname Hunknown conv'. subst conv'.
  apply GetTableIdFromSrcName_None in Hunknown.
  unfold mysql.processInsertStmt. rewrite Htable, Hname, Hmode, Hunknown. simpl default.
  rewrite Hnone. split; [reflexivity|]. split; [|repeat split].
  unfold internal.badRowsOf, internal.addBadRows, internal.bump, internal.Unexpected. simpl.
  now rewrite lookup_insert_eq.
Qed.

Lemma processInsertStmt_unknown_table_witness :
  let conv := internal.addRows "t" 3 demo.convData in
  let stmt := ast.InsertStmt.mk (Some demo.tableT) None (Some []) in
  let conv0 := internal.Conv.setSrcSchema ∅ conv in
  internal.badRowsOf "t" (mysql.processInsertStmt demo.E conv0 stmt) = 0 + 3
  /\ internal.Conv.Sink (mysql.processInsertStmt demo.E conv0 stmt) = [].
Proof.
  intros conv stmt conv0.
  destruct (processInsertStmt_unknown_table demo.E conv0 stmt demo.tableT "t")
    as (_ & Hbad & Hsink & _); try reflexivity.
  split; [exact Hbad | exact Hsink].
Defined.
